(** * North ATL Events scraper: a shallow embedding of the extraction,
      normalisation and de-duplication pipeline, with its properties.

    The embedding follows the full-featured revision of the scraper
    (helpers, [stripJsonComments], [applyDefaults], [firstExistingSelector],
    the five [scrape*] extractors, the de-duplication loop of the entry
    point and the objects [buildRSS] makes of the records).  The earlier,
    simpler revision of [scrapeJSON] and of the selector resolver is
    embedded next to it where the two differ.

    Conventions.
    - A JavaScript string is a [string] of bytes (UTF-8).  Case mapping, the
      whitespace class and the line terminators are the ASCII ones; their
      non-ASCII members are not modelled.
    - An exception is a value of [exn]; code that can throw lives in the
      [result] monad, and [try_catch] is the [try { } catch { }] block.
    - The conversion of a value to text, [ToString], is the one of
      JavaScript where that conversion succeeds.  It fails, with a
      [TypeError], on an object that has an own member [toString] (which,
      coming from JSON or XML, is not a function), and on a list with such
      an element; [convertible] tells the values on which it succeeds, and
      the statements on the absence of exceptions that depend on it take it
      as a hypothesis.
    - The platform ([new URL], [Date.parse], the clock) is a class
      [Platform]; general statements hold for every platform, concrete
      scenarios are evaluated on the reference platform [nodejs]. *)

From Stdlib Require Import ZArith Ascii String Bool Lia.
From Stdlib Require Import DecimalString.
From stdpp Require Import base list strings gmap.

(** ** String primitives *)

Module Str.

(** [\s], restricted to ASCII: TAB, LF, VT, FF, CR and SPACE. *)
Definition is_space (c : ascii) : bool := Ascii.is_space c.

(** Line terminators, the characters [.] of a regular expression skips,
    restricted to ASCII: LF and CR. *)
Definition is_eol (c : ascii) : bool :=
  match c with
  | "010"%char | "013"%char => true
  | _ => false
  end.

Definition lower_char (c : ascii) : ascii :=
  let n := nat_of_ascii c in
  if (65 <=? n)%nat && (n <=? 90)%nat then ascii_of_nat (n + 32) else c.

Fixpoint toLowerCase (s : string) : string :=
  match s with
  | "" => ""
  | String c r => String (lower_char c) (toLowerCase r)
  end.

Fixpoint trimStart (s : string) : string :=
  match s with
  | "" => ""
  | String c r => if is_space c then trimStart r else s
  end.

Fixpoint trimEnd (s : string) : string :=
  match s with
  | "" => ""
  | String c r =>
      match trimEnd r with
      | "" => if is_space c then "" else String c ""
      | r' => String c r'
      end
  end.

Definition trim (s : string) : string := trimEnd (trimStart s).

(** [s.replace(/\s+/g, ' ')]: every maximal run of whitespace becomes one
    space.  [in_run] tells that the previous character was whitespace. *)
Fixpoint collapse_from (in_run : bool) (s : string) : string :=
  match s with
  | "" => ""
  | String c r =>
      if is_space c
      then (if in_run then collapse_from true r
            else String " " (collapse_from true r))
      else String c (collapse_from false r)
  end.

Definition collapse : string -> string := collapse_from false.

(** [s.startsWith(p)] *)
Fixpoint startsWith (s p : string) : bool :=
  match p, s with
  | "", _ => true
  | String _ _, "" => false
  | String a p', String b s' => if Ascii.eqb a b then startsWith s' p' else false
  end.

(** [s.includes(w)] *)
Fixpoint includes (s w : string) : bool :=
  startsWith s w ||
  match s with
  | "" => false
  | String _ r => includes r w
  end.

Fixpoint drop (n : nat) (s : string) : string :=
  match n, s with
  | O, _ => s
  | S _, "" => ""
  | S k, String _ r => drop k r
  end.

Fixpoint take (n : nat) (s : string) : string :=
  match n, s with
  | O, _ => ""
  | S _, "" => ""
  | S k, String c r => String c (take k r)
  end.

(** [s] starts with the lower-case text [p], letter case ignored. *)
Definition startsWith_ci (s p : string) : bool :=
  String.eqb (toLowerCase (take (String.length p) s)) p.

(** The text after the leftmost occurrence of [pat] in [s]. *)
Fixpoint after_first (s pat : string) : option string :=
  if startsWith s pat then Some (drop (String.length pat) s)
  else match s with
       | "" => None
       | String _ r => after_first r pat
       end.

Fixpoint take_while (f : ascii -> bool) (s : string) : string :=
  match s with
  | "" => ""
  | String c r => if f c then String c (take_while f r) else ""
  end.

Fixpoint drop_while (f : ascii -> bool) (s : string) : string :=
  match s with
  | "" => ""
  | String c r => if f c then drop_while f r else s
  end.

Fixpoint chars (s : string) : list string :=
  match s with
  | "" => []
  | String c r => String c "" :: chars r
  end.

(** [split_go sep skip s] is the piece under construction and the pieces
    after it; [skip] counts the characters of a matched separator that are
    still to be passed over. *)
Fixpoint split_go (sep : string) (skip : nat) (s : string) : string * list string :=
  match s with
  | "" => ("", [])
  | String c r =>
      match skip with
      | S k => split_go sep k r
      | O =>
          if startsWith s sep
          then let '(p, ps) := split_go sep (String.length sep - 1) r in ("", p :: ps)
          else let '(p, ps) := split_go sep 0 r in (String c p, ps)
      end
  end.

(** [s.split(sep)] for a string separator. *)
Definition split (s sep : string) : list string :=
  match sep with
  | "" => chars s
  | _ => let '(p, ps) := split_go sep 0 s in p :: ps
  end.

(** [l.join(sep)] on a list of strings. *)
Fixpoint join (sep : string) (l : list string) : string :=
  match l with
  | [] => ""
  | [x] => x
  | x :: r => x +:+ sep +:+ join sep r
  end.

Definition nonempty (s : string) : bool :=
  match s with "" => false | _ => true end.

Definition of_Z (z : Z) : string := NilZero.string_of_int (Z.to_int z).

End Str.

(** ** JavaScript values, exceptions *)

(** The values the extractors see: what [JSON.parse] and the XML parser
    produce, plus [undefined].  Numbers are the integers. *)
#[warnings="-register-all"]
Inductive value : Type :=
| VUndef
| VNull
| VBool (b : bool)
| VNum (n : Z)
| VStr (s : string)
| VArr (items : list value)
| VObj (fields : list (string * value)).

Inductive exn : Type :=
| TypeError
| SyntaxError
| PageError
| HttpError (status : Z).

Inductive result (A : Type) : Type :=
| Ok (a : A)
| Throw (e : exn).
Arguments Ok {A} a.
Arguments Throw {A} e.

Definition bind {A B : Type} (m : result A) (k : A -> result B) : result B :=
  match m with
  | Ok a => k a
  | Throw e => Throw e
  end.

(** [try { body } catch { handler }] *)
Definition try_catch {A : Type} (body : result A) (handler : exn -> result A) : result A :=
  match body with
  | Ok a => Ok a
  | Throw e => handler e
  end.

Notation "'let!' x ':=' m 'in' k" := (bind m (fun x => k))
  (at level 10, x name, m at level 200, k at level 200).

(** [for (const x of l) { ... }] over a body that can throw and that
    contributes zero or one output. *)
Fixpoint collect {A B : Type} (f : A -> result (option B)) (l : list A) : result (list B) :=
  match l with
  | [] => Ok []
  | x :: r =>
      let! o := f x in
      let! rs := collect f r in
      Ok (match o with Some b => b :: rs | None => rs end)
  end.

Definition truthy (v : value) : bool :=
  match v with
  | VUndef | VNull | VBool false | VNum 0 | VStr "" => false
  | _ => true
  end.

(** [a || b] *)
Definition js_or (a b : value) : value := if truthy a then a else b.

(** [a || b] where either side can throw; [b] is only reached when [a] is falsy. *)
Definition or_else (a b : result value) : result value :=
  let! v := a in if truthy v then Ok v else b.

Definition isArray (v : value) : bool :=
  match v with VArr _ => true | _ => false end.

(** [v + ''] and [String(v)] where the conversion succeeds, that is on the
    [convertible] values below; elsewhere JavaScript throws a [TypeError],
    which this function does not follow. *)
Fixpoint ToString (v : value) : string :=
  match v with
  | VUndef => "undefined"
  | VNull => "null"
  | VBool true => "true"
  | VBool false => "false"
  | VNum n => Str.of_Z n
  | VStr s => s
  | VArr l =>
      Str.join "," (List.map (fun x => match x with
                                       | VUndef | VNull => ""
                                       | _ => ToString x
                                       end) l)
  | VObj _ => "[object Object]"
  end.


(** No object inside the value, at any depth, has an own member
    [toString]: every value read out of it is convertible. *)
Fixpoint plain (v : value) : bool :=
  match v with
  | VArr l => forallb plain l
  | VObj fs =>
      negb (existsb (fun kv => String.eqb (fst kv) "toString") fs)
      && forallb (fun kv => match kv with (_, x) => plain x end) fs
  | _ => true
  end.

Fixpoint assoc {A : Type} (k : string) (l : list (string * A)) : option A :=
  match l with
  | [] => None
  | (k', a) :: r => if String.eqb k k' then Some a else assoc k r
  end.

(** An array index written as a property key: the canonical decimal of a
    natural number. *)
Definition index_of_key (k : string) : option nat :=
  match NilZero.int_of_string k with
  | Some (Decimal.Pos d) =>
      let n := Z.to_nat (Z.of_uint d) in
      if String.eqb (Str.of_Z (Z.of_nat n)) k then Some n else None
  | _ => None
  end.

(** Own properties of objects and arrays only: the members inherited from
    the prototypes, and the [length] and the characters of a string, are not
    modelled (the extractors never read them). *)
Definition own (v : value) (k : string) : option value :=
  match v with
  | VObj fs => assoc k fs
  | VArr l =>
      if String.eqb k "length" then Some (VNum (Z.of_nat (length l)))
      else match index_of_key k with
           | Some i => l !! i
           | None => None
           end
  | _ => None
  end.

(** [v[k]], [v.k]: a [TypeError] on [undefined] and [null]. *)
Definition prop (v : value) (k : string) : result value :=
  match v with
  | VUndef | VNull => Throw TypeError
  | _ => Ok (default VUndef (own v k))
  end.

(** [v?.[k]], [v?.k] *)
Definition prop_opt (v : value) (k : string) : value :=
  match v with
  | VUndef | VNull => VUndef
  | _ => default VUndef (own v k)
  end.

(** [k in o]: a [TypeError] when [o] is not an object. *)
Definition has_in (k : string) (o : value) : result bool :=
  match o with
  | VObj _ | VArr _ => Ok (bool_decide (is_Some (own o k)))
  | _ => Throw TypeError
  end.

(** ** The platform *)

Class Platform : Type := {
  (** [new URL(url, base).href]; [base] is [None] for [undefined]. *)
  new_URL : string -> option string -> result string;
  (** the time value of [new Date(s)], [None] for [NaN] *)
  Date_parse : string -> option Z;
  (** the time value of [new Date()], the run time *)
  Date_now : Z
}.

(** ** Dates *)

Module JsDate.

Definition msPerDay : Z := 86400000.

(** Civil date of a day number counted from 1970-01-01. *)
Definition civil_from_days (day : Z) : Z * Z * Z :=
  let z := (day + 719468)%Z in
  let era := (z / 146097)%Z in
  let doe := (z - era * 146097)%Z in
  let yoe := ((doe - doe / 1460 + doe / 36524 - doe / 146096) / 365)%Z in
  let doy := (doe - (365 * yoe + yoe / 4 - yoe / 100))%Z in
  let mp := ((5 * doy + 2) / 153)%Z in
  let d := (doy - (153 * mp + 2) / 5 + 1)%Z in
  let m := (if mp <? 10 then mp + 3 else mp - 9)%Z in
  let y := (yoe + era * 400 + (if m <=? 2 then 1 else 0))%Z in
  (y, m, d).

Definition days_from_civil (y m d : Z) : Z :=
  let y' := (if m <=? 2 then y - 1 else y)%Z in
  let era := (y' / 400)%Z in
  let yoe := (y' - era * 400)%Z in
  let doy := ((153 * (if 2 <? m then m - 3 else m + 9) + 2) / 5 + d - 1)%Z in
  let doe := (yoe * 365 + yoe / 4 - yoe / 100 + doy)%Z in
  (era * 146097 + doe - 719468)%Z.

Definition day_name (w : Z) : string :=
  match w with
  | 0%Z => "Sun" | 1%Z => "Mon" | 2%Z => "Tue" | 3%Z => "Wed"
  | 4%Z => "Thu" | 5%Z => "Fri" | _ => "Sat"
  end.

Definition month_name (m : Z) : string :=
  match m with
  | 1%Z => "Jan" | 2%Z => "Feb" | 3%Z => "Mar" | 4%Z => "Apr"
  | 5%Z => "May" | 6%Z => "Jun" | 7%Z => "Jul" | 8%Z => "Aug"
  | 9%Z => "Sep" | 10%Z => "Oct" | 11%Z => "Nov" | _ => "Dec"
  end.

Definition pad2 (n : Z) : string :=
  if (n <? 10)%Z then "0" +:+ Str.of_Z n else Str.of_Z n.

Definition pad4 (n : Z) : string :=
  if (n <? 10)%Z then "000" +:+ Str.of_Z n
  else if (n <? 100)%Z then "00" +:+ Str.of_Z n
  else if (n <? 1000)%Z then "0" +:+ Str.of_Z n
  else Str.of_Z n.

Definition year_string (y : Z) : string :=
  if (y <? 0)%Z then "-" +:+ pad4 (- y) else pad4 y.

(** [Date.prototype.toUTCString] on a time value. *)
Definition toUTCString (t : option Z) : string :=
  match t with
  | None => "Invalid Date"
  | Some ms =>
      let day := (ms / msPerDay)%Z in
      let rest := (ms mod msPerDay)%Z in
      let '(y, m, d) := civil_from_days day in
      day_name ((day + 4) mod 7)%Z +:+ ", " +:+ pad2 d +:+ " " +:+
      month_name m +:+ " " +:+ year_string y +:+ " " +:+
      pad2 (rest / 3600000)%Z +:+ ":" +:+
      pad2 ((rest / 60000) mod 60)%Z +:+ ":" +:+
      pad2 ((rest / 1000) mod 60)%Z +:+ " GMT"
  end.

Definition is_digit (c : ascii) : bool :=
  let n := nat_of_ascii c in (48 <=? n)%nat && (n <=? 57)%nat.

Definition digit (c : ascii) : Z := (Z.of_nat (nat_of_ascii c) - 48)%Z.

Definition leap (y : Z) : bool :=
  ((y mod 4 =? 0) && negb (y mod 100 =? 0) || (y mod 400 =? 0))%Z.

Definition days_in_month (y m : Z) : Z :=
  match m with
  | 2%Z => if leap y then 29%Z else 28%Z
  | 4%Z | 6%Z | 9%Z | 11%Z => 30%Z
  | _ => 31%Z
  end.

(** The date-only form [YYYY-MM-DD] of the ECMAScript date-time format,
    read as UTC midnight. *)
Definition parse_iso_date (s : string) : option Z :=
  match s with
  | String y1 (String y2 (String y3 (String y4 (String "-" (String m1 (String m2
      (String "-" (String d1 (String d2 "")))))))))  =>
      if forallb is_digit [y1; y2; y3; y4; m1; m2; d1; d2] then
        let y := (digit y1 * 1000 + digit y2 * 100 + digit y3 * 10 + digit y4)%Z in
        let m := (digit m1 * 10 + digit m2)%Z in
        let d := (digit d1 * 10 + digit d2)%Z in
        if ((1 <=? m) && (m <=? 12) && (1 <=? d) && (d <=? days_in_month y m))%Z
        then Some (days_from_civil y m d * msPerDay)%Z
        else None
      else None
  | _ => None
  end.

Definition number (s : string) : option Z :=
  match s with
  | "" => None
  | _ =>
      if forallb is_digit (list_ascii_of_string s)
      then Some (fold_left (fun acc c => (acc * 10 + digit c)%Z) (list_ascii_of_string s) 0%Z)
      else None
  end.

Definition month_number (s : string) : option Z :=
  List.find (fun m => String.eqb (month_name m) s)
            [1; 2; 3; 4; 5; 6; 7; 8; 9; 10; 11; 12]%Z.

Definition is_day_name (s : string) : bool :=
  existsb (fun w => String.eqb (day_name w) s) [0; 1; 2; 3; 4; 5; 6]%Z.

(** The format [toUTCString] writes, for a four-digit year:
    [Www, DD Mon YYYY HH:MM:SS GMT]. *)
Definition parse_utc_string (s : string) : option Z :=
  if (String.length s =? 29)%nat && is_day_name (substring 0 3 s)
     && String.eqb (substring 3 2 s) ", " && String.eqb (substring 7 1 s) " "
     && String.eqb (substring 11 1 s) " " && String.eqb (substring 16 1 s) " "
     && String.eqb (substring 19 1 s) ":" && String.eqb (substring 22 1 s) ":"
     && String.eqb (substring 25 4 s) " GMT"
  then
    match number (substring 5 2 s), month_number (substring 8 3 s),
          number (substring 12 4 s), number (substring 17 2 s),
          number (substring 20 2 s), number (substring 23 2 s) with
    | Some d, Some m, Some y, Some hh, Some mm, Some ss =>
        if ((1 <=? d) && (d <=? days_in_month y m) && (hh <? 24) && (mm <? 60) && (ss <? 60))%Z
        then Some (days_from_civil y m d * msPerDay + hh * 3600000 + mm * 60000 + ss * 1000)%Z
        else None
    | _, _, _, _, _, _ => None
    end
  else None.

(** The two formats of the reference platform. *)
Definition parse (s : string) : option Z :=
  match parse_iso_date s with
  | Some t => Some t
  | None => parse_utc_string s
  end.

End JsDate.

(** ** A reference model of [new URL] *)

(** The model covers [http] and [https] URLs written [scheme://authority...]
    and references resolved against them: absolute, scheme-relative,
    path-absolute, path-relative, query-only, fragment-only and empty
    references, with removal of dot segments.  Percent-encoding, host case
    folding, default ports and the lenient forms (missing or back slashes)
    are not modelled; a URL of another scheme is returned as written. *)
Module URL.

Record t : Type := mk {
  scheme : string;
  authority : string;
  segments : list string;
  query : option string;
  fragment : option string
}.

Definition is_alpha (c : ascii) : bool :=
  let n := nat_of_ascii c in
  ((65 <=? n) && (n <=? 90) || (97 <=? n) && (n <=? 122))%nat.

Definition is_scheme_char (c : ascii) : bool :=
  is_alpha c || JsDate.is_digit c ||
  match c with "+"%char | "-"%char | "."%char => true | _ => false end.

(** [scheme ":" rest] *)
Definition parse_scheme (s : string) : option (string * string) :=
  match s with
  | String c _ =>
      if is_alpha c then
        let sch := Str.take_while is_scheme_char s in
        match Str.drop (String.length sch) s with
        | String ":" rest => Some (Str.toLowerCase sch, rest)
        | _ => None
        end
      else None
  | "" => None
  end.

Definition special (sch : string) : bool :=
  String.eqb sch "http" || String.eqb sch "https".

Definition not_char (x : ascii) (c : ascii) : bool := negb (Ascii.eqb c x).

(** [path ? query # fragment] *)
Definition split_ref (s : string) : string * option string * option string :=
  let before_hash := Str.take_while (not_char "#") s in
  let frag := match Str.drop (String.length before_hash) s with
              | String _ f => Some f
              | "" => None
              end in
  let path := Str.take_while (not_char "?") before_hash in
  let qry := match Str.drop (String.length path) before_hash with
             | String _ q => Some q
             | "" => None
             end in
  (path, qry, frag).

(** Removal of dot segments; [stack] holds the kept segments, last first. *)
Fixpoint normalize_go (stack : list string) (segs : list string) : list string :=
  match segs with
  | [] => rev stack
  | [s] =>
      if String.eqb s ".." then rev ("" :: tail stack)
      else if String.eqb s "." then rev ("" :: stack)
      else rev (s :: stack)
  | s :: r =>
      if String.eqb s ".." then normalize_go (tail stack) r
      else if String.eqb s "." then normalize_go stack r
      else normalize_go (s :: stack) r
  end.

Definition normalize : list string -> list string := normalize_go [].

(** The segments of a path that starts with a slash (or is empty). *)
Definition path_segments (p : string) : list string :=
  match p with
  | "" => [""]
  | String _ r => Str.split r "/"
  end.

Definition is_authority_char (c : ascii) : bool :=
  match c with "/"%char | "?"%char | "#"%char => false | _ => true end.

(** [//authority path ? query # fragment] *)
Definition parse_hier (sch rest : string) : option t :=
  match rest with
  | String "/" (String "/" r) =>
      let auth := Str.take_while is_authority_char r in
      match auth with
      | "" => None
      | _ =>
          let '(p, q, f) := split_ref (Str.drop (String.length auth) r) in
          Some (mk sch auth (normalize (path_segments p)) q f)
      end
  | _ => None
  end.

Definition serialize (u : t) : string :=
  scheme u +:+ "://" +:+ authority u +:+ "/" +:+ Str.join "/" (segments u) +:+
  match query u with Some q => "?" +:+ q | None => "" end +:+
  match fragment u with Some f => "#" +:+ f | None => "" end.

Definition parse_absolute (s : string) : option t :=
  match parse_scheme s with
  | Some (sch, rest) => if special sch then parse_hier sch rest else None
  | None => None
  end.

(** A reference without a scheme, resolved against the parsed base. *)
Definition resolve (ref : string) (b : t) : option t :=
  match ref with
  | "" => Some (mk (scheme b) (authority b) (segments b) (query b) None)
  | String "/" (String "/" _) => parse_hier (scheme b) ref
  | String "/" _ =>
      let '(p, q, f) := split_ref ref in
      Some (mk (scheme b) (authority b) (normalize (path_segments p)) q f)
  | String "?" _ =>
      let '(_, q, f) := split_ref ref in
      Some (mk (scheme b) (authority b) (segments b) q f)
  | String "#" f =>
      Some (mk (scheme b) (authority b) (segments b) (query b) (Some f))
  | _ =>
      let '(p, q, f) := split_ref ref in
      Some (mk (scheme b) (authority b)
               (normalize (removelast (segments b) ++ Str.split p "/")) q f)
  end.

Definition lift (o : option t) : result string :=
  match o with
  | Some u => Ok (serialize u)
  | None => Throw TypeError
  end.

Definition href (url : string) (base : option string) : result string :=
  match parse_scheme url with
  | Some (sch, rest) =>
      if special sch then lift (parse_hier sch rest) else Ok url
  | None =>
      match base with
      | None => Throw TypeError
      | Some b =>
          match parse_absolute b with
          | Some bu => lift (resolve url bu)
          | None => Throw TypeError
          end
      end
  end.

(** Has a scheme: what makes a URL string absolute. *)
Definition is_absolute (s : string) : bool :=
  match parse_scheme s with Some _ => true | None => false end.

End URL.

(** The reference platform: the URL model above, a date parser that reads
    the ISO date-only form and the format [toUTCString] writes and rejects
    every other string (the implementation-defined legacy formats are not
    modelled), and a run that starts at 2024-05-01T12:00:00Z. *)
Definition nodejs : Platform := {|
  new_URL := URL.href;
  Date_parse := JsDate.parse;
  Date_now := 1714564800000
|}.

(** ** The two regular expressions of the image heuristics *)

Module Rx.

Definition is_quote (c : ascii) : bool :=
  match c with "034"%char | "'"%char => true | _ => false end.

Definition url_char (c : ascii) : bool :=
  match c with "034"%char | "'"%char | ")"%char => false | _ => true end.

(** A match of [background-image:], optional whitespace, [url(], an
    optional quote, one or more characters other than quotes and the
    closing parenthesis, the same quote again and [)], letter case
    ignored, anchored at the start of [s]; the answer is group 2. *)
Definition background_image_at (s : string) : option string :=
  if Str.startsWith_ci s "background-image:" then
    let r := Str.drop_while Str.is_space (Str.drop 17 s) in
    if Str.startsWith_ci r "url(" then
      match Str.drop 4 r with
      | String q r' =>
          if is_quote q then
            let run := Str.take_while url_char r' in
            match run, Str.drop (String.length run) r' with
            | String _ _, String q' (String ")" _) =>
                if Ascii.eqb q' q then Some run else None
            | _, _ => None
            end
          else
            let run := Str.take_while url_char (String q r') in
            match run, Str.drop (String.length run) (String q r') with
            | String _ _, String ")" _ => Some run
            | _, _ => None
            end
      | "" => None
      end
    else None
  else None.

(** Group 2 of the leftmost match in [s]. *)
Fixpoint background_image (s : string) : option string :=
  match background_image_at s with
  | Some m => Some m
  | None =>
      match s with
      | "" => None
      | String _ r => background_image r
      end
  end.

(** [src=], a quote, one or more characters other than quotes, a quote,
    anchored at the start of [s]; the answer is the quoted text. *)
Definition src_at (s : string) : option string :=
  if Str.startsWith_ci s "src=" then
    match Str.drop 4 s with
    | String q r =>
        if is_quote q then
          let cap := Str.take_while (fun c => negb (is_quote c)) r in
          match cap, Str.drop (String.length cap) r with
          | String _ _, String _ _ => Some cap
          | _, _ => None
          end
        else None
    | "" => None
    end
  else None.

(** The greedy run of characters other than [>] that precedes [src=]:
    the longest run is tried first. *)
Fixpoint after_run (s : string) : option string :=
  let later := match s with
               | String c r => if Ascii.eqb c ">" then None else after_run r
               | "" => None
               end in
  match later with
  | Some m => Some m
  | None => src_at s
  end.

Definition img_src_at (s : string) : option string :=
  if Str.startsWith_ci s "<img" then
    match Str.drop 4 s with
    | String c r => if Ascii.eqb c ">" then None else after_run r
    | "" => None
    end
  else None.

(** Group 1 of the leftmost match of an [img] tag with a quoted [src]. *)
Fixpoint img_src (s : string) : option string :=
  match img_src_at s with
  | Some m => Some m
  | None =>
      match s with
      | "" => None
      | String _ r => img_src r
      end
  end.

End Rx.

(** ** Source configurations and normalised records *)

(** [cfg.map]; an empty string stands for an absent field (the code only
    tests these for truthiness). *)
Record map_cfg : Type := {
  m_path : string;
  m_title : string;
  m_link : string;
  m_date : string;
  m_venue : string;
  m_image : string
}.

Definition no_map : map_cfg := {|
  m_path := ""; m_title := ""; m_link := ""; m_date := ""; m_venue := ""; m_image := ""
|}.

(** [cfg.filters]; [None] is an absent list, [Some []] a present empty one. *)
Record filters_cfg : Type := {
  include : option (list string);
  exclude : option (list string)
}.

Inductive mode : Type :=
| mode_dom | mode_jsonld | mode_json | mode_ics | mode_rss | mode_unknown.

(** A source configuration.  [cfg_town], [cfg_venue] and the selector lists
    use the empty string for an absent field, [cfg_max] uses [0]. *)
Record config : Type := {
  cfg_key : string;
  cfg_mode : mode;
  cfg_url : string;
  cfg_api : string;
  cfg_ics : string;
  cfg_rss : string;
  cfg_item : string;
  cfg_title : string;
  cfg_link : string;
  cfg_date : string;
  cfg_image : string;
  cfg_town : string;
  cfg_venue : string;
  cfg_waitMs : option Z;
  cfg_max : Z;
  cfg_map : map_cfg;
  cfg_filters : option filters_cfg;
  cfg_jsonldFirst : bool
}.

Module DEFAULT_SELECTORS.
Definition item : string :=
  "li.mec-event-article, .mec-event-list li, .tribe-events-calendar-list__event, article, .event, .event-card, .event-item, li.event, li.EventList-item, .card, .listing, .tile".
Definition title : string :=
  ".mec-event-title a, .entry-title a, .entry-title, h1, h2, h3, .title, .event-title, .card-title, [itemprop='name']".
Definition link : string := ".mec-event-title a, a[href]".
Definition date : string :=
  ".mec-start-date, .tribe-event-date-start, time, [datetime], .date, .event-date, .card-date, [class*='date'], [class*='time']".
Definition image : string :=
  "img, [data-src], [data-original], [data-lazy], [data-image], [style*='background-image']".
End DEFAULT_SELECTORS.

Definition or_default (s d : string) : string := if Str.nonempty s then s else d.

Definition applyDefaults (cfg : config) : config :=
  let is_dom := match cfg_mode cfg with mode_dom => true | _ => false end in
  let pick_sel (s d : string) := if is_dom then or_default s d else s in
  {| cfg_key := cfg_key cfg;
     cfg_mode := cfg_mode cfg;
     cfg_url := cfg_url cfg;
     cfg_api := cfg_api cfg;
     cfg_ics := cfg_ics cfg;
     cfg_rss := cfg_rss cfg;
     cfg_item := pick_sel (cfg_item cfg) DEFAULT_SELECTORS.item;
     cfg_title := pick_sel (cfg_title cfg) DEFAULT_SELECTORS.title;
     cfg_link := pick_sel (cfg_link cfg) DEFAULT_SELECTORS.link;
     cfg_date := pick_sel (cfg_date cfg) DEFAULT_SELECTORS.date;
     cfg_image := pick_sel (cfg_image cfg) DEFAULT_SELECTORS.image;
     cfg_town := cfg_town cfg;
     cfg_venue := cfg_venue cfg;
     cfg_waitMs := Some (default 2200%Z (cfg_waitMs cfg));
     cfg_max := cfg_max cfg;
     cfg_map := cfg_map cfg;
     cfg_filters := cfg_filters cfg;
     cfg_jsonldFirst := cfg_jsonldFirst cfg |}.

(** [w => t.includes(w.toLowerCase())] *)
Definition term_in (t w : string) : bool := Str.includes t (Str.toLowerCase w).

(** [cfg._filter], the predicate [applyDefaults] derives from [cfg.filters]. *)
Definition _filter (cfg : config) (txt : string) : bool :=
  match cfg_filters cfg with
  | Some f =>
      let t := Str.toLowerCase txt in
      if match exclude f with
         | Some ex => existsb (term_in t) ex
         | None => false
         end then false
      else if match include f with
              | Some inc => negb (existsb (term_in t) inc)
              | None => false
              end then false
      else true
  | None => true
  end.

(** The normalised event record. *)
Module Item.
Record t : Type := mk {
  title : string;
  link : value;
  guid : string;
  pubDate : string;
  description : string;
  image : value;
  town : string;
  venue : string
}.
End Item.

(** The record of the earlier revision, which has no image, town or venue. *)
Module Item1.
Record t : Type := mk {
  title : string;
  link : value;
  guid : string;
  pubDate : string;
  description : string
}.
End Item1.

Record response (A : Type) : Type := {
  ok : bool;
  status : Z;
  body : A
}.
Arguments ok {A} r.
Arguments status {A} r.
Arguments body {A} r.

Definition elements (v : value) : list value :=
  match v with VArr l => l | _ => [] end.

Definition is_str (v : value) : bool :=
  match v with VStr _ => true | _ => false end.

(** [v === s] for a string literal [s] *)
Definition str_eq (v : value) (s : string) : bool :=
  match v with VStr x => String.eqb x s | _ => false end.

(** [[a, b].filter(Boolean).join(' — ')] *)
Definition join_dash (parts : list string) : string :=
  Str.join " — " (List.filter Str.nonempty parts).

(** [(cfg.town ? `[${cfg.town}] ` : '') + title] *)
Definition town_prefix (cfg : config) (title : string) : string :=
  (if Str.nonempty (cfg_town cfg) then "[" +:+ cfg_town cfg +:+ "] " else "") +:+ title.

(** ** The page collaborator *)

(** An element handle: its [innerText] (reading it can fail) and its
    attributes. *)
Record handle : Type := {
  innerText : result string;
  attributes : list (string * string)
}.

(** The outcome of [el.$(selector)]. *)
Inductive query : Type :=
| QNone
| QFound (h : handle)
| QThrow.

(** An item element, as the answers it gives to the selectors asked of it;
    a selector that is not listed matches nothing. *)
Definition element : Type := list (string * query).

Definition el_query (el : element) (sel : string) : result (option handle) :=
  match assoc sel el with
  | Some (QFound h) => Ok (Some h)
  | Some QThrow => Throw PageError
  | Some QNone | None => Ok None
  end.

(** [h.getAttribute(name)], [null] when the attribute is absent *)
Definition getAttribute (h : handle) (name : string) : value :=
  match assoc name (attributes h) with
  | Some s => VStr s
  | None => VNull
  end.

(** The live page as the selector resolver sees it.  [count t sel] is the
    outcome of [page.locator(sel).count()] asked at clock time [t] (in ms),
    [count_cost t sel] the time the call takes and [sleep_lag t] the time by
    which a sleep started at [t] overshoots; negative costs count as zero. *)
Record browser : Type := {
  count : Z -> string -> result Z;
  count_cost : Z -> string -> Z;
  sleep_lag : Z -> Z
}.

(** What [scrapeDOM] observes of the page once it has navigated, settled
    and scrolled. *)
Record page : Type := {
  blocked : bool;                       (** the anti-bot text is on the page *)
  ld_scripts : list (result value);     (** the parsed JSON-LD script blocks *)
  live : browser;
  arrival : Z;                          (** the clock when the resolver starts *)
  cards : string -> list element;       (** the elements a selector matches *)
  fetchDetailImage : string -> string   (** the detail-page fallback, which never throws *)
}.

(** ** The selector resolver *)

(** [candidates.split(',').map(s => s.trim()).filter(Boolean)] *)
Definition selector_list (candidates : string) : list string :=
  List.filter Str.nonempty (List.map Str.trim (Str.split candidates ",")).

(** One pass over the candidates: the first one whose count is positive,
    and the clock afterwards.  A count that throws is swallowed. *)
Fixpoint poll_round (b : browser) (list : list string) (t : Z) : option string * Z :=
  match list with
  | [] => (None, t)
  | sel :: r =>
      let t' := (t + Z.max 0 (count_cost b t sel))%Z in
      match try_catch (let! c := count b t sel in Ok (0 <? c)%Z) (fun _ => Ok false) with
      | Ok true => (Some sel, t')
      | _ => poll_round b r t'
      end
  end.

(** The [for (;;)] loop; [None] when the fuel runs out. *)
Fixpoint poll (b : browser) (list : list string) (timeoutMs start : Z)
    (fuel : nat) (t : Z) : option (option string * Z) :=
  match fuel with
  | O => None
  | S k =>
      match poll_round b list t with
      | (Some sel, t') => Some (Some sel, t')
      | (None, t') =>
          if (timeoutMs <? t' - start)%Z then Some (None, t')
          else poll b list timeoutMs start k (t' + 250 + Z.max 0 (sleep_lag b t'))%Z
      end
  end.

(** Rounds are at least 250 ms apart, so this many always suffice. *)
Definition poll_fuel (timeoutMs : Z) : nat := S (S (Z.to_nat (timeoutMs / 250))).

(** [firstExistingSelector(page, candidates, timeoutMs)], started at clock
    time [t0]: the selector or [null], and the clock at the return. *)
Definition firstExistingSelector (b : browser) (candidates : string) (timeoutMs : Z)
    (t0 : Z) : option (option string * Z) :=
  if negb (Str.nonempty candidates) then Some (None, t0)
  else poll b (selector_list candidates) timeoutMs t0 (poll_fuel timeoutMs) t0.

(** The count of [sel] asked at time [t] is positive; a count that throws
    is no match. *)
Definition matches (b : browser) (t : Z) (sel : string) : bool :=
  match count b t sel with
  | Ok c => (0 <? c)%Z
  | Throw _ => false
  end.

(** The clock after the candidates [sels] were asked one after the other
    from time [t] on. *)
Fixpoint clock_after (b : browser) (sels : list string) (t : Z) : Z :=
  match sels with
  | [] => t
  | sel :: r => clock_after b r (t + Z.max 0 (count_cost b t sel))%Z
  end.

(** None of the candidates [sels], asked one after the other from time [t]
    on, matches. *)
Fixpoint all_miss (b : browser) (sels : list string) (t : Z) : Prop :=
  match sels with
  | [] => True
  | sel :: r => matches b t sel = false /\ all_miss b r (t + Z.max 0 (count_cost b t sel))%Z
  end.

(** [reaches b list timeoutMs start t tr]: a loop that is at the top of a
    round at time [t] gets to the top of a round at time [tr], every round
    in between having found no match and no timeout. *)
Inductive reaches (b : browser) (list : list string) (timeoutMs start : Z) : Z -> Z -> Prop :=
| reaches_here (t : Z) : reaches b list timeoutMs start t t
| reaches_next (t t' tr : Z) :
    poll_round b list t = (None, t') ->
    (timeoutMs <? t' - start)%Z = false ->
    reaches b list timeoutMs start (t' + 250 + Z.max 0 (sleep_lag b t'))%Z tr ->
    reaches b list timeoutMs start t tr.

(** The earlier revision has no [try { } catch { }] around the count: a
    count that throws ends the resolver with that exception. *)
Fixpoint poll_round_v1 (b : browser) (list : list string) (t : Z) : result (option string * Z) :=
  match list with
  | [] => Ok (None, t)
  | sel :: r =>
      let t' := (t + Z.max 0 (count_cost b t sel))%Z in
      let! c := count b t sel in
      if (0 <? c)%Z then Ok (Some sel, t') else poll_round_v1 b r t'
  end.

Fixpoint poll_v1 (b : browser) (list : list string) (timeoutMs start : Z)
    (fuel : nat) (t : Z) : option (result (option string * Z)) :=
  match fuel with
  | O => None
  | S k =>
      match poll_round_v1 b list t with
      | Throw e => Some (Throw e)
      | Ok (Some sel, t') => Some (Ok (Some sel, t'))
      | Ok (None, t') =>
          if (timeoutMs <? t' - start)%Z then Some (Ok (None, t'))
          else poll_v1 b list timeoutMs start k (t' + 250 + Z.max 0 (sleep_lag b t'))%Z
      end
  end.

Definition firstExistingSelector_v1 (b : browser) (candidates : string) (timeoutMs : Z)
    (t0 : Z) : option (result (option string * Z)) :=
  poll_v1 b (selector_list candidates) timeoutMs t0 (poll_fuel timeoutMs) t0.

Notation "a <||> b" := (or_else a b) (at level 55, right associativity).

Section Extractors.

Context `{Platform}.

(** *** Value normalisers *)

Definition safe (v : value) : string :=
  match v with
  | VStr s => Str.trim s
  | VUndef | VNull => ""
  | _ => ToString v
  end.

Definition norm (s : value) : string :=
  Str.trim (Str.collapse (Str.toLowerCase (safe s))).

Definition rfc822 (d : string) : string :=
  JsDate.toUTCString (if Str.nonempty d then Date_parse d else Some Date_now).

(** The second argument of [new URL]: absent when [undefined]. *)
Definition base_arg (base : value) : option string :=
  match base with VUndef => None | _ => Some (ToString base) end.

Definition toAbs (href base : value) : result value :=
  try_catch
    (let! u := new_URL (ToString href) (base_arg base) in Ok (VStr u))
    (fun _ => Ok (js_or href base)).

Definition pick (obj : value) (pathStr : string) : result value :=
  if negb (Str.nonempty pathStr) then Ok VUndef
  else fold_left
         (fun acc k =>
            let! o := acc in
            if truthy o
            then (let! present := has_in k o in
                  if present then prop o k else Ok VUndef)
            else Ok VUndef)
         (Str.split pathStr ".") (Ok obj).

Definition pickFirstFromSrcset (srcset : string) : string :=
  if negb (Str.nonempty srcset) then ""
  else
    let first := default "" (head (Str.split srcset ",")) in
    Str.take_while (fun c => negb (Str.is_space c)) (Str.trim first).

(** *** The common shape of the extractors

    Every extractor first reads the fields of a candidate (a [draft]),
    then applies the source filter to a text blob made of them, then
    pushes the record. *)

Record draft : Type := {
  d_title : string;   (** the title as extracted, before the town prefix *)
  d_link : value;     (** the link ([href] for dom, the raw link for rss) *)
  d_date : string;    (** the date text *)
  d_venue : string;   (** the venue as extracted (json, jsonld, ics) *)
  d_desc : string;    (** the description as extracted (rss) *)
  d_image : value
}.

(** [link + '#' + norm(title) + '#' + norm(date)] *)
Definition guid_of (link : value) (title date : string) : string :=
  ToString link +:+ "#" +:+ norm (VStr title) +:+ "#" +:+ norm (VStr date).

(** *** JSON API extractor *)

Definition json_fields (cfg : config) (e : value) : result draft :=
  let m := cfg_map cfg in
  let api := VStr (cfg_api cfg) in
  let! t := (if Str.nonempty (m_title m) then pick e (m_title m)
             else prop e "title" <||> prop e "name") in
  let title := safe t in
  let! l := (if Str.nonempty (m_link m) then pick e (m_link m)
             else prop e "url" <||> prop e "link") in
  let! link := toAbs (js_or (VStr (safe l)) api) api in
  let! d := (if Str.nonempty (m_date m) then pick e (m_date m)
             else prop e "start_date" <||> prop e "start" <||> prop e "date" <||> Ok (VStr "")) in
  let date := safe d in
  let! v := (if Str.nonempty (m_venue m) then pick e (m_venue m)
             else Ok (prop_opt (prop_opt e "venue") "name") <||> prop e "venue"
                  <||> Ok (VStr (cfg_venue cfg)) <||> Ok (VStr "")) in
  let venue := safe v in
  let! i := (if Str.nonempty (m_image m)
             then (let! x := pick e (m_image m) in Ok (js_or x (VStr "")))
             else prop e "image" <||> prop e "featured_image"
                  <||> (let! imgs := prop e "images" in
                       if isArray imgs then prop imgs "0" else Ok (VStr ""))) in
  let! img := toAbs (VStr (safe i)) link in
  Ok {| d_title := title; d_link := link; d_date := date; d_venue := venue;
        d_desc := ""; d_image := img |}.

Definition json_blob (d : draft) : string := d_title d +:+ " " +:+ d_venue d.

Definition json_record (cfg : config) (d : draft) : Item.t := {|
  Item.title := town_prefix cfg (d_title d);
  Item.link := d_link d;
  Item.guid := guid_of (d_link d) (d_title d) (d_date d);
  Item.pubDate := rfc822 (d_date d);
  Item.description := join_dash [d_venue d; d_date d];
  Item.image := d_image d;
  Item.town := cfg_town cfg;
  Item.venue := or_default (cfg_venue cfg) (d_venue d) |}.

Definition json_emit (cfg : config) (d : draft) : option Item.t :=
  if negb (_filter cfg (json_blob d)) then None else Some (json_record cfg d).

Definition json_event (cfg : config) (e : value) : result (option Item.t) :=
  let! d := json_fields cfg e in Ok (json_emit cfg d).

(** The list of event-like objects: [cfg.map.path] when it leads to an
    array, else the body when it is an array, else nothing. *)
Definition json_list (cfg : config) (data : value) : result (list value) :=
  let! p := pick data (m_path (cfg_map cfg)) in
  if isArray p
  then (let! p' := pick data (m_path (cfg_map cfg)) in Ok (elements p'))
  else Ok (if isArray data then elements data else []).

Definition scrapeJSON (cfg : config) (res : response value) : result (list Item.t) :=
  if negb (ok res) then Throw (HttpError (status res))
  else
    let! list := json_list cfg (body res) in
    collect (json_event cfg) list.

(** The earlier revision: no [map], the [events] member of the body is
    tried first, and there is neither filter nor image. *)
Definition json_event_v1 (cfg : config) (e : value) : result Item1.t :=
  let api := VStr (cfg_api cfg) in
  let! t := prop e "title" <||> prop e "name" in
  let title := safe t in
  let! l := prop e "url" <||> prop e "link" in
  let! link := toAbs (js_or (VStr (safe l)) api) api in
  let! d := prop e "start_date" <||> prop e "start" <||> prop e "date" <||> Ok (VStr "") in
  let date := safe d in
  let! v := Ok (prop_opt (prop_opt e "venue") "name") <||> prop e "venue"
            <||> Ok (VStr (cfg_venue cfg)) <||> Ok (VStr "") in
  let venue := safe v in
  Ok {|
    Item1.title := town_prefix cfg title;
    Item1.link := link;
    Item1.guid := guid_of link title date;
    Item1.pubDate := rfc822 date;
    Item1.description := join_dash [venue; date] |}.

Definition scrapeJSON_v1 (cfg : config) (res : response value) : result (list Item1.t) :=
  if negb (ok res) then Throw (HttpError (status res))
  else
    let data := body res in
    let list := if isArray (prop_opt data "events") then elements (prop_opt data "events")
                else if isArray data then elements data else [] in
    collect (fun e => let! r := json_event_v1 cfg e in Ok (Some r)) list.

(** *** ICS calendar extractor *)

(** Group 1 of the match of the block against the regular expression made
    of [k], a colon and a greedy group of any characters but line
    terminators: the rest of the line after the leftmost occurrence of
    [k:] in the block.  ([k] is one of the four literal keys, free of
    regular-expression operators.) *)
Definition match_key (block k : string) : option string :=
  match Str.after_first block (k +:+ ":") with
  | Some rest => Some (Str.take_while (fun c => negb (Str.is_eol c)) rest)
  | None => None
  end.

(** [get] of [scrapeICS] *)
Definition get (block k : string) : string :=
  Str.trim (default "" (match_key block k)).

Record vevent : Type := {
  ev_summary : string;
  ev_url : string;
  ev_dtstart : string;
  ev_venue : string
}.

Definition ics_block (cfg : config) (block : string) : vevent :=
  {| ev_summary := get block "SUMMARY";
     ev_url := or_default (get block "URL") (cfg_ics cfg);
     ev_dtstart := or_default (get block "DTSTART") "";
     ev_venue := or_default (or_default (get block "LOCATION") (cfg_venue cfg)) "" |}.

Definition ics_blocks (text : string) : list string :=
  tail (Str.split text "BEGIN:VEVENT").

Definition ics_fields (cfg : config) (ev : vevent) : result draft :=
  let title := safe (VStr (ev_summary ev)) in
  let! link := toAbs (VStr (or_default (ev_url ev) (cfg_ics cfg))) (VStr (cfg_ics cfg)) in
  let date := safe (VStr (ev_dtstart ev)) in
  Ok {| d_title := title; d_link := link; d_date := date; d_venue := ev_venue ev;
        d_desc := join_dash [or_default (or_default (cfg_venue cfg) (ev_venue ev)) ""; date];
        d_image := VStr "" |}.

Definition ics_blob (d : draft) : string := d_title d +:+ " " +:+ d_desc d.

Definition ics_record (cfg : config) (d : draft) : Item.t := {|
  Item.title := town_prefix cfg (d_title d);
  Item.link := d_link d;
  Item.guid := guid_of (d_link d) (d_title d) (d_date d);
  Item.pubDate := rfc822 (d_date d);
  Item.description := d_desc d;
  Item.image := VStr "";
  Item.town := cfg_town cfg;
  Item.venue := cfg_venue cfg |}.

Definition ics_emit (cfg : config) (d : draft) : option Item.t :=
  if negb (_filter cfg (ics_blob d)) then None else Some (ics_record cfg d).

Definition ics_event (cfg : config) (ev : vevent) : result (option Item.t) :=
  let! d := ics_fields cfg ev in Ok (ics_emit cfg d).

Definition scrapeICS (cfg : config) (res : response string) : result (list Item.t) :=
  if negb (ok res) then Throw (HttpError (status res))
  else collect (ics_event cfg) (List.map (ics_block cfg) (ics_blocks (body res))).

(** *** Structured-data (JSON-LD) extractor *)

(** [node.event.forEach(e => ...)]: the events pushed, and whether a
    member threw. *)
Fixpoint ld_event_members (es : list value) : list value * bool :=
  match es with
  | [] => ([], false)
  | e :: r =>
      match prop e "@type" with
      | Throw _ => ([], true)
      | Ok t =>
          let '(xs, threw) := ld_event_members r in
          ((if str_eq t "Event" then [e] else []) ++ xs, threw)
      end
  end.

(** The events pushed while the nodes of one script are scanned, up to
    the point where the scan throws.  A node that passes [!node] is not
    [undefined] or [null], so its own reads cannot throw. *)
Fixpoint ld_nodes (arr : list value) : list value :=
  match arr with
  | [] => []
  | node :: r =>
      if negb (truthy node) then ld_nodes r
      else
        let self := if str_eq (prop_opt node "@type") "Event" then [node] else [] in
        let ev := prop_opt node "event" in
        if isArray ev then
          let '(xs, threw) := ld_event_members (elements ev) in
          self ++ xs ++ (if threw then [] else ld_nodes r)
        else self ++ ld_nodes r
  end.

(** One script block under its [try { } catch { }]; [parsed] is the
    outcome of [JSON.parse]. *)
Definition ld_script (parsed : result value) : list value :=
  match parsed with
  | Throw _ => []
  | Ok json =>
      if isArray json then ld_nodes (elements json)
      else match prop json "@graph" with
           | Throw _ => []
           | Ok g => ld_nodes (json :: (if isArray g then elements g else []))
           end
  end.

(** [typeof v === 'object'] *)
Definition is_object (v : value) : bool :=
  match v with VNull | VArr _ | VObj _ => true | _ => false end.

(** The polymorphic [image] member: a string, an object with a [url], or
    an array of either. *)
Definition ld_image (ri : value) : value :=
  if is_str ri then ri
  else if truthy ri && is_object ri && truthy (prop_opt ri "url") then prop_opt ri "url"
  else if isArray ri && truthy (prop_opt ri "length") then
    let first := prop_opt ri "0" in
    if is_str first then first else js_or (prop_opt first "url") (VStr "")
  else VStr "".

Definition jsonld_fields (cfg : config) (e : value) : result draft :=
  let src := VStr (cfg_url cfg) in
  let! n := prop e "name" in
  let title := safe n in
  let! u := prop e "url" in
  let! url := toAbs (js_or (VStr (safe u)) src) src in
  let! s := prop e "startDate" <||> prop e "startTime" in
  let start := safe s in
  let venue := safe (js_or (prop_opt (prop_opt e "location") "name") (VStr (cfg_venue cfg))) in
  let! ri := prop e "image" in
  let! img := toAbs (VStr (safe (ld_image ri))) src in
  Ok {| d_title := title; d_link := url; d_date := start; d_venue := venue;
        d_desc := ""; d_image := img |}.

(** The blob, the record and the filter step are those of the JSON API
    extractor, field for field. *)
Definition jsonld_event (cfg : config) (e : value) : result (option Item.t) :=
  let! d := jsonld_fields cfg e in Ok (json_emit cfg d).

(** [scrapeJSONLD] from the script blocks on: [scripts] holds, for each
    block of the page, the outcome of [JSON.parse].  Loading the page and
    reading the blocks come first and can fail; they belong to the page
    and are not part of this function. *)
Definition scrapeJSONLD (cfg : config) (scripts : list (result value)) : result (list Item.t) :=
  collect (jsonld_event cfg) (concat (List.map ld_script scripts)).

(** *** RSS/Atom extractor *)

(** [e.link.find(l => l['@_href'])] *)
Fixpoint find_href (ls : list value) : result value :=
  match ls with
  | [] => Ok VUndef
  | l :: r =>
      let! h := prop l "@_href" in
      if truthy h then Ok l else find_href r
  end.

(** The reads of the loop over the entries.  The first one is [e.title],
    which throws exactly when the entry is [undefined] or [null]; past
    that point the reads of [e] cannot throw and are written [g]. *)
Definition rss_fields (cfg : config) (e : value) : result draft :=
  let src := VStr (cfg_rss cfg) in
  let g := prop_opt e in
  let text k := js_or (prop_opt (g k) "#text") (g k) in
  let! _ := prop e "title" in
  let title := safe (js_or (text "title") (js_or (g "media:title") (VStr ""))) in
  let! link :=
    Ok (prop_opt (g "link") "@_href")
    <||> (if isArray (g "link")
          then (let! f := find_href (elements (g "link")) in
                Ok (js_or (prop_opt f "@_href") (prop_opt (g "link") "0")))
          else Ok (g "link"))
    <||> Ok (g "guid") <||> Ok src in
  let desc := safe (js_or (text "content:encoded")
                      (js_or (text "description") (js_or (text "summary") (VStr "")))) in
  let pub := safe (js_or (g "pubDate") (js_or (g "updated") (js_or (g "published")
                     (VStr (JsDate.toUTCString (Some Date_now)))))) in
  let mc := g "media:content" in
  let enc := g "enclosure" in
  let img :=
    js_or (prop_opt mc "@_url")
      (js_or (if isArray mc then prop_opt (prop_opt mc "0") "@_url" else VStr "")
         (js_or (if truthy enc && truthy (prop_opt enc "@_type")
                    && Str.startsWith (ToString (prop_opt enc "@_type")) "image/"
                 then prop_opt enc "@_url"
                 else js_or (prop_opt enc "@_url") (VStr ""))
                (let html := ToString (js_or (text "content:encoded")
                                         (js_or (VStr desc) (VStr ""))) in
                 VStr (default "" (Rx.img_src html))))) in
  let! imageAbs := (if truthy img then toAbs img link else Ok (VStr "")) in
  Ok {| d_title := title; d_link := link; d_date := pub; d_venue := "";
        d_desc := join_dash [cfg_venue cfg; desc]; d_image := imageAbs |}.

(** [`${title} ${prettyDesc}`] *)
Definition rss_blob (d : draft) : string := d_title d +:+ " " +:+ d_desc d.

(** The record pushed for an entry; [abs] is [toAbs(link, cfg.rss)]. *)
Definition rss_record (cfg : config) (d : draft) (abs : value) : Item.t := {|
  Item.title := town_prefix cfg (d_title d);
  Item.link := abs;
  Item.guid := ToString (js_or (d_link d) (VStr (cfg_rss cfg))) +:+ "#" +:+ norm (VStr (d_title d));
  Item.pubDate := rfc822 (d_date d);
  Item.description := d_desc d;
  Item.image := d_image d;
  Item.town := cfg_town cfg;
  Item.venue := cfg_venue cfg |}.

Definition rss_emit (cfg : config) (d : draft) : result (option Item.t) :=
  if negb (_filter cfg (rss_blob d)) then Ok None
  else
    let! abs := toAbs (d_link d) (VStr (cfg_rss cfg)) in
    Ok (Some (rss_record cfg d abs)).

(** The value of [toAbs(link, cfg.rss)], a call that never throws. *)
Definition rss_link (cfg : config) (d : draft) : value :=
  match toAbs (d_link d) (VStr (cfg_rss cfg)) with
  | Ok v => v
  | Throw _ => d_link d
  end.

Definition rss_entry (cfg : config) (e : value) : result (option Item.t) :=
  let! d := rss_fields cfg e in rss_emit cfg d.

(** [parsed] is what the XML parser returns for the body. *)
Definition rss_entries (parsed : value) : result (list value) :=
  let! r := prop parsed "rss" in
  let! channel := Ok (prop_opt r "channel") <||> prop parsed "feed" <||> Ok (VObj []) in
  let! entries := prop channel "item" <||> prop channel "entry" <||> Ok (VArr []) in
  Ok (if isArray entries then elements entries else [entries]).

Definition scrapeRSS (cfg : config) (res : response value) : result (list Item.t) :=
  if negb (ok res) then Throw (HttpError (status res))
  else
    let! arr := rss_entries (body res) in
    collect (rss_entry cfg) arr.

(** *** DOM extractor *)

Definition innerTextSafe (h : option handle) : string :=
  match h with
  | None => ""
  | Some h =>
      match try_catch (let! s := innerText h in Ok (safe (VStr s))) (fun _ => Ok "") with
      | Ok s => s
      | Throw _ => ""
      end
  end.

(** [cfg.title.split(',').map(s => s.trim())] and its siblings *)
Definition field_selectors (candidates : string) : list string :=
  List.map Str.trim (Str.split candidates ",").

Fixpoint dom_title (el : element) (sels : list string) : result string :=
  match sels with
  | [] => Ok ""
  | tSel :: r =>
      let! tEl := el_query el tSel in
      let title := innerTextSafe tEl in
      if Str.nonempty title then Ok title else dom_title el r
  end.

Fixpoint dom_href (el : element) (sels : list string) : result string :=
  match sels with
  | [] => Ok ""
  | aSel :: r =>
      let! aEl := el_query el aSel in
      match aEl with
      | Some h =>
          let href := safe (getAttribute h "href") in
          if Str.nonempty href then Ok href else dom_href el r
      | None => dom_href el r
      end
  end.

Fixpoint dom_date (el : element) (sels : list string) : result string :=
  match sels with
  | [] => Ok ""
  | dSel :: r =>
      let! dEl := el_query el dSel in
      match dEl with
      | Some h =>
          let date := match innerText h with
                      | Ok s => safe (VStr s)
                      | Throw _ => ""
                      end in
          if Str.nonempty date then Ok date else dom_date el r
      | None => dom_date el r
      end
  end.

(** The image of one matched element: [src], then the first URL of
    [srcset], then the inline background image, then the lazy-loading
    attributes. *)
Definition dom_image_of (cfg : config) (h : handle) : result value :=
  let a name := safe (getAttribute h name) in
  let srcset := a "srcset" in
  let styleAttr := a "style" in
  let src0 := a "src" in
  let src1 := if negb (Str.nonempty src0) && Str.nonempty srcset
              then pickFirstFromSrcset srcset else src0 in
  let src2 := if negb (Str.nonempty src1) && Str.nonempty styleAttr
              then default src1 (Rx.background_image styleAttr) else src1 in
  toAbs (VStr (or_default src2 (or_default (a "data-src") (or_default (a "data-original")
                 (or_default (a "data-lazy") (or_default (a "data-image") ""))))))
        (VStr (cfg_url cfg)).

Fixpoint dom_image (cfg : config) (el : element) (sels : list string) : result value :=
  match sels with
  | [] => Ok (VStr "")
  | iSel :: r =>
      let! iEl := el_query el iSel in
      match iEl with
      | None => dom_image cfg el r
      | Some h =>
          let! imageUrl := dom_image_of cfg h in
          if truthy imageUrl then Ok imageUrl else dom_image cfg el r
      end
  end.

(** [if (href && href.startsWith('/')) href = toAbs(href, cfg.url)] *)
Definition dom_resolve (cfg : config) (href : string) : result value :=
  if Str.nonempty href && Str.startsWith href "/"
  then toAbs (VStr href) (VStr (cfg_url cfg))
  else Ok (VStr href).

(** The four loops over the selector lists of one card; [d_link] is
    [href] after the resolution step. *)
Definition dom_fields (cfg : config) (el : element) : result draft :=
  let! title := dom_title el (field_selectors (cfg_title cfg)) in
  let! href0 := dom_href el (field_selectors (cfg_link cfg)) in
  let! href := dom_resolve cfg href0 in
  let! date := dom_date el (field_selectors (cfg_date cfg)) in
  let! imageUrl := dom_image cfg el (field_selectors (cfg_image cfg)) in
  Ok {| d_title := title; d_link := href; d_date := date; d_venue := "";
        d_desc := ""; d_image := imageUrl |}.

(** [if (!title && !href) continue] *)
Definition dom_discard (d : draft) : bool :=
  negb (Str.nonempty (d_title d)) && negb (truthy (d_link d)).

(** [`${title} ${date} ${cfg.venue || ''}`] *)
Definition dom_blob (cfg : config) (d : draft) : string :=
  d_title d +:+ " " +:+ d_date d +:+ " " +:+ cfg_venue cfg.

Definition dom_record (cfg : config) (detail : string -> string) (d : draft) : Item.t :=
  let href := d_link d in
  let imageUrl := if negb (truthy (d_image d)) && truthy href
                  then VStr (detail (ToString href)) else d_image d in
  let link := js_or href (VStr (cfg_url cfg)) in
  {| Item.title := town_prefix cfg (d_title d);
     Item.link := link;
     Item.guid := guid_of link (d_title d) (d_date d);
     Item.pubDate := rfc822 (d_date d);
     Item.description := join_dash [cfg_venue cfg; d_date d];
     Item.image := js_or imageUrl (VStr "");
     Item.town := cfg_town cfg;
     Item.venue := cfg_venue cfg |}.

Definition dom_emit (cfg : config) (detail : string -> string) (d : draft) : option Item.t :=
  if dom_discard d then None
  else if negb (_filter cfg (dom_blob cfg d)) then None
  else Some (dom_record cfg detail d).

(** The body of the loop over the cards. *)
Definition dom_item (cfg : config) (detail : string -> string) (el : element)
    : result (option Item.t) :=
  let! d := dom_fields cfg el in Ok (dom_emit cfg detail d).

(** [cfg.max || 220] *)
Definition dom_cap (cfg : config) : Z :=
  if (cfg_max cfg =? 0)%Z then 220%Z else cfg_max cfg.

(** [Math.min(cards.length, cfg.max || 220)] *)
Definition dom_take (cfg : config) (n : nat) : Z :=
  Z.min (Z.of_nat n) (dom_cap cfg).

(** The cards the loop visits: [cards[i]] for [i < take]. *)
Definition dom_visited (cfg : config) (els : list element) : list element :=
  firstn (Z.to_nat (dom_take cfg (length els))) els.

Definition dom_items (cfg : config) (detail : string -> string) (els : list element)
    : result (list Item.t) :=
  collect (dom_item cfg detail) (dom_visited cfg els).

(** [scrapeDOM] from the anti-bot check on.  The reload that follows an
    empty result only decides whether a debug snapshot is saved: the
    result is empty either way. *)
Definition scrapeDOM (pg : page) (cfg : config) : result (list Item.t) :=
  if blocked pg then Ok []
  else
    let! early := (if cfg_jsonldFirst cfg then scrapeJSONLD cfg (ld_scripts pg) else Ok []) in
    match early with
    | _ :: _ => Ok early
    | [] =>
        match firstExistingSelector (live pg) (cfg_item cfg) 8000 (arrival pg) with
        | Some (Some itemSel, _) => dom_items cfg (fetchDetailImage pg) (cards pg itemSel)
        | _ => Ok []
        end
    end.

(** *** Merge and de-duplication *)

Definition dedup_key (it : Item.t) : string :=
  norm (VStr (Item.title it)) +:+ "|" +:+ norm (VStr (Item.description it))
  +:+ "|" +:+ norm (Item.link it).

(** The loop over [items] with its [seen] set. *)
Fixpoint dedup_from (seen : gset string) (items : list Item.t) : list Item.t :=
  match items with
  | [] => []
  | it :: rest =>
      let k := dedup_key it in
      if decide (k ∈ seen) then dedup_from seen rest
      else it :: dedup_from ({[k]} ∪ seen) rest
  end.

Definition dedup : list Item.t -> list Item.t := dedup_from ∅.

(** What was fetched for a source, by mode. *)
Inductive fetched : Type :=
| FPage (pg : page)
| FScripts (scripts : list (result value))
| FJson (res : response value)
| FText (res : response string)
| FXml (res : response value).

(** The dispatch on [cfg.mode]; an unknown mode contributes nothing. *)
Definition scrape (cfg : config) (inp : fetched) : result (list Item.t) :=
  match cfg_mode cfg, inp with
  | mode_dom, FPage pg => scrapeDOM pg cfg
  | mode_jsonld, FScripts scripts => scrapeJSONLD cfg scripts
  | mode_json, FJson res => scrapeJSON cfg res
  | mode_ics, FText res => scrapeICS cfg res
  | mode_rss, FXml res => scrapeRSS cfg res
  | _, _ => Ok []
  end.

(** The items collected over the sources, in configuration order; a
    source that throws contributes nothing. *)
Definition collect_items (sites : list (config * fetched)) : list Item.t :=
  concat (List.map (fun '(rawCfg, inp) =>
                      match scrape (applyDefaults rawCfg) inp with
                      | Ok part => part
                      | Throw _ => []
                      end) sites).

(** The records handed to the feed builder. *)
Definition feed_items (sites : list (config * fetched)) : list Item.t :=
  firstn 500 (dedup (collect_items sites)).

End Extractors.

(** ** Sources and inputs used in the scenarios *)

Definition source (m : mode) (loc town venue : string) (max : Z)
    (mp : map_cfg) (f : option filters_cfg) : config := {|
  cfg_key := "src";
  cfg_mode := m;
  cfg_url := loc; cfg_api := loc; cfg_ics := loc; cfg_rss := loc;
  cfg_item := ".event"; cfg_title := "h2, .title"; cfg_link := "a";
  cfg_date := "time"; cfg_image := "img";
  cfg_town := town; cfg_venue := venue;
  cfg_waitMs := None; cfg_max := max;
  cfg_map := mp; cfg_filters := f; cfg_jsonldFirst := false
|}.

Definition fetched_ok {A : Type} (b : A) : response A :=
  {| ok := true; status := 200; body := b |}.

(** The JSON scenario: one event under [events]. *)
Definition jazz_event : value :=
  VObj [("name", VStr "Jazz Night"); ("url", VStr "/e/1");
        ("start_date", VStr "2024-05-01"); ("venue", VObj [("name", VStr "The Hall")])].

Definition jazz_body : value := VObj [("events", VArr [jazz_event])].

Definition jazz_api : string := "https://api.example/v1/events".

(** No [map] at all. *)
Definition jazz_source : config := source mode_json jazz_api "Roswell" "" 0 no_map None.

(** [map: { path: "events" }], no field override. *)
Definition events_path : map_cfg := {|
  m_path := "events"; m_title := ""; m_link := ""; m_date := ""; m_venue := ""; m_image := ""
|}.

Definition jazz_source_path : config :=
  source mode_json jazz_api "Roswell" "" 0 events_path None.

Definition jazz_record : Item.t := {|
  Item.title := "[Roswell] Jazz Night";
  Item.link := VStr "https://api.example/e/1";
  Item.guid := "https://api.example/e/1#jazz night#2024-05-01";
  Item.pubDate := "Wed, 01 May 2024 00:00:00 GMT";
  Item.description := "The Hall — 2024-05-01";
  Item.image := VStr "https://api.example/e/1";
  Item.town := "Roswell";
  Item.venue := "The Hall"
|}.

Definition jazz_record_v1 : Item1.t := {|
  Item1.title := "[Roswell] Jazz Night";
  Item1.link := VStr "https://api.example/e/1";
  Item1.guid := "https://api.example/e/1#jazz night#2024-05-01";
  Item1.pubDate := "Wed, 01 May 2024 00:00:00 GMT";
  Item1.description := "The Hall — 2024-05-01"
|}.



Definition plain_json_source : config := source mode_json jazz_api "" "" 0 no_map None.

(** An RSS feed with one item, with and without a publication date. *)
Definition feed_url : string := "https://x.example/feed.xml".

Definition rss_source : config := source mode_rss feed_url "" "" 0 no_map None.

Definition rss_feed (item : value) : value :=
  VObj [("rss", VObj [("channel", VObj [("title", VStr "Events"); ("item", item)])])].

Definition dated_item : value :=
  VObj [("title", VStr "Jazz Night"); ("link", VStr "https://x.example/e/1");
        ("pubDate", VStr "2024-05-01")].


(** ** Vocabulary of the statements *)

(** [w] is a substring of [t]. *)
Definition occurs (w t : string) : Prop :=
  exists pre post, t = pre +:+ w +:+ post.










(** A listing page with cards. *)
Definition list_url : string := "https://x.example/list".

Definition list_source (max : Z) : config :=
  source mode_dom list_url "" "" max no_map None.

Definition text_node (t : string) : handle :=
  {| innerText := Ok t; attributes := [] |}.

Definition anchor (href : string) : handle :=
  {| innerText := Ok "Details"; attributes := [("href", href)] |}.

(** A card with a title, a link and a date. *)
Definition jazz_card : element :=
  [("h2", QFound (text_node "Jazz Night"));
   ("a", QFound (anchor "/events/42"));
   ("time", QFound (text_node "2024-05-01"))].

(** A card in which no selector matches: neither title nor link. *)
Definition empty_card : element := [].


Definition no_detail : string -> string := fun _ => "".

Definition jazz_card_record : Item.t := {|
  Item.title := "Jazz Night";
  Item.link := VStr "https://x.example/events/42";
  Item.guid := "https://x.example/events/42#jazz night#2024-05-01";
  Item.pubDate := "Wed, 01 May 2024 00:00:00 GMT";
  Item.description := "2024-05-01";
  Item.image := VStr "";
  Item.town := "";
  Item.venue := ""
|}.

(** The page on which the cards [els] match the selector [.event]. *)
Definition listing (els : list element) : page := {|
  blocked := false;
  ld_scripts := [];
  live := {| count := fun _ sel =>
                        Ok (if String.eqb sel ".event" then Z.of_nat (length els) else 0%Z);
             count_cost := fun _ _ => 5%Z;
             sleep_lag := fun _ => 0%Z |};
  arrival := 0;
  cards := fun sel => if String.eqb sel ".event" then els else [];
  fetchDetailImage := no_detail
|}.

(** The same source with [jsonldFirst] set. *)
Definition jsonld_first (cfg : config) : config := {|
  cfg_key := cfg_key cfg; cfg_mode := cfg_mode cfg;
  cfg_url := cfg_url cfg; cfg_api := cfg_api cfg; cfg_ics := cfg_ics cfg;
  cfg_rss := cfg_rss cfg;
  cfg_item := cfg_item cfg; cfg_title := cfg_title cfg; cfg_link := cfg_link cfg;
  cfg_date := cfg_date cfg; cfg_image := cfg_image cfg;
  cfg_town := cfg_town cfg; cfg_venue := cfg_venue cfg;
  cfg_waitMs := cfg_waitMs cfg; cfg_max := cfg_max cfg;
  cfg_map := cfg_map cfg; cfg_filters := cfg_filters cfg; cfg_jsonldFirst := true
|}.

Definition ld_event (name url : string) : value :=
  VObj [("@type", VStr "Event"); ("name", VStr name); ("url", VStr url)].

(** A listing page with one card and three events in its structured data. *)
Definition ld_listing : page := {|
  blocked := false;
  ld_scripts := [Ok (VArr [ld_event "One" "/e/1"; ld_event "Two" "/e/2";
                           ld_event "Three" "/e/3"])];
  live := live (listing [jazz_card]);
  arrival := 0;
  cards := cards (listing [jazz_card]);
  fetchDetailImage := no_detail
|}.

(** The ICS scenario: a calendar with one event that has a summary and a
    start, and neither URL nor location. *)
Definition cal_url : string := "https://x.example/cal.ics".

Definition ics_source : config := source mode_ics cal_url "" "" 0 no_map None.

Definition nl : string := String "010" "".

Definition trivia_body : string :=
  "BEGIN:VCALENDAR" +:+ nl +:+ "VERSION:2.0" +:+ nl +:+
  "BEGIN:VEVENT" +:+ nl +:+ "SUMMARY:Trivia" +:+ nl +:+
  "DTSTART:20240601T190000" +:+ nl +:+ "END:VEVENT" +:+ nl +:+
  "END:VCALENDAR" +:+ nl.

(** An event block whose description mentions [URL:] before the URL line. *)
Definition tickets_block : string :=
  nl +:+ "SUMMARY:Gala" +:+ nl +:+ "DESCRIPTION:Tickets URL:soon" +:+ nl +:+
  "URL:https://real.example/gala" +:+ nl +:+ "END:VEVENT" +:+ nl.

Definition tickets_body : string :=
  "BEGIN:VCALENDAR" +:+ nl +:+ "BEGIN:VEVENT" +:+ tickets_block +:+ "END:VCALENDAR" +:+ nl.

(** The field extraction in the words of the specification: the value,
    after the colon, of the first line that starts with the key; empty when
    there is no such line. *)
Definition get_by_line (block k : string) : string :=
  match List.find (fun l => Str.startsWith l (k +:+ ":")) (Str.split block nl) with
  | Some l => Str.trim (Str.drop (String.length (k +:+ ":")) l)
  | None => ""
  end.

(** No line terminator in [s]. *)
Definition one_line (s : string) : Prop :=
  forallb (fun c => negb (Str.is_eol c)) (list_ascii_of_string s) = true.

(** [s] is empty or starts with a line terminator. *)
Definition at_line_end (s : string) : Prop :=
  match s with
  | "" => True
  | String c _ => Str.is_eol c = true
  end.

(** A page on which one candidate is malformed (its count throws) and the
    cards appear 600 ms after the resolver started. *)
Definition flaky : browser := {|
  count := fun t sel =>
             if String.eqb sel "li:has(" then Throw PageError
             else if String.eqb sel ".event" then Ok (if (600 <=? t)%Z then 3%Z else 0%Z)
             else Ok 0%Z;
  count_cost := fun _ _ => 10%Z;
  sleep_lag := fun _ => 1%Z
|}.

(** A page on which nothing ever matches. *)
Definition barren : browser := {|
  count := fun _ _ => Ok 0%Z;
  count_cost := fun _ _ => 10%Z;
  sleep_lag := fun _ => 1%Z
|}.

(** The page does not change while the resolver runs: whether a selector
    matches does not depend on the time it is asked. *)
Definition static (b : browser) : Prop :=
  forall t t' sel, matches b t sel = matches b t' sel.

(** No count ever throws: every selector is one the page understands. *)
Definition well_formed_selectors (b : browser) : Prop :=
  forall t sel e, count b t sel <> Throw e.

(** A page on which nothing matches, with the cards [els] behind a selector
    that is never found. *)
Definition barren_page (els : list element) : page := {|
  blocked := false;
  ld_scripts := [];
  live := barren;
  arrival := 0;
  cards := fun _ => els;
  fetchDetailImage := no_detail
|}.


(** What one candidate selector yields for the title, the link and the
    date of a card: the body of one round of the loops of [scrapeDOM]. *)
Definition title_at (el : element) (sel : string) : result string :=
  let! tEl := el_query el sel in Ok (innerTextSafe tEl).

Definition href_at (el : element) (sel : string) : result string :=
  let! aEl := el_query el sel in
  Ok (match aEl with
      | Some h => safe (getAttribute h "href")
      | None => ""
      end).

Definition date_at (el : element) (sel : string) : result string :=
  let! dEl := el_query el sel in
  Ok (match dEl with
      | Some h => match innerText h with
                  | Ok s => safe (VStr s)
                  | Throw _ => ""
                  end
      | None => ""
      end).

(** The first candidate of [sels] that yields a non-empty text yields [t],
    the candidates before it yielding the empty text without throwing. *)
Definition first_nonempty (rd : string -> result string) (sels : list string)
    (t : string) : Prop :=
  exists pre sel post,
    sels = pre ++ sel :: post /\
    Forall (fun s => rd s = Ok "") pre /\
    rd sel = Ok t /\ t <> "".

(** A card with an image element that carries no attribute at all. *)
Definition bare_image_card : element :=
  [("h2", QFound (text_node "Jazz Night"));
   ("a", QFound (anchor "/events/42"));
   ("img", QFound (text_node ""))].


(** The tags a record of the source [cfg] carries whatever the mode: the
    configured town, the town prefix of the title, and the configured
    venue when there is one. *)
Definition source_tags (cfg : config) (it : Item.t) : Prop :=
  Item.town it = cfg_town cfg /\
  (exists t, Item.title it = town_prefix cfg t) /\
  (cfg_venue cfg <> "" -> Item.venue it = cfg_venue cfg).

(** With no configured venue only the JSON extractors fill the venue of a
    record. *)
Definition tagged (cfg : config) (it : Item.t) : Prop :=
  source_tags cfg it /\
  (cfg_venue cfg = "" -> cfg_mode cfg <> mode_json -> cfg_mode cfg <> mode_jsonld ->
   cfg_jsonldFirst cfg = false -> Item.venue it = "").

(** The characters of a URL inside a [srcset] attribute: anything but
    white space and the comma that separates the candidates. *)
Definition srcset_char (c : ascii) : bool :=
  negb (Str.is_space c) && negb (Ascii.eqb c ","%char).

Fixpoint srcset_token (u : string) : Prop :=
  match u with
  | "" => True
  | String c r => srcset_char c = true /\ srcset_token r
  end.

(** The reducer of [pick]: [(o, k) => (o && (k in o) ? o[k] : undefined)]. *)
Definition pick_step (acc : result value) (k : string) : result value :=
  let! o := acc in
  if truthy o
  then (let! present := has_in k o in if present then prop o k else Ok VUndef)
  else Ok VUndef.

(** [v == null] *)
Definition nullish (v : value) : bool :=
  match v with VUndef | VNull => true | _ => false end.

(** An entry every member of which can be read and converted to text: it
    is not [null], when its [link] is a list no element of the list is, and
    it is plain. *)
Definition rss_readable (e : value) : Prop :=
  nullish e = false /\
  Forall (fun l => nullish l = false) (elements (prop_opt e "link")) /\
  plain e = true.

(** ** The feed builder

    [buildRSS] hands one object per record to the XML builder; the object
    is modelled, the serialisation by the builder is not. *)

(** The extensions of [isImg], with both spellings of [jpe?g]. *)
Definition img_exts : list string := ["png"; "jpg"; "jpeg"; "gif"; "webp"; "avif"].

Fixpoint no_eol (s : string) : bool :=
  match s with
  | "" => true
  | String c r => negb (Str.is_eol c) && no_eol r
  end.

(** What may follow the extension up to the end of the text: nothing, or a
    question mark and a query free of line terminators. *)
Definition query_rest (t : string) : bool :=
  match t with
  | "" => true
  | String c r => Ascii.eqb c "?"%char && no_eol r
  end.

(** A match of the regular expression of [isImg] that starts here. *)
Definition isImg_at (s : string) : bool :=
  match s with
  | "" => false
  | String c r =>
      Ascii.eqb c "."%char
      && existsb (fun e => Str.startsWith_ci r e
                           && query_rest (Str.drop (String.length e) r)) img_exts
  end.

Fixpoint isImg_str (s : string) : bool :=
  isImg_at s ||
  match s with
  | "" => false
  | String _ r => isImg_str r
  end.

(** [isImg(u)]: the test runs on the text of [u || '']. *)
Definition isImg (u : value) : bool := isImg_str (ToString (js_or u (VStr ""))).

(** [cdata] *)
Definition cdata (s : string) : string := "<![CDATA[" +:+ s +:+ "]]>".

(** [s.replace(pat, rep)] for a non-empty text [pat]: the leftmost
    occurrence only. *)
Fixpoint replace_first (s pat rep : string) : string :=
  if Str.startsWith s pat then rep +:+ Str.drop (String.length pat) s
  else match s with
       | "" => ""
       | String c r => String c (replace_first r pat rep)
       end.

(** The [@_type] of the enclosure; [split] is not a function of a value
    that is not a string. *)
Definition enclosure_type (image : value) : result string :=
  if isImg image then
    match image with
    | VStr u =>
        Ok ("image/" +:+ replace_first (Str.toLowerCase (List.last (Str.split u ".") ""))
                           "jpg" "jpeg")
    | _ => Throw TypeError
    end
  else Ok "image/jpeg".

Definition dquote : string := String "034"%char "".

(** The [category] members: town, then venue, those that are not empty. *)
Definition categories (i : Item.t) : list value :=
  (if Str.nonempty (Item.town i) then [VObj [("#text", VStr (Item.town i))]] else [])
  ++ (if Str.nonempty (Item.venue i) then [VObj [("#text", VStr (Item.venue i))]] else []).

(** The object built for one record. *)
Definition feed_node (i : Item.t) : result value :=
  let imgTag := if truthy (Item.image i)
                then "<p><img src=" +:+ dquote +:+ ToString (Item.image i) +:+ dquote
                     +:+ " alt=" +:+ dquote +:+ dquote +:+ "/></p>"
                else "" in
  let descHtml := imgTag +:+ Item.description i in
  let node := [("title", VStr (Item.title i));
               ("link", Item.link i);
               ("guid", VStr (Item.guid i));
               ("pubDate", VStr (Item.pubDate i));
               ("description", VObj [("#text", VStr (cdata descHtml))])] in
  let node := match categories i with
              | [] => node
              | cats => node ++ [("category", VArr cats)]
              end in
  if truthy (Item.image i) then
    let! ty := enclosure_type (Item.image i) in
    Ok (VObj (node ++ [("media:content",
                        VObj [("@_url", Item.image i); ("@_medium", VStr "image")]);
                       ("enclosure",
                        VObj [("@_url", Item.image i); ("@_type", VStr ty)])]))
  else Ok (VObj node).

(** The types the enclosure of a recognised image can have. *)
Definition image_types : list string :=
  ["image/png"; "image/jpeg"; "image/gif"; "image/webp"; "image/avif"].

(** The jazz record with a poster whose extension is in capitals. *)
Definition poster_url : string := "https://x.example/img/Poster.JPG".

Definition poster_record : Item.t := {|
  Item.title := "[Roswell] Jazz Night";
  Item.link := VStr "https://api.example/e/1";
  Item.guid := "https://api.example/e/1#jazz night#2024-05-01";
  Item.pubDate := "Wed, 01 May 2024 00:00:00 GMT";
  Item.description := "The Hall — 2024-05-01";
  Item.image := VStr poster_url;
  Item.town := "Roswell";
  Item.venue := "The Hall"
|}.

(** ** Comments in the configuration file *)

(** The first replacement of [stripJsonComments]: every block comment is
    removed, from a slash and star to the nearest star and slash after
    them.  [inside] tells that the scan is in a comment, [skip] counts the
    characters of a delimiter still to pass. *)
Fixpoint strip_blocks (inside : bool) (skip : nat) (s : string) : string :=
  match s with
  | "" => ""
  | String c r =>
      match skip with
      | S k => strip_blocks inside k r
      | O =>
          if inside then
            if Str.startsWith s "*/" then strip_blocks false 1 r else strip_blocks true 0 r
          else if Str.startsWith s "/*" && Str.includes (Str.drop 2 s) "*/"
               then strip_blocks true 1 r
               else String c (strip_blocks false 0 r)
      end
  end.

(** The second replacement: two slashes at the start of a line, or after a
    white-space character, are removed with that character and with the
    rest of the line.  [skip] tells that the scan is in a comment, [bol]
    that the previous character ended a line (or that there is none). *)
Fixpoint strip_slashes (skip bol : bool) (s : string) : string :=
  match s with
  | "" => ""
  | String c r =>
      if skip && negb (Str.is_eol c) then strip_slashes true false r
      else if bol && Str.startsWith s "//" then strip_slashes true false r
      else if Str.is_space c && Str.startsWith r "//" then strip_slashes true false r
      else String c (strip_slashes false (Str.is_eol c) r)
  end.

Definition stripJsonComments (str : string) : string :=
  strip_slashes false true (strip_blocks false 0 str).

(** No two slashes at the start of the text or right after a white-space
    character. *)
Fixpoint slashes_guarded (after_space : bool) (s : string) : bool :=
  match s with
  | "" => true
  | String c r =>
      negb (after_space && Str.startsWith s "//") && slashes_guarded (Str.is_space c) r
  end.

Definition sites_line : string :=
  "{ " +:+ dquote +:+ "url" +:+ dquote +:+ ": " +:+ dquote +:+ "https://x.example/list"
  +:+ dquote +:+ " }".
(** * Properties *)

(** ** Sanity checks of the primitives *)

Example utc_ex : JsDate.toUTCString (Some 1714521600000%Z) = "Wed, 01 May 2024 00:00:00 GMT".
Proof. reflexivity. Qed.
Example utc_ex2 : JsDate.toUTCString (Some (-1)%Z) = "Wed, 31 Dec 1969 23:59:59 GMT".
Proof. vm_compute. reflexivity. Qed.
Example utc_ex3 : JsDate.toUTCString (Some 951782400000%Z) = "Tue, 29 Feb 2000 00:00:00 GMT".
Proof. vm_compute. reflexivity. Qed.
Example iso_ex : JsDate.parse_iso_date "2024-05-01" = Some 1714521600000%Z.
Proof. vm_compute. reflexivity. Qed.
Example idx_ex : index_of_key "12" = Some 12%nat /\ index_of_key "012" = None /\ index_of_key "-1" = None /\ index_of_key "" = None.
Proof. vm_compute. auto. Qed.
Example ts_ex : ToString (VArr [VNum 1; VNull; VStr "a"; VArr [VNum (-2); VBool true]]) = "1,,a,-2,true".
Proof. vm_compute. reflexivity. Qed.

Example url_ex1 : URL.href "/events/42" (Some "https://x.example/list") = Ok "https://x.example/events/42".
Proof. vm_compute. reflexivity. Qed.
Example url_ex2 : URL.href "../a/./b?x=1#f" (Some "https://x.example/p/q/r") = Ok "https://x.example/p/a/b?x=1#f".
Proof. vm_compute. reflexivity. Qed.
Example url_ex3 : URL.href "" (Some "https://x.example") = Ok "https://x.example/".
Proof. vm_compute. reflexivity. Qed.
Example url_ex4 : URL.href "foo" (Some "bar") = Throw TypeError.
Proof. vm_compute. reflexivity. Qed.
Example url_ex5 : URL.href "//cdn.example/i.png" (Some "https://x.example/p/q?z#y") = Ok "https://cdn.example/i.png".
Proof. vm_compute. reflexivity. Qed.
Example url_ex6 : URL.href "https://x.example/cal.ics" (Some "https://x.example/cal.ics") = Ok "https://x.example/cal.ics".
Proof. vm_compute. reflexivity. Qed.
Example url_ex7 : URL.href "?p=2" (Some "https://x.example/a/b?p=1#t") = Ok "https://x.example/a/b?p=2".
Proof. vm_compute. reflexivity. Qed.
Example url_ex8 : URL.href "c" (Some "https://x.example/a/b") = Ok "https://x.example/a/c".
Proof. vm_compute. reflexivity. Qed.
Example url_ex9 : URL.href "c" (Some "https://x.example") = Ok "https://x.example/c".
Proof. vm_compute. reflexivity. Qed.
Example utc_roundtrip_ex :
  JsDate.parse (JsDate.toUTCString (Some 1714564800123%Z)) = Some 1714564800000%Z.
Proof. vm_compute. reflexivity. Qed.

Example truthy_ex :
  List.map truthy [VUndef; VNull; VBool false; VNum 0; VStr ""; VStr "0"; VArr []; VObj []]
  = [false; false; false; false; false; true; true; true].
Proof. reflexivity. Qed.

Example safe_ex :
  List.map safe [VStr "  x "; VNull; VUndef; VNum 5; VBool true; VArr [VStr "a"; VNum 1]]
  = ["x"; ""; ""; "5"; "true"; "a,1"].
Proof. vm_compute. reflexivity. Qed.

Example pick_ex :
  let obj := VObj [("a", VObj [("b", VArr [VNum 1; VNum 2])]); ("s", VStr "x")] in
  pick obj "a.b.1" = Ok (VNum 2) /\
  pick obj "a.zz.c" = Ok VUndef /\
  pick obj "s.length" = Throw TypeError /\
  pick obj "" = Ok VUndef.
Proof. vm_compute. auto. Qed.

Example srcset_ex : pickFirstFromSrcset " /a.png 1x, /b.png 2x" = "/a.png".
Proof. vm_compute. reflexivity. Qed.

Example img_src_ex :
  Rx.img_src "<p><IMG data-src='/lazy.png' class='x' src='/a.png' alt=''></p>" = Some "/a.png" /\
  Rx.img_src "<img alt='x'><img src='/b.png'>" = Some "/b.png" /\
  Rx.img_src "<img alt='x'>" = None.
Proof. vm_compute. auto. Qed.

Example background_image_ex :
  Rx.background_image "color:red; Background-Image:  url('/bg.jpg') no-repeat" = Some "/bg.jpg" /\
  Rx.background_image "background-image:url(/bg.jpg)" = Some "/bg.jpg" /\
  Rx.background_image "background-image:url('/bg.jpg)" = None /\
  Rx.background_image "background-image:url(); background-image:url(/bg.jpg)" = Some "/bg.jpg".
Proof. vm_compute. auto. Qed.

(** ** The exception monad *)

Lemma bind_Ok {A B : Type} (m : result A) (k : A -> result B) (b : B) :
  bind m k = Ok b <-> exists a, m = Ok a /\ k a = Ok b.
Proof.
  split.
  - destruct m as [a|e]; simpl; [eauto | discriminate].
  - intros (a & -> & Hk). exact Hk.
Qed.

(** What [collect] returns is, in order, what the body yields for the
    elements. *)
Lemma collect_Ok {A B : Type} (f : A -> result (option B)) (l : list A) (out : list B) :
  collect f l = Ok out <->
  exists os, Forall2 (fun x o => f x = Ok o) l os /\ out = omap id os.
Proof.
  revert out. induction l as [|x l IH]; intros out; simpl.
  - split.
    + intros [= <-]. exists []. split; [constructor | reflexivity].
    + intros (os & Hall & ->). inversion Hall; subst. reflexivity.
  - rewrite bind_Ok. split.
    + intros (o & Hx & Hrest). apply bind_Ok in Hrest as (rs & Hl & [= <-]).
      apply IH in Hl as (os & Hall & ->).
      exists (o :: os). split; [by constructor |]. by destruct o.
    + intros (os & Hall & ->). inversion Hall as [|? o ? os' Hx Hl]; subst.
      exists o. split; [done |]. apply bind_Ok. exists (omap id os'). split.
      * apply IH. eauto.
      * by destruct o.
Qed.

Lemma collect_elem {A B : Type} (f : A -> result (option B)) (l : list A) (out : list B) (b : B) :
  collect f l = Ok out -> b ∈ out -> exists x, x ∈ l /\ f x = Ok (Some b).
Proof.
  intros (os & Hall & ->)%collect_Ok Hin.
  apply list_elem_of_omap in Hin as (o & Ho & Hid). simpl in Hid. subst o.
  apply list_elem_of_lookup in Ho as (i & Hi).
  destruct (Forall2_lookup_r _ _ _ _ _ Hall Hi) as (x & Hx & Hfx).
  exists x. split; [| done]. apply list_elem_of_lookup. eauto.
Qed.

Lemma collect_length {A B : Type} (f : A -> result (option B)) (l : list A) (out : list B) :
  collect f l = Ok out -> length out <= length l.
Proof.
  intros (os & Hall & ->)%collect_Ok.
  rewrite (Forall2_length _ _ _ Hall). clear Hall.
  induction os as [|o os IH]; [done |].
  destruct o; cbn in *; lia.
Qed.

(** ** URL resolution never throws *)

Section ToAbs.

Context `{Platform}.

Lemma toAbs_cases (href base : value) :
  toAbs href base =
  match new_URL (ToString href) (base_arg base) with
  | Ok u => Ok (VStr u)
  | Throw _ => Ok (if truthy href then href else base)
  end.
Proof. unfold toAbs, try_catch, js_or. by destruct (new_URL _ _). Qed.

Lemma toAbs_Ok (href base : value) : exists v, toAbs href base = Ok v.
Proof. rewrite toAbs_cases. destruct (new_URL _ _); eauto. Qed.

End ToAbs.

(** C10.  [toAbs] is total and never throws: when the URL constructor
    succeeds the result is the resolved URL; when it throws the result is
    [href] if [href] is truthy (a non-empty string) and [base] otherwise.
    So the result need not be an absolute URL: on the reference platform
    [toAbs("foo", "bar")] is ["foo"], which has no scheme. *)
Theorem toAbs_total_fallback :
  (forall (P : Platform) (href base : value),
      (exists v, toAbs href base = Ok v) /\
      (forall u, new_URL (ToString href) (base_arg base) = Ok u ->
                 toAbs href base = Ok (VStr u)) /\
      (forall e, new_URL (ToString href) (base_arg base) = Throw e ->
                 toAbs href base = Ok (if truthy href then href else base))) /\
  (@new_URL nodejs "foo" (Some "bar") = Throw TypeError /\
   @toAbs nodejs (VStr "foo") (VStr "bar") = Ok (VStr "foo") /\
   URL.is_absolute "foo" = false /\
   @toAbs nodejs (VStr "") (VStr "bar") = Ok (VStr "bar") /\
   URL.is_absolute "bar" = false).
Proof.
  split.
  - intros P href base. split; [apply toAbs_Ok |]. split.
    + intros u Hu. by rewrite toAbs_cases, Hu.
    + intros e He. by rewrite toAbs_cases, He.
  - vm_compute. auto.
Qed.

(** ** Merge and de-duplication *)

Section Dedup.

Lemma dedup_from_elem (seen : gset string) (L : list Item.t) (x : Item.t) :
  x ∈ dedup_from seen L -> x ∈ L /\ dedup_key x ∉ seen.
Proof.
  revert seen. induction L as [|it rest IH]; intros seen; simpl.
  - by intros ?%elem_of_nil.
  - destruct (decide (dedup_key it ∈ seen)) as [Hin|Hnin].
    + intros Hx. destruct (IH seen Hx) as [Hrest Hseen]. split; [by right | done].
    + intros [->|Hx]%elem_of_cons.
      * split; [by left | done].
      * destruct (IH _ Hx) as [Hrest Hseen]. split; [by right |].
        intros Hin. apply Hseen, elem_of_union. by right.
Qed.

Lemma dedup_from_NoDup (seen : gset string) (L : list Item.t) :
  NoDup (dedup_key <$> dedup_from seen L).
Proof.
  revert seen. induction L as [|it rest IH]; intros seen; simpl.
  - constructor.
  - destruct (decide (dedup_key it ∈ seen)); [apply IH |].
    rewrite fmap_cons. constructor; [| apply IH].
    intros (y & Hk & Hy)%list_elem_of_fmap.
    apply dedup_from_elem in Hy as [_ Hy].
    apply Hy, elem_of_union. left. by apply elem_of_singleton.
Qed.

(** A list without two equal keys and without a key already seen goes
    through the loop unchanged. *)
Lemma dedup_from_fixed (seen : gset string) (L : list Item.t) :
  NoDup (dedup_key <$> L) ->
  (forall x, x ∈ L -> dedup_key x ∉ seen) ->
  dedup_from seen L = L.
Proof.
  revert seen. induction L as [|it rest IH]; intros seen Hnd Hseen; simpl; [done |].
  rewrite fmap_cons in Hnd. apply NoDup_cons in Hnd as [Hit Hnd].
  destruct (decide (dedup_key it ∈ seen)) as [Hin|_].
  - exfalso. apply (Hseen it); [by left | done].
  - f_equal. apply IH; [done |]. intros x Hx.
    assert (dedup_key x <> dedup_key it).
    { intros Heq. apply Hit. rewrite <- Heq. by apply list_elem_of_fmap_2. }
    assert (dedup_key x ∉ seen) by (apply Hseen; by right).
    rewrite elem_of_union, elem_of_singleton. tauto.
Qed.

Lemma dedup_from_length (seen : gset string) (L : list Item.t) :
  length (dedup_from seen L) <= length L.
Proof.
  revert seen. induction L as [|it rest IH]; intros seen; simpl; [lia |].
  destruct (decide _); simpl; [specialize (IH seen) | specialize (IH ({[dedup_key it]} ∪ seen))]; lia.
Qed.

Lemma dedup_from_sublist (seen : gset string) (L : list Item.t) :
  sublist (dedup_from seen L) L.
Proof.
  revert seen. induction L as [|it rest IH]; intros seen; simpl; [constructor |].
  destruct (decide _); [by apply sublist_cons | by apply sublist_skip].
Qed.

(** The record the loop keeps for a key that was not seen before is the
    first record of the input with that key. *)
Lemma dedup_from_find (k : string) (seen : gset string) (L : list Item.t) :
  k ∉ seen ->
  List.find (fun x => String.eqb (dedup_key x) k) (dedup_from seen L)
  = List.find (fun x => String.eqb (dedup_key x) k) L.
Proof.
  revert seen. induction L as [|it rest IH]; intros seen Hk; simpl; [done |].
  destruct (decide (dedup_key it ∈ seen)) as [Hin|Hnin].
  - destruct (String.eqb_spec (dedup_key it) k) as [<-|_]; [done | by apply IH].
  - simpl. destruct (String.eqb_spec (dedup_key it) k) as [|Hne]; [done |].
    apply IH. rewrite elem_of_union, elem_of_singleton. intros [->|?]; tauto.
Qed.

Lemma dedup_key_congr (a b : Item.t) :
  norm (VStr (Item.title a)) = norm (VStr (Item.title b)) ->
  norm (VStr (Item.description a)) = norm (VStr (Item.description b)) ->
  norm (Item.link a) = norm (Item.link b) ->
  dedup_key a = dedup_key b.
Proof. unfold dedup_key. by intros -> -> ->. Qed.

End Dedup.

(** C3.  De-duplication is a set reduction keyed on the normalised title,
    description and link: it is idempotent, it never lengthens the list, it
    keeps the records in their order, two retained records never agree on
    the three normalised fields, and for every key the record retained is
    the first record of the input with that key. *)
Theorem dedup_set_reduction (L : list Item.t) :
  dedup (dedup L) = dedup L /\
  length (dedup L) <= length L /\
  sublist (dedup L) L /\
  (forall i j a b,
      i <> j -> dedup L !! i = Some a -> dedup L !! j = Some b ->
      ~ (norm (VStr (Item.title a)) = norm (VStr (Item.title b)) /\
         norm (VStr (Item.description a)) = norm (VStr (Item.description b)) /\
         norm (Item.link a) = norm (Item.link b))) /\
  (forall k,
      List.find (fun x => String.eqb (dedup_key x) k) (dedup L)
      = List.find (fun x => String.eqb (dedup_key x) k) L) /\
  (forall it,
      dedup_key it = norm (VStr (Item.title it)) +:+ "|" +:+
                     norm (VStr (Item.description it)) +:+ "|" +:+ norm (Item.link it)) /\
  (forall v, norm v = Str.trim (Str.collapse (Str.toLowerCase (safe v)))) /\
  norm (VStr (String "009" " Jazz   NIGHT  ")) = "jazz night".
Proof.
  unfold dedup. split; [| split; [| split; [| split; [| split; [| by repeat split]]]]].
  - apply dedup_from_fixed; [apply dedup_from_NoDup |]. intros x _. apply not_elem_of_empty.
  - apply dedup_from_length.
  - apply dedup_from_sublist.
  - intros i j a b Hij Ha Hb (Ht & Hd & Hl).
    apply Hij.
    apply (NoDup_lookup (dedup_key <$> dedup_from ∅ L) i j (dedup_key a)).
    + apply dedup_from_NoDup.
    + by rewrite list_lookup_fmap, Ha.
    + rewrite list_lookup_fmap, Hb. simpl. f_equal. symmetry. by apply dedup_key_congr.
  - intros k. apply dedup_from_find, not_elem_of_empty.
Qed.

(** Two records that differ in letter case and spacing only share a key:
    the first one is kept. *)
Example dedup_keeps_first :
  dedup [jazz_record; jazz_card_record;
         {| Item.title := "[roswell]   JAZZ night";
            Item.link := VStr "HTTPS://api.example/e/1 ";
            Item.guid := "other";
            Item.pubDate := "other";
            Item.description := "the hall  —  2024-05-01";
            Item.image := VStr "";
            Item.town := "";
            Item.venue := "" |}]
  = [jazz_record; jazz_card_record].
Proof. vm_compute. reflexivity. Qed.

(** ** The walk of [pick] *)

Lemma append_cons (c : ascii) (s t : string) : String c s +:+ t = String c (s +:+ t).
Proof. reflexivity. Qed.

Lemma append_nil (t : string) : "" +:+ t = t.
Proof. reflexivity. Qed.

Lemma split_go_dot_app (p q : string) :
  (let '(a, r) := Str.split_go "." 0 (p +:+ "." +:+ q) in a :: r)
  = (let '(a, r) := Str.split_go "." 0 p in a :: r)
    ++ (let '(b, r) := Str.split_go "." 0 q in b :: r).
Proof.
  induction p as [|c p IH].
  - rewrite append_nil, append_cons, append_nil.
    cbn [Str.split_go Str.startsWith String.length Nat.sub].
    replace (Ascii.eqb "." ".") with true by reflexivity.
    replace (Str.startsWith q "") with true by (by destruct q).
    by destruct (Str.split_go "." 0 q).
  - rewrite append_cons. cbn [Str.split_go Str.startsWith String.length Nat.sub].
    replace (Str.startsWith (p +:+ "." +:+ q) "") with true
      by (by destruct (p +:+ "." +:+ q)).
    replace (Str.startsWith p "") with true by (by destruct p).
    destruct (Str.split_go "." 0 (p +:+ "." +:+ q)) as [a r].
    destruct (Str.split_go "." 0 p) as [a' r'].
    destruct (Str.split_go "." 0 q) as [b s].
    destruct (Ascii.eqb "." c).
    + cbn [app] in *. by rewrite IH.
    + cbn [app] in *. by injection IH as -> ->.
Qed.

Lemma split_dot_app (p q : string) :
  Str.split (p +:+ "." +:+ q) "." = Str.split p "." ++ Str.split q ".".
Proof. unfold Str.split. apply split_go_dot_app. Qed.

Lemma pick_walk (obj : value) (path : string) :
  path <> "" -> pick obj path = fold_left pick_step (Str.split path ".") (Ok obj).
Proof. intros Hne. destruct path; [done | reflexivity]. Qed.

Lemma pick_step_throw (e : exn) (keys : list string) :
  fold_left pick_step keys (Throw e) = Throw e.
Proof. induction keys as [|k keys IH]; [done | exact IH]. Qed.

Lemma pick_step_falsy (v : value) (keys : list string) :
  truthy v = false -> fold_left pick_step keys (Ok v) = Ok (match keys with [] => v | _ => VUndef end).
Proof.
  intros Hv. destruct keys as [|k keys]; [done |].
  cbn [fold_left]. unfold pick_step at 2. cbn [bind]. rewrite Hv.
  clear. induction keys as [|k' keys IH]; [done |]. exact IH.
Qed.

Lemma split_nonempty (s sep : string) : Str.split s sep <> [] \/ s = "".
Proof.
  unfold Str.split. destruct sep as [|a sep'].
  - destruct s; [by right | by left].
  - left. by destruct (Str.split_go (String a sep') 0 s).
Qed.

Lemma pick_primitive (v : value) (q : string) :
  q <> "" -> truthy v = true ->
  match v with VObj _ | VArr _ => False | _ => True end ->
  pick v q = Throw TypeError.
Proof.
  intros Hq Htruthy Hprim. rewrite (pick_walk v q Hq).
  destruct (split_nonempty q ".") as [Hs | Hs]; [| done].
  destruct (Str.split q ".") as [|k keys]; [done |].
  cbn [fold_left]. unfold pick_step at 2. cbn [bind]. rewrite Htruthy.
  destruct v; try done; cbn [has_in bind]; apply pick_step_throw.
Qed.

Lemma pick_through_primitive (obj : value) (p q : string) (v : value) :
  p <> "" -> q <> "" -> pick obj p = Ok v -> truthy v = true ->
  match v with VObj _ | VArr _ => False | _ => True end ->
  pick obj (p +:+ "." +:+ q) = Throw TypeError.
Proof.
  intros Hp Hq Hv Htruthy Hprim.
  assert (Hpq : p +:+ "." +:+ q <> "") by (destruct p; [done | by rewrite append_cons]).
  rewrite (pick_walk obj _ Hpq), split_dot_app, fold_left_app, <- (pick_walk obj p Hp), Hv.
  destruct (split_nonempty q ".") as [Hs | Hs]; [| done].
  destruct (Str.split q ".") as [|k keys]; [done |].
  cbn [fold_left]. unfold pick_step at 2. cbn [bind]. rewrite Htruthy.
  destruct v; try done; cbn [has_in bind]; apply pick_step_throw.
Qed.

(** ** The JSON API extractor *)

Section JsonList.

Context `{Platform}.

Lemma pick_no_path (obj : value) : pick obj "" = Ok VUndef.
Proof. reflexivity. Qed.

Lemma json_list_path (cfg : config) (data : value) (l : list value) :
  pick data (m_path (cfg_map cfg)) = Ok (VArr l) -> json_list cfg data = Ok l.
Proof. intros Hp. unfold json_list. by rewrite Hp. Qed.

Lemma json_list_body (cfg : config) (data v : value) :
  pick data (m_path (cfg_map cfg)) = Ok v -> isArray v = false ->
  json_list cfg data = Ok (if isArray data then elements data else []).
Proof. intros Hp Hv. unfold json_list. rewrite Hp. cbn [bind]. by rewrite Hv. Qed.

Lemma json_list_throw (cfg : config) (data : value) (e : exn) :
  pick data (m_path (cfg_map cfg)) = Throw e -> json_list cfg data = Throw e.
Proof. intros Hp. unfold json_list. by rewrite Hp. Qed.

End JsonList.

(** C1, as stated, fails on the extractor that has [map]: with no [map]
    the body of the scenario, an object, is not a list, and nothing is
    emitted. *)
Lemma jazz_without_map_emits_nothing :
  @scrapeJSON nodejs jazz_source (fetched_ok jazz_body) = Ok [] /\
  ~ (exists r, @scrapeJSON nodejs jazz_source (fetched_ok jazz_body) = Ok [r]).
Proof.
  assert (E : @scrapeJSON nodejs jazz_source (fetched_ok jazz_body) = Ok [])
    by (vm_compute; reflexivity).
  split; [exact E |]. intros [r Hr]. rewrite E in Hr. discriminate.
Qed.

(** C1, amended.  The walk along [map.path] either ends on a value or
    fails.  When it ends on a list, that list is the event list; when it
    ends on anything else (in particular without a path, or at a missing
    member), the event list is the body when the body is a list, else
    empty.  When the walk fails, which it does when it has to look inside a
    truthy string, number or boolean, the extractor fails with it, also
    when the body is a list.  For the body of the scenario and town
    Roswell, a source without [map] emits nothing and a source whose [map]
    only sets [path] to [events] emits exactly the one record, with the
    link resolved against the API URL; so does the earlier revision, which
    has no [map] and looks under [events] itself. *)
Theorem scrapeJSON_list_and_scenario :
  (forall (P : Platform) (cfg : config) (data : value),
      (forall l, pick data (m_path (cfg_map cfg)) = Ok (VArr l) ->
                 json_list cfg data = Ok l) /\
      (forall v, pick data (m_path (cfg_map cfg)) = Ok v -> isArray v = false ->
                 json_list cfg data = Ok (if isArray data then elements data else [])) /\
      (m_path (cfg_map cfg) = "" ->
       json_list cfg data = Ok (if isArray data then elements data else [])) /\
      (forall e, pick data (m_path (cfg_map cfg)) = Throw e ->
                 json_list cfg data = Throw e /\
                 forall res, ok res = true -> body res = data ->
                             scrapeJSON cfg res = Throw e) /\
      ((exists l, pick data (m_path (cfg_map cfg)) = Ok (VArr l)) \/
       (exists v, pick data (m_path (cfg_map cfg)) = Ok v /\ isArray v = false) \/
       (exists e, pick data (m_path (cfg_map cfg)) = Throw e)) /\
      (forall first rest v,
          m_path (cfg_map cfg) = first +:+ "." +:+ rest -> first <> "" -> rest <> "" ->
          pick data first = Ok v -> truthy v = true ->
          match v with VObj _ | VArr _ => False | _ => True end ->
          json_list cfg data = Throw TypeError) /\
      (m_path (cfg_map cfg) <> "" -> truthy data = true ->
       match data with VObj _ | VArr _ => False | _ => True end ->
       json_list cfg data = Throw TypeError) /\
      (forall res, ok res = true ->
                   scrapeJSON cfg res
                   = (let! list := json_list cfg (body res) in collect (json_event cfg) list))) /\
  @scrapeJSON nodejs (source mode_json jazz_api "" "" 0
                        {| m_path := "0.name.first"; m_title := ""; m_link := "";
                           m_date := ""; m_venue := ""; m_image := "" |} None)
              (fetched_ok (VArr [jazz_event])) = Throw TypeError /\
  @scrapeJSON nodejs jazz_source (fetched_ok jazz_body) = Ok [] /\
  @scrapeJSON nodejs jazz_source_path (fetched_ok jazz_body) = Ok [jazz_record] /\
  @new_URL nodejs "/e/1" (Some jazz_api) = Ok "https://api.example/e/1" /\
  @scrapeJSON_v1 nodejs jazz_source (fetched_ok jazz_body) = Ok [jazz_record_v1].
Proof.
  split; [| by vm_compute].
  intros P cfg data.
  split; [apply json_list_path |]. split; [apply json_list_body |].
  split.
  { intros Hpath. apply (json_list_body cfg data VUndef); [| done].
    rewrite Hpath. apply pick_no_path. }
  split.
  { intros e He. split; [by apply json_list_throw |].
    intros res Hok <-. unfold scrapeJSON. rewrite Hok. cbn [negb].
    by rewrite (json_list_throw cfg (body res) e He). }
  split.
  { destruct (pick data (m_path (cfg_map cfg))) as [v|e] eqn:Hp.
    - destruct v; try (right; left; eexists; split; [reflexivity | reflexivity]).
      left. by eexists.
    - right. right. by exists e. }
  split.
  { intros first rest v Hpath Hfirst Hrest Hv Htruthy Hprim.
    apply json_list_throw. rewrite Hpath. by apply (pick_through_primitive data first rest v). }
  split.
  { intros Hpath Htruthy Hprim. by apply json_list_throw, pick_primitive. }
  intros res Hok. unfold scrapeJSON. by rewrite Hok.
Qed.

(** ** What the extractors emit *)

Lemma collect_fields {A D B : Type} (F : A -> result D) (emit : D -> option B)
    (l : list A) (out : list B) :
  collect (fun e => let! d := F e in Ok (emit d)) l = Ok out <->
  exists ds, Forall2 (fun e d => F e = Ok d) l ds /\ out = omap emit ds.
Proof.
  rewrite collect_Ok. split.
  - intros (os & Hall & ->). revert os Hall.
    induction l as [|e l IH]; intros os Hall; inversion Hall as [|? o ? os' Hx Hl]; subst.
    + exists []. split; [constructor | done].
    + apply bind_Ok in Hx as (d & Hd & [= <-]).
      destruct (IH _ Hl) as (ds & Hds & Heq).
      exists (d :: ds). split; [by constructor |].
      cbn. rewrite Heq. by destruct (emit d).
  - intros (ds & Hall & ->). exists (emit <$> ds). split.
    + clear -Hall. induction Hall as [|e d l ds Hd _ IH]; [constructor |].
      rewrite fmap_cons. constructor; [| exact IH]. by rewrite Hd.
    + clear. induction ds as [|d ds IH]; [done |].
      cbn. rewrite IH. by destruct (emit d).
Qed.

Lemma omap_filter {D B : Type} (pass : D -> bool) (mk : D -> B) (emit : D -> option B)
    (ds : list D) :
  (forall d, emit d = if pass d then Some (mk d) else None) ->
  omap emit ds = List.map mk (List.filter pass ds).
Proof.
  intros Hemit. induction ds as [|d ds IH]; [done |].
  cbn. rewrite Hemit, IH. by destruct (pass d).
Qed.

Section Emitted.

Context `{Platform}.

Lemma json_emit_filter (cfg : config) (d : draft) :
  json_emit cfg d = if _filter cfg (json_blob d) then Some (json_record cfg d) else None.
Proof. unfold json_emit. by destruct (_filter _ _). Qed.

Lemma ics_emit_filter (cfg : config) (d : draft) :
  ics_emit cfg d = if _filter cfg (ics_blob d) then Some (ics_record cfg d) else None.
Proof. unfold ics_emit. by destruct (_filter _ _). Qed.

Lemma dom_emit_filter (cfg : config) (detail : string -> string) (d : draft) :
  dom_emit cfg detail d
  = if negb (dom_discard d) && _filter cfg (dom_blob cfg d)
    then Some (dom_record cfg detail d) else None.
Proof. unfold dom_emit. destruct (dom_discard d); [done |]. by destruct (_filter _ _). Qed.

Lemma rss_link_toAbs (cfg : config) (d : draft) :
  toAbs (d_link d) (VStr (cfg_rss cfg)) = Ok (rss_link cfg d).
Proof. unfold rss_link. by destruct (toAbs_Ok (d_link d) (VStr (cfg_rss cfg))) as [v ->]. Qed.

Lemma rss_emit_filter (cfg : config) (d : draft) :
  rss_emit cfg d
  = Ok (if _filter cfg (rss_blob d) then Some (rss_record cfg d (rss_link cfg d)) else None).
Proof.
  unfold rss_emit. destruct (_filter _ _); [| done].
  cbn [negb]. by rewrite rss_link_toAbs.
Qed.

(** The JSON API extractor emits, in order, the records of the events
    whose blob passes the filter. *)
Lemma scrapeJSON_emits (cfg : config) (res : response value) (out : list Item.t) :
  scrapeJSON cfg res = Ok out <->
  ok res = true /\
  exists l ds,
    json_list cfg (body res) = Ok l /\
    Forall2 (fun e d => json_fields cfg e = Ok d) l ds /\
    out = List.map (json_record cfg) (List.filter (fun d => _filter cfg (json_blob d)) ds).
Proof.
  unfold scrapeJSON. destruct (ok res); cbn [negb].
  - rewrite bind_Ok. split.
    + intros (l & Hl & Hc). split; [done |].
      apply collect_fields in Hc as (ds & Hds & ->).
      exists l, ds. split; [done |]. split; [done |].
      apply omap_filter, json_emit_filter.
    + intros (_ & l & ds & Hl & Hds & ->). exists l. split; [done |].
      apply collect_fields. exists ds. split; [done |].
      symmetry. apply omap_filter, json_emit_filter.
  - split; [discriminate | by intros [? _]].
Qed.

Lemma scrapeJSONLD_emits (cfg : config) (scripts : list (result value)) (out : list Item.t) :
  scrapeJSONLD cfg scripts = Ok out <->
  exists ds,
    Forall2 (fun e d => jsonld_fields cfg e = Ok d) (concat (List.map ld_script scripts)) ds /\
    out = List.map (json_record cfg) (List.filter (fun d => _filter cfg (json_blob d)) ds).
Proof.
  unfold scrapeJSONLD. split.
  - intros (ds & Hds & ->)%collect_fields. exists ds. split; [done |].
    apply omap_filter, json_emit_filter.
  - intros (ds & Hds & ->). apply collect_fields. exists ds. split; [done |].
    symmetry. apply omap_filter, json_emit_filter.
Qed.

Lemma scrapeICS_emits (cfg : config) (res : response string) (out : list Item.t) :
  scrapeICS cfg res = Ok out <->
  ok res = true /\
  exists ds,
    Forall2 (fun ev d => ics_fields cfg ev = Ok d)
            (List.map (ics_block cfg) (ics_blocks (body res))) ds /\
    out = List.map (ics_record cfg) (List.filter (fun d => _filter cfg (ics_blob d)) ds).
Proof.
  unfold scrapeICS. destruct (ok res); cbn [negb].
  - split.
    + intros (ds & Hds & ->)%collect_fields. split; [done |]. exists ds. split; [done |].
      apply omap_filter, ics_emit_filter.
    + intros (_ & ds & Hds & ->). apply collect_fields. exists ds. split; [done |].
      symmetry. apply omap_filter, ics_emit_filter.
  - split; [discriminate | by intros [? _]].
Qed.

Lemma rss_collect (cfg : config) (l : list value) (out : list Item.t) :
  collect (rss_entry cfg) l = Ok out <->
  exists ds,
    Forall2 (fun e d => rss_fields cfg e = Ok d) l ds /\
    out = List.map (fun d => rss_record cfg d (rss_link cfg d))
                   (List.filter (fun d => _filter cfg (rss_blob d)) ds).
Proof.
  assert (E : collect (rss_entry cfg) l
              = collect (fun e => let! d := rss_fields cfg e in
                                  Ok (if _filter cfg (rss_blob d)
                                      then Some (rss_record cfg d (rss_link cfg d))
                                      else None)) l).
  { induction l as [|e l IH]; [done |]. cbn [collect]. rewrite IH.
    unfold rss_entry. destruct (rss_fields cfg e) as [d|]; [| done].
    cbn [bind]. by rewrite rss_emit_filter. }
  rewrite E. split.
  - intros (ds & Hds & ->)%collect_fields. exists ds. split; [done |].
    by apply omap_filter.
  - intros (ds & Hds & ->). apply collect_fields. exists ds. split; [done |].
    symmetry. by apply omap_filter.
Qed.

Lemma scrapeRSS_emits (cfg : config) (res : response value) (out : list Item.t) :
  scrapeRSS cfg res = Ok out <->
  ok res = true /\
  exists l ds,
    rss_entries (body res) = Ok l /\
    Forall2 (fun e d => rss_fields cfg e = Ok d) l ds /\
    out = List.map (fun d => rss_record cfg d (rss_link cfg d))
                   (List.filter (fun d => _filter cfg (rss_blob d)) ds).
Proof.
  unfold scrapeRSS. destruct (ok res); cbn [negb].
  - rewrite bind_Ok. split.
    + intros (l & Hl & (ds & Hds & ->)%rss_collect). split; [done |]. by exists l, ds.
    + intros (_ & l & ds & Hl & Hds & ->). exists l. split; [done |].
      apply rss_collect. by exists ds.
  - split; [discriminate | by intros [? _]].
Qed.

(** The DOM loop emits, in order, the records of the visited cards that
    have a title or a link and whose blob passes the filter. *)
Lemma dom_items_emits (cfg : config) (detail : string -> string) (els : list element)
    (out : list Item.t) :
  dom_items cfg detail els = Ok out <->
  exists ds,
    Forall2 (fun el d => dom_fields cfg el = Ok d) (dom_visited cfg els) ds /\
    out = List.map (dom_record cfg detail)
            (List.filter (fun d => negb (dom_discard d) && _filter cfg (dom_blob cfg d)) ds).
Proof.
  unfold dom_items. split.
  - intros (ds & Hds & ->)%collect_fields. exists ds. split; [done |].
    apply omap_filter, dom_emit_filter.
  - intros (ds & Hds & ->). apply collect_fields. exists ds. split; [done |].
    symmetry. apply omap_filter, dom_emit_filter.
Qed.

End Emitted.

Lemma Forall2_map_filter_elem {A D B : Type} (R : A -> D -> Prop) (pass : D -> bool)
    (mk : D -> B) (l : list A) (ds : list D) (r : B) :
  Forall2 R l ds -> r ∈ List.map mk (List.filter pass ds) ->
  exists e d, e ∈ l /\ R e d /\ pass d = true /\ r = mk d.
Proof.
  intros Hall Hr. apply list_elem_of_In, in_map_iff in Hr as (d & <- & Hd).
  apply filter_In in Hd as [Hd Hpass]. apply list_elem_of_In, list_elem_of_lookup in Hd as [i Hi].
  destruct (Forall2_lookup_r _ _ _ _ _ Hall Hi) as (e & He & HR).
  exists e, d. split; [| done]. apply list_elem_of_lookup. eauto.
Qed.

(** ** Publication dates *)







Section PubDate.

Context `{Platform}.


Lemma rfc822_absent : rfc822 "" = JsDate.toUTCString (Some Date_now).
Proof. reflexivity. Qed.


End PubDate.



(** ** Substrings *)

Lemma startsWith_spec (s p : string) :
  Str.startsWith s p = true <-> exists post, s = p +:+ post.
Proof.
  revert s. induction p as [|a p IH]; intros s.
  - destruct s; simpl; split; eauto.
  - destruct s as [|b s]; simpl.
    + split; [discriminate | intros [post Hpost]; discriminate Hpost].
    + destruct (Ascii.eqb_spec a b) as [->|Hne].
      * rewrite IH. split; intros [post Hpost]; exists post.
        -- by rewrite append_cons, Hpost.
        -- rewrite append_cons in Hpost. by injection Hpost.
      * split; [discriminate |]. intros [post Hpost].
        rewrite append_cons in Hpost. injection Hpost as Hab _. congruence.
Qed.

Lemma includes_spec (s w : string) : Str.includes s w = true <-> occurs w s.
Proof.
  unfold occurs. induction s as [|c s IH].
  - cbn [Str.includes]. rewrite orb_false_r, startsWith_spec. split.
    + intros [post Hpost]. by exists "", post.
    + intros ([|? pre] & post & Hpost); [by exists post | discriminate Hpost].
  - cbn [Str.includes]. rewrite orb_true_iff, startsWith_spec, IH. split.
    + intros [[post Hpost]|(pre & post & Hpost)].
      * by exists "", post.
      * exists (String c pre), post. by rewrite append_cons, Hpost.
    + intros ([|c' pre] & post & Hpost).
      * left. by exists post.
      * right. rewrite append_cons in Hpost. injection Hpost as _ Hs. by exists pre, post.
Qed.



(** ** The source filter *)




(** ** Record identifiers *)

(** C5, as stated, fails for the rss extractor: the guid of the record of
    a dated entry ends with the normalised title and holds no date. *)
Lemma rss_guid_has_no_date :
  exists r,
    @scrapeRSS nodejs rss_source (fetched_ok (rss_feed dated_item)) = Ok [r] /\
    Item.link r = VStr "https://x.example/e/1" /\
    Item.pubDate r = @rfc822 nodejs "2024-05-01" /\
    Item.guid r = "https://x.example/e/1#jazz night" /\
    Item.guid r <> guid_of (Item.link r) "Jazz Night" "2024-05-01" /\
    Item.guid r <> ToString (Item.link r) +:+ norm (VStr "Jazz Night") +:+ norm (VStr "2024-05-01") /\
    ~ occurs (norm (VStr "2024-05-01")) (Item.guid r).
Proof.
  eexists. split; [vm_compute; reflexivity |].
  repeat split; try (vm_compute; (reflexivity || discriminate)).
  intros Hocc%includes_spec. vm_compute in Hocc. discriminate Hocc.
Qed.

(** C5, amended.  In the dom, jsonld, json and ics extractors the guid of
    every emitted record is the link of the record, a hash sign, the
    normalised title as extracted (before the town prefix), a hash sign and
    the normalised date text.  In the rss extractor it is the link of the
    entry as read (before resolution; the feed URL when there is none), a
    hash sign and the normalised title, without a date. *)
Theorem guid_composition (P : Platform) (cfg : config) :
  (forall res out r,
      scrapeJSON cfg res = Ok out -> r ∈ out ->
      exists e d, json_fields cfg e = Ok d /\
        Item.title r = town_prefix cfg (d_title d) /\
        Item.pubDate r = rfc822 (d_date d) /\
        Item.guid r = ToString (Item.link r) +:+ "#" +:+ norm (VStr (d_title d))
                      +:+ "#" +:+ norm (VStr (d_date d))) /\
  (forall scripts out r,
      scrapeJSONLD cfg scripts = Ok out -> r ∈ out ->
      exists e d, jsonld_fields cfg e = Ok d /\
        Item.title r = town_prefix cfg (d_title d) /\
        Item.pubDate r = rfc822 (d_date d) /\
        Item.guid r = ToString (Item.link r) +:+ "#" +:+ norm (VStr (d_title d))
                      +:+ "#" +:+ norm (VStr (d_date d))) /\
  (forall res out r,
      scrapeICS cfg res = Ok out -> r ∈ out ->
      exists ev d, ics_fields cfg ev = Ok d /\
        Item.title r = town_prefix cfg (d_title d) /\
        Item.pubDate r = rfc822 (d_date d) /\
        Item.guid r = ToString (Item.link r) +:+ "#" +:+ norm (VStr (d_title d))
                      +:+ "#" +:+ norm (VStr (d_date d))) /\
  (forall detail els out r,
      dom_items cfg detail els = Ok out -> r ∈ out ->
      exists el d, dom_fields cfg el = Ok d /\
        Item.title r = town_prefix cfg (d_title d) /\
        Item.pubDate r = rfc822 (d_date d) /\
        Item.guid r = ToString (Item.link r) +:+ "#" +:+ norm (VStr (d_title d))
                      +:+ "#" +:+ norm (VStr (d_date d))) /\
  (forall res out r,
      scrapeRSS cfg res = Ok out -> r ∈ out ->
      exists e d, rss_fields cfg e = Ok d /\
        Item.title r = town_prefix cfg (d_title d) /\
        Item.pubDate r = rfc822 (d_date d) /\
        toAbs (d_link d) (VStr (cfg_rss cfg)) = Ok (Item.link r) /\
        Item.guid r = ToString (js_or (d_link d) (VStr (cfg_rss cfg)))
                      +:+ "#" +:+ norm (VStr (d_title d))).
Proof.
  split; [| split; [| split; [| split]]].
  - intros res out r (_ & l & ds & _ & Hds & ->)%scrapeJSON_emits Hr.
    destruct (Forall2_map_filter_elem _ _ _ _ _ _ Hds Hr) as (e & d & _ & Hd & _ & ->).
    by exists e, d.
  - intros scripts out r (ds & Hds & ->)%scrapeJSONLD_emits Hr.
    destruct (Forall2_map_filter_elem _ _ _ _ _ _ Hds Hr) as (e & d & _ & Hd & _ & ->).
    by exists e, d.
  - intros res out r (_ & ds & Hds & ->)%scrapeICS_emits Hr.
    destruct (Forall2_map_filter_elem _ _ _ _ _ _ Hds Hr) as (e & d & _ & Hd & _ & ->).
    by exists e, d.
  - intros detail els out r (ds & Hds & ->)%dom_items_emits Hr.
    destruct (Forall2_map_filter_elem _ _ _ _ _ _ Hds Hr) as (e & d & _ & Hd & _ & ->).
    by exists e, d.
  - intros res out r (_ & l & ds & _ & Hds & ->)%scrapeRSS_emits Hr.
    destruct (Forall2_map_filter_elem _ _ _ _ _ _ Hds Hr) as (e & d & _ & Hd & _ & ->).
    exists e, d. repeat split; try done. apply rss_link_toAbs.
Qed.

(** ** The DOM extractor *)

Section Dom.

Context `{Platform}.

Lemma dom_visited_lookup (cfg : config) (els : list element) (i : nat) (el : element) :
  dom_visited cfg els !! i = Some el ->
  els !! i = Some el /\ (Z.of_nat i < dom_cap cfg)%Z.
Proof.
  unfold dom_visited, dom_take. intros Hi.
  apply lookup_take_Some in Hi as [Hel Hlt]. split; [done | lia].
Qed.

Lemma dom_visited_length (cfg : config) (els : list element) :
  (0 <= dom_cap cfg)%Z -> (Z.of_nat (length (dom_visited cfg els)) <= dom_cap cfg)%Z.
Proof. unfold dom_visited, dom_take. rewrite length_take. lia. Qed.




End Dom.

(** C6, as stated, fails: the cap is applied to the cards visited, so a
    card without title and link uses one of the [max] slots.  With a cap of
    one and an empty card first, the card behind it is never visited and
    nothing is emitted, although that card alone yields a record. *)
Lemma discarded_card_uses_a_slot :
  (exists d, @dom_fields nodejs (list_source 1) empty_card = Ok d /\ dom_discard d = true) /\
  @dom_items nodejs (list_source 1) no_detail [jazz_card] = Ok [jazz_card_record] /\
  @dom_items nodejs (list_source 1) no_detail [empty_card; jazz_card] = Ok [] /\
  @scrapeDOM nodejs (listing [empty_card; jazz_card]) (list_source 1) = Ok [] /\
  @scrapeDOM nodejs (listing [empty_card; jazz_card]) (list_source 2) = Ok [jazz_card_record].
Proof.
  split; [eexists; split; vm_compute; reflexivity |].
  repeat split; vm_compute; reflexivity.
Qed.

(** C6, amended.  A card that yields neither a title nor a link is
    discarded and not emitted, but it does count toward the cap.  The cap
    [max] (220 when unset) bounds the cards that the loop visits, the first
    [min(length, max)] ones: a discarded card still uses a slot, a card
    beyond the cap is never visited, and the loop emits at most [max]
    records; so does the extractor when it reaches the loop.  The records
    the extractor takes from the structured data of the page when
    [jsonldFirst] is set are returned as they are, without the cap. *)
Theorem dom_cap_bounds_visited_cards (P : Platform) (cfg : config)
    (detail : string -> string) (els : list element) (out : list Item.t) :
  dom_items cfg detail els = Ok out ->
  (exists ds,
      Forall2 (fun el d => dom_fields cfg el = Ok d) (dom_visited cfg els) ds /\
      out = List.map (dom_record cfg detail)
              (List.filter (fun d => negb (dom_discard d) && _filter cfg (dom_blob cfg d)) ds)) /\
  (forall r, r ∈ out ->
     exists el d, el ∈ dom_visited cfg els /\ dom_fields cfg el = Ok d /\
                  dom_discard d = false /\ _filter cfg (dom_blob cfg d) = true /\
                  r = dom_record cfg detail d) /\
  length (dom_visited cfg els)
  = Z.to_nat (Z.min (Z.of_nat (length els)) (dom_cap cfg)) /\
  (forall i el, dom_visited cfg els !! i = Some el ->
                els !! i = Some el /\ (Z.of_nat i < dom_cap cfg)%Z) /\
  length out <= length (dom_visited cfg els) /\
  ((0 <= dom_cap cfg)%Z -> (Z.of_nat (length out) <= dom_cap cfg)%Z) /\
  (forall pg recs,
      scrapeDOM pg cfg = Ok recs ->
      cfg_jsonldFirst cfg = false \/ scrapeJSONLD cfg (ld_scripts pg) = Ok [] ->
      (0 <= dom_cap cfg)%Z -> (Z.of_nat (length recs) <= dom_cap cfg)%Z) /\
  (forall pg early,
      cfg_jsonldFirst cfg = true -> blocked pg = false ->
      scrapeJSONLD cfg (ld_scripts pg) = Ok early -> early <> [] ->
      scrapeDOM pg cfg = Ok early).
Proof.
  intros Hrun. pose proof (collect_length _ _ _ Hrun) as Hlen.
  apply dom_items_emits in Hrun as (ds & Hds & ->).
  split; [by exists ds |]. split.
  { intros r Hr.
    destruct (Forall2_map_filter_elem _ _ _ _ _ _ Hds Hr) as (el & d & Hel & Hd & Hpass & ->).
    apply andb_true_iff in Hpass as [Hkeep%negb_true_iff Hpass].
    by exists el, d. }
  split.
  { unfold dom_visited, dom_take. rewrite length_take. lia. }
  split; [apply dom_visited_lookup |].
  split; [done |].
  split.
  { intros Hcap. pose proof (dom_visited_length cfg els Hcap). lia. }
  split.
  - intros pg recs Hrecs Hearly Hcap. unfold scrapeDOM in Hrecs.
    destruct (blocked pg); [injection Hrecs as <-; cbn; lia |].
    assert (Hnone : (if cfg_jsonldFirst cfg then scrapeJSONLD cfg (ld_scripts pg) else Ok [])
                    = Ok []).
    { destruct Hearly as [-> | Hld]; [done |]. rewrite Hld. by destruct (cfg_jsonldFirst cfg). }
    rewrite Hnone in Hrecs. cbn [bind] in Hrecs.
    destruct (firstExistingSelector _ _ _ _) as [[[itemSel|] tf]|];
      try (injection Hrecs as <-; cbn; lia).
    pose proof (collect_length _ _ _ Hrecs) as Hvisited.
    pose proof (dom_visited_length cfg (cards pg itemSel) Hcap). lia.
  - intros pg early Hfirst Hblocked Hearly Hne. unfold scrapeDOM.
    rewrite Hblocked, Hfirst, Hearly. cbn [bind]. by destruct early.
Qed.

Lemma dom_cap_bounds_visited_cards_witness :
  @dom_items nodejs (list_source 1) no_detail [empty_card; jazz_card] = Ok [] /\
  length (@dom_visited (list_source 1) [empty_card; jazz_card]) = 1 /\
  (Z.of_nat (length (@nil Item.t)) <= dom_cap (list_source 1))%Z /\
  exists r1 r2 r3,
    @scrapeDOM nodejs ld_listing (jsonld_first (list_source 1)) = Ok [r1; r2; r3].
Proof.
  assert (Hrun : @dom_items nodejs (list_source 1) no_detail [empty_card; jazz_card] = Ok [])
    by (vm_compute; reflexivity).
  destruct (dom_cap_bounds_visited_cards nodejs _ _ _ _ Hrun)
    as (_ & _ & Hvis & _ & _ & Hcap & _ & _).
  split; [exact Hrun |]. split; [rewrite Hvis; reflexivity |].
  split; [apply Hcap; vm_compute; discriminate |].
  assert (Hcards : @dom_items nodejs (jsonld_first (list_source 1)) no_detail [] = Ok [])
    by (vm_compute; reflexivity).
  destruct (dom_cap_bounds_visited_cards nodejs _ _ _ _ Hcards)
    as (_ & _ & _ & _ & _ & _ & _ & Hld).
  do 3 eexists. apply Hld; [reflexivity | reflexivity | vm_compute; reflexivity | discriminate].
Defined.




(** The whole extractor on the page of the scenario. *)
Example events_42_scenario :
  @scrapeDOM nodejs (listing [jazz_card]) (list_source 0) = Ok [jazz_card_record].
Proof. vm_compute. reflexivity. Qed.

(** ** The ICS calendar extractor *)

Lemma after_first_unfold (s pat : string) :
  Str.after_first s pat =
  if Str.startsWith s pat then Some (Str.drop (String.length pat) s)
  else match s with
       | "" => None
       | String _ r => Str.after_first r pat
       end.
Proof. by destruct s. Qed.

Lemma drop_append (p s : string) : Str.drop (String.length p) (p +:+ s) = s.
Proof. induction p as [|c p IH]; [by destruct s | exact IH]. Qed.

Lemma after_first_here (pat post : string) :
  Str.after_first (pat +:+ post) pat = Some post.
Proof.
  rewrite after_first_unfold.
  assert (Hs : Str.startsWith (pat +:+ post) pat = true) by (apply startsWith_spec; eauto).
  by rewrite Hs, drop_append.
Qed.

(** The leftmost occurrence is the one that counts. *)
Lemma after_first_skip (pre t pat : string) :
  (forall i, i < String.length pre -> Str.startsWith (Str.drop i (pre +:+ t)) pat = false) ->
  Str.after_first (pre +:+ t) pat = Str.after_first t pat.
Proof.
  induction pre as [|c pre IH]; intros Hno; [done |].
  rewrite append_cons, after_first_unfold.
  pose proof (Hno 0 ltac:(simpl; lia)) as H0. cbn [Str.drop] in H0.
  rewrite append_cons in H0. rewrite H0.
  apply IH. intros i Hi. apply (Hno (S i)). simpl. lia.
Qed.

Lemma after_first_none (s pat : string) :
  Str.includes s pat = false -> Str.after_first s pat = None.
Proof.
  induction s as [|c s IH]; cbn [Str.includes]; intros [Hs Hr]%orb_false_iff;
    rewrite after_first_unfold, Hs; [done | by apply IH].
Qed.

Lemma take_line (line rest : string) :
  one_line line -> at_line_end rest ->
  Str.take_while (fun c => negb (Str.is_eol c)) (line +:+ rest) = line.
Proof.
  unfold one_line. intros Hline Hrest. induction line as [|c line IH].
  - rewrite append_nil. destruct rest as [|c rest]; [done |].
    simpl in Hrest. simpl. by rewrite Hrest.
  - simpl in Hline. apply andb_true_iff in Hline as [Hc Hline].
    rewrite append_cons. cbn [Str.take_while]. rewrite Hc. f_equal. by apply IH.
Qed.

Lemma join_cons (sep x y : string) (l : list string) :
  Str.join sep (x :: y :: l) = x +:+ sep +:+ Str.join sep (y :: l).
Proof. reflexivity. Qed.

Lemma startsWith_drop (s p : string) :
  Str.startsWith s p = true -> s = p +:+ Str.drop (String.length p) s.
Proof.
  intros [post ->]%startsWith_spec. by rewrite drop_append.
Qed.

(** Joining the pieces of a split with the separator gives the string
    back. *)
Lemma split_go_join (sep : string) (k : nat) (s : string) :
  sep <> "" ->
  let '(p, ps) := Str.split_go sep k s in
  Str.join sep (p :: ps) = Str.drop k s.
Proof.
  intros Hsep. revert k. induction s as [|c s IH]; intros k.
  - by destruct k.
  - cbn [Str.split_go]. destruct k as [|k].
    + destruct (Str.startsWith (String c s) sep) eqn:Hpre.
      * specialize (IH (String.length sep - 1)).
        destruct (Str.split_go sep (String.length sep - 1) s) as [p ps].
        rewrite join_cons, append_nil, IH.
        pose proof (startsWith_drop _ _ Hpre) as Hs.
        destruct sep as [|a sep']; [done |].
        cbn [String.length Str.drop] in Hs |- *.
        replace (S (String.length sep') - 1) with (String.length sep') by lia.
        by symmetry.
      * specialize (IH 0). destruct (Str.split_go sep 0 s) as [p ps].
        cbn [Str.drop] in *. destruct ps as [|q ps].
        -- cbn in *. by rewrite IH.
        -- rewrite join_cons in *. by rewrite append_cons, IH.
    + specialize (IH k). by destruct (Str.split_go sep k s).
Qed.

Lemma join_split (s sep : string) : sep <> "" -> Str.join sep (Str.split s sep) = s.
Proof.
  intros Hsep. unfold Str.split. destruct sep as [|a sep']; [done |].
  pose proof (split_go_join (String a sep') 0 s Hsep) as Hgo.
  by destruct (Str.split_go (String a sep') 0 s).
Qed.

Lemma or_default_empty (s : string) : or_default s "" = s.
Proof. by destruct s. Qed.

Section Ics.

Context `{Platform}.

(** A field that does not occur in the block is empty. *)
Lemma get_missing (block k : string) :
  Str.includes block (k +:+ ":") = false -> get block k = "".
Proof. intros Hno. unfold get, match_key. by rewrite (after_first_none _ _ Hno). Qed.

(** The value of a field is the rest of the line after the leftmost
    occurrence of the key and its colon, trimmed. *)
Lemma get_leftmost (pre k line rest : string) :
  (forall i, i < String.length pre ->
             Str.startsWith (Str.drop i (pre +:+ (k +:+ ":") +:+ line +:+ rest)) (k +:+ ":") = false) ->
  one_line line -> at_line_end rest ->
  get (pre +:+ (k +:+ ":") +:+ line +:+ rest) k = Str.trim line.
Proof.
  intros Hno Hline Hrest. unfold get, match_key.
  rewrite (after_first_skip pre _ _ Hno), after_first_here. cbn [default].
  by rewrite take_line.
Qed.

Lemma ics_link_without_url (cfg : config) (block : string) (d : draft) :
  Str.includes block "URL:" = false ->
  ics_fields cfg (ics_block cfg block) = Ok d ->
  toAbs (VStr (cfg_ics cfg)) (VStr (cfg_ics cfg)) = Ok (d_link d).
Proof.
  intros Hno Hd. unfold ics_fields in Hd.
  apply bind_Ok in Hd as (link & Hlink & [= <-]). cbn [d_link].
  rewrite <- Hlink. cbn [ics_block ev_url]. rewrite (get_missing block "URL" Hno).
  unfold or_default at 2. cbn [Str.nonempty]. unfold or_default. by destruct (cfg_ics cfg).
Qed.

End Ics.

(** C8, as stated, fails on the matching rule: the key is searched
    anywhere in the block, not at the start of a line.  In the block of the
    scenario the first line that starts with [URL:] carries the event page,
    but the extractor reads the text after the [URL:] inside the
    description, and the record links to that. *)
Lemma key_matched_inside_a_line :
  get_by_line tickets_block "URL" = "https://real.example/gala" /\
  get tickets_block "URL" = "soon" /\
  get tickets_block "URL" <> get_by_line tickets_block "URL" /\
  (exists r, @scrapeICS nodejs ics_source (fetched_ok tickets_body) = Ok [r] /\
             Item.link r = VStr "https://x.example/soon").
Proof.
  split; [vm_compute; reflexivity |]. split; [vm_compute; reflexivity |].
  split; [vm_compute; discriminate |].
  eexists. split; vm_compute; reflexivity.
Qed.

(** C8, amended.  The body is split on [BEGIN:VEVENT] and the text before
    the first delimiter is discarded.  In a block, the value of SUMMARY, URL,
    DTSTART or LOCATION is the rest of the line after the leftmost
    occurrence of the key followed by a colon, wherever in a line it
    occurs, trimmed, and the empty string when there is no occurrence.  The
    image of every record is empty, and a block without [URL:] links to the
    calendar URL as the URL constructor writes it.  For the body of the
    scenario exactly one record is emitted, titled [Trivia], whose link is
    the calendar URL and whose image is empty. *)
Theorem scrapeICS_fields_and_scenario :
  (forall (P : Platform) (cfg : config),
      (forall res, ok res = true ->
         scrapeICS cfg res
         = collect (ics_event cfg)
             (List.map (ics_block cfg) (tail (Str.split (body res) "BEGIN:VEVENT")))) /\
      (forall block,
         ics_block cfg block
         = {| ev_summary := get block "SUMMARY";
              ev_url := or_default (get block "URL") (cfg_ics cfg);
              ev_dtstart := get block "DTSTART";
              ev_venue := or_default (get block "LOCATION") (cfg_venue cfg) |}) /\
      (forall block d,
         Str.includes block "URL:" = false ->
         ics_fields cfg (ics_block cfg block) = Ok d ->
         toAbs (VStr (cfg_ics cfg)) (VStr (cfg_ics cfg)) = Ok (d_link d)) /\
      (forall res out r, scrapeICS cfg res = Ok out -> r ∈ out -> Item.image r = VStr "")) /\
  (forall block k, Str.includes block (k +:+ ":") = false -> get block k = "") /\
  (forall pre k line rest,
      (forall i, i < String.length pre ->
                 Str.startsWith (Str.drop i (pre +:+ (k +:+ ":") +:+ line +:+ rest))
                                (k +:+ ":") = false) ->
      one_line line -> at_line_end rest ->
      get (pre +:+ (k +:+ ":") +:+ line +:+ rest) k = Str.trim line) /\
  (exists r, @scrapeICS nodejs ics_source (fetched_ok trivia_body) = Ok [r] /\
             Item.title r = "Trivia" /\
             Item.link r = VStr cal_url /\
             Item.image r = VStr "" /\
             Item.description r = "20240601T190000").
Proof.
  split; [| split; [apply get_missing | split; [apply get_leftmost |]]].
  - intros P cfg. split; [| split; [| split]].
    + intros res Hok. unfold scrapeICS, ics_blocks. by rewrite Hok.
    + intros block. unfold ics_block. by rewrite !or_default_empty.
    + apply ics_link_without_url.
    + intros res out r (_ & ds & Hds & ->)%scrapeICS_emits Hr.
      by destruct (Forall2_map_filter_elem _ _ _ _ _ _ Hds Hr) as (e & d & _ & _ & _ & ->).
  - eexists. split; [vm_compute; reflexivity |]. repeat split.
Qed.

(** ** The selector resolver *)

Lemma trimEnd_cons (c : ascii) (s : string) :
  Str.trimEnd (String c s) =
  match Str.trimEnd s with
  | "" => if Str.is_space c then "" else String c ""
  | r => String c r
  end.
Proof. reflexivity. Qed.

Lemma trimEnd_idem (s : string) : Str.trimEnd (Str.trimEnd s) = Str.trimEnd s.
Proof.
  induction s as [|c s IH]; [done |].
  rewrite trimEnd_cons. destruct (Str.trimEnd s) as [|c' r] eqn:Hs.
  - destruct (Str.is_space c) eqn:Hc; [done |]. rewrite trimEnd_cons. cbn. by rewrite Hc.
  - by rewrite trimEnd_cons, IH.
Qed.

Lemma trimStart_head (s : string) :
  match Str.trimStart s with
  | "" => True
  | String c _ => Str.is_space c = false
  end.
Proof.
  induction s as [|c s IH]; [done |].
  cbn [Str.trimStart]. by destruct (Str.is_space c) eqn:Hc; [| rewrite Hc].
Qed.

Lemma trimEnd_head (c : ascii) (s : string) :
  Str.is_space c = false -> exists r, Str.trimEnd (String c s) = String c r.
Proof.
  intros Hc. rewrite trimEnd_cons. destruct (Str.trimEnd s); [rewrite Hc |]; eauto.
Qed.

Lemma trim_idem (s : string) : Str.trim (Str.trim s) = Str.trim s.
Proof.
  unfold Str.trim. pose proof (trimStart_head s) as Hhead.
  destruct (Str.trimStart s) as [|c t]; [done |].
  destruct (trimEnd_head c t Hhead) as [r Hr]. rewrite Hr.
  cbn [Str.trimStart]. rewrite Hhead, <- Hr. apply trimEnd_idem.
Qed.

Lemma selector_list_trimmed (candidates : string) :
  Forall (fun sel => sel <> "" /\ Str.trim sel = sel) (selector_list candidates).
Proof.
  unfold selector_list. apply Forall_forall. intros sel Hsel%list_elem_of_In.
  apply filter_In in Hsel as [Hin Hne]. split; [by destruct sel |].
  apply in_map_iff in Hin as (piece & <- & _). apply trim_idem.
Qed.

Lemma poll_round_cons (b : browser) (sel : string) (r : list string) (t : Z) :
  poll_round b (sel :: r) t =
  if matches b t sel then (Some sel, t + Z.max 0 (count_cost b t sel))%Z
  else poll_round b r (t + Z.max 0 (count_cost b t sel))%Z.
Proof.
  cbn [poll_round]. unfold matches, try_catch.
  destruct (count b t sel) as [c|e]; cbn [bind]; [| done]. by destruct (0 <? c)%Z.
Qed.

(** A round answers the first candidate, in list order, that matches. *)
Lemma poll_round_hit (b : browser) (list : list string) (t t' : Z) (sel : string) :
  poll_round b list t = (Some sel, t') <->
  exists pre post,
    list = pre ++ sel :: post /\ all_miss b pre t /\
    matches b (clock_after b pre t) sel = true /\
    t' = clock_after b (pre ++ [sel]) t.
Proof.
  revert t. induction list as [|s r IH]; intros t.
  - split; [discriminate |]. intros (pre & post & Heq & _). by destruct pre.
  - rewrite poll_round_cons. destruct (matches b t s) eqn:Hm.
    + split.
      * intros [= <- <-]. by exists [], r.
      * intros ([|s' pre] & post & Heq & Hmiss & Hhit & ->).
        -- injection Heq as <- _. done.
        -- injection Heq as <- _. destruct Hmiss as [Hmiss _]. congruence.
    + rewrite IH. split.
      * intros (pre & post & -> & Hmiss & Hhit & ->). by exists (s :: pre), post.
      * intros ([|s' pre] & post & Heq & Hmiss & Hhit & ->).
        -- injection Heq as <- _. cbn in Hhit. congruence.
        -- injection Heq as <- ->. destruct Hmiss as [_ Hmiss]. by exists pre, post.
Qed.

Lemma poll_round_miss (b : browser) (list : list string) (t t' : Z) :
  poll_round b list t = (None, t') <-> all_miss b list t /\ t' = clock_after b list t.
Proof.
  revert t. induction list as [|s r IH]; intros t.
  - cbn. split; [by intros [= <-] | by intros [_ ->]].
  - rewrite poll_round_cons. cbn [all_miss clock_after]. destruct (matches b t s) eqn:Hm.
    + split; [discriminate | by intros [[? _] _]].
    + rewrite IH. tauto.
Qed.

Lemma poll_round_clock (b : browser) (list : list string) (t t' : Z) (r : option string) :
  poll_round b list t = (r, t') -> (t <= t')%Z.
Proof.
  revert t. induction list as [|s l IH]; intros t.
  - cbn. intros [= _ <-]. lia.
  - rewrite poll_round_cons. destruct (matches b t s).
    + intros [= _ <-]. lia.
    + intros Hr%IH. lia.
Qed.

(** With a round every 250 ms at least, the loop ends before the fuel
    does. *)
Lemma poll_total (b : browser) (list : list string) (timeoutMs start : Z) (k : nat) (t : Z) :
  (timeoutMs - (t - start) < 250 * Z.of_nat k)%Z ->
  exists res, poll b list timeoutMs start (S k) t = Some res.
Proof.
  revert t. induction k as [|k IH]; intros t Hk; cbn [poll];
    destruct (poll_round b list t) as [[sel|] t'] eqn:Hround; eauto;
    apply poll_round_clock in Hround;
    destruct (timeoutMs <? t' - start)%Z eqn:Hout; eauto;
    apply Z.ltb_ge in Hout.
  - lia.
  - apply IH. lia.
Qed.

Lemma poll_fuel_enough (timeoutMs : Z) :
  (timeoutMs < 250 * Z.of_nat (S (Z.to_nat (timeoutMs / 250))))%Z.
Proof.
  pose proof (Z.div_mod timeoutMs 250 ltac:(lia)).
  pose proof (Z.mod_pos_bound timeoutMs 250 ltac:(lia)).
  destruct (Z.le_gt_cases 0 (timeoutMs / 250)); lia.
Qed.

Lemma poll_reaches (b : browser) (list : list string) (timeoutMs start : Z)
    (fuel : nat) (t tf : Z) (res : option string) :
  poll b list timeoutMs start fuel t = Some (res, tf) ->
  exists tr, reaches b list timeoutMs start t tr /\
    match res with
    | Some sel => poll_round b list tr = (Some sel, tf)
    | None => poll_round b list tr = (None, tf) /\ (timeoutMs < tf - start)%Z
    end.
Proof.
  revert t. induction fuel as [|fuel IH]; intros t; [discriminate |].
  cbn [poll]. destruct (poll_round b list t) as [[sel|] t'] eqn:Hround.
  - intros [= <- <-]. exists t. split; [constructor | done].
  - destruct (timeoutMs <? t' - start)%Z eqn:Hout.
    + intros [= <- <-]. exists t. split; [constructor |]. split; [done | by apply Z.ltb_lt].
    + intros (tr & Hreach & Hres)%IH. exists tr. split; [| done].
      by apply (reaches_next _ _ _ _ t t').
Qed.

(** C9, on the revisions that wrap the count in [try] and [catch].  The
    resolver works on the trimmed, non-empty pieces of the candidate
    string.  A round answers the first candidate in list order whose count
    is positive, a count that throws being no match.  The resolver always
    returns, without an exception: for an empty candidate string it answers
    null; otherwise it answers the selector found by the first round that
    finds one, or null at the end of the first round that finds none and
    ends more than the timeout after the start.  The earliest revision has
    no such block: on the page where the count of the malformed first
    candidate throws and the second candidate matches, the later revisions
    answer the second candidate and the earliest one ends with the
    exception. *)
Theorem firstExistingSelector_spec :
  (forall candidates,
      selector_list candidates
      = List.filter Str.nonempty (List.map Str.trim (Str.split candidates ",")) /\
      Forall (fun sel => sel <> "" /\ Str.trim sel = sel) (selector_list candidates)) /\
  (forall b list t t',
      (forall sel,
          poll_round b list t = (Some sel, t') <->
          exists pre post,
            list = pre ++ sel :: post /\ all_miss b pre t /\
            matches b (clock_after b pre t) sel = true /\
            t' = clock_after b (pre ++ [sel]) t) /\
      (poll_round b list t = (None, t') <->
       all_miss b list t /\ t' = clock_after b list t)) /\
  (forall b t sel,
      (matches b t sel = true <-> exists c, count b t sel = Ok c /\ (0 < c)%Z) /\
      (forall e, count b t sel = Throw e -> matches b t sel = false)) /\
  (forall b candidates timeoutMs t0,
      exists res tf,
        firstExistingSelector b candidates timeoutMs t0 = Some (res, tf) /\
        (candidates = "" -> res = None) /\
        (candidates <> "" ->
         exists tr,
           reaches b (selector_list candidates) timeoutMs t0 t0 tr /\
           match res with
           | Some sel => poll_round b (selector_list candidates) tr = (Some sel, tf)
           | None => poll_round b (selector_list candidates) tr = (None, tf) /\
                     (timeoutMs < tf - t0)%Z
           end)) /\
  (selector_list "li:has(, .event , ,article" = ["li:has("; ".event"; "article"] /\
   firstExistingSelector flaky "li:has(, .event , ,article" 8000 0 = Some (Some ".event", 863%Z) /\
   firstExistingSelector barren "li:has(, .event , ,article" 1000 0 = Some (None, 1154%Z) /\
   firstExistingSelector_v1 flaky "li:has(, .event , ,article" 8000 0 = Some (Throw PageError)).
Proof.
  split; [| split; [| split; [| split]]].
  - intros candidates. split; [reflexivity | apply selector_list_trimmed].
  - intros b list t t'. split; [intros sel; apply poll_round_hit | apply poll_round_miss].
  - intros b t sel. unfold matches. split.
    + destruct (count b t sel) as [c|e].
      * rewrite Z.ltb_lt. split; [by exists c | by intros (c' & [= <-] & ?)].
      * split; [discriminate | by intros (c & ? & _)].
    + by intros e ->.
  - intros b candidates timeoutMs t0. unfold firstExistingSelector.
    destruct (Str.nonempty candidates) eqn:Hne; cbn [negb].
    + destruct (poll_total b (selector_list candidates) timeoutMs t0
                  (S (Z.to_nat (timeoutMs / 250))) t0) as [[res tf] Hres].
      { pose proof (poll_fuel_enough timeoutMs). lia. }
      exists res, tf. split; [exact Hres |]. split; [by intros -> |].
      intros _. by apply (poll_reaches _ _ _ _ _ _ _ _ Hres).
    + exists None, t0. split; [done |]. split; [done |]. by destruct candidates.
  - by vm_compute.
Qed.

(** * Further properties of the pipeline *)

(** ** Normalisation *)

Lemma is_space_lower (c : ascii) : Str.is_space (Str.lower_char c) = Str.is_space c.
Proof. by destruct c as [[] [] [] [] [] [] [] []]. Qed.

Lemma lower_char_idem (c : ascii) : Str.lower_char (Str.lower_char c) = Str.lower_char c.
Proof. by destruct c as [[] [] [] [] [] [] [] []]. Qed.

Lemma toLowerCase_idem (s : string) :
  Str.toLowerCase (Str.toLowerCase s) = Str.toLowerCase s.
Proof. induction s as [|c s IH]; [done |]. cbn. by rewrite lower_char_idem, IH. Qed.

Lemma toLowerCase_trimStart (s : string) :
  Str.toLowerCase (Str.trimStart s) = Str.trimStart (Str.toLowerCase s).
Proof.
  induction s as [|c s IH]; [done |].
  cbn [Str.trimStart Str.toLowerCase]. rewrite is_space_lower.
  by destruct (Str.is_space c).
Qed.

Lemma toLowerCase_trimEnd (s : string) :
  Str.toLowerCase (Str.trimEnd s) = Str.trimEnd (Str.toLowerCase s).
Proof.
  induction s as [|c s IH]; [done |].
  cbn [Str.toLowerCase]. rewrite !trimEnd_cons, <- IH, is_space_lower.
  destruct (Str.trimEnd s); [by destruct (Str.is_space c) | done].
Qed.

Lemma toLowerCase_collapse (b : bool) (s : string) :
  Str.toLowerCase (Str.collapse_from b s) = Str.collapse_from b (Str.toLowerCase s).
Proof.
  revert b. induction s as [|c s IH]; intros b; [done |].
  cbn [Str.collapse_from Str.toLowerCase]. rewrite is_space_lower.
  destruct (Str.is_space c); [destruct b |]; cbn [Str.toLowerCase]; by rewrite IH.
Qed.

Lemma collapse_from_idem (b b' : bool) (s : string) :
  (b' = true -> b = true) ->
  Str.collapse_from b' (Str.collapse_from b s) = Str.collapse_from b s.
Proof.
  revert b b'. induction s as [|c s IH]; intros b b' Hb; [done |].
  cbn [Str.collapse_from]. destruct (Str.is_space c) eqn:Hc.
  - destruct b.
    + by apply IH.
    + destruct b'; [by discriminate Hb |]. cbn. by rewrite IH.
  - cbn [Str.collapse_from]. rewrite Hc. f_equal. by apply IH.
Qed.

Lemma trimStart_collapse (b : bool) (s : string) :
  Str.trimStart (Str.collapse_from b s) = Str.collapse_from true s.
Proof.
  revert b. induction s as [|c s IH]; intros b; [done |].
  cbn [Str.collapse_from]. destruct (Str.is_space c) eqn:Hc.
  - destruct b; [apply IH |]. cbn. apply IH.
  - cbn [Str.trimStart]. by rewrite Hc.
Qed.

Lemma collapse_trimStart (s : string) :
  Str.collapse_from false (Str.trimStart s) = Str.collapse_from true s.
Proof.
  induction s as [|c s IH]; [done |].
  cbn [Str.trimStart Str.collapse_from]. destruct (Str.is_space c) eqn:Hc; [exact IH |].
  cbn [Str.collapse_from]. by rewrite Hc.
Qed.

(** A string of whitespace only trims to nothing. *)
Lemma trimEnd_empty_collapse (b : bool) (s : string) :
  Str.trimEnd s = "" -> Str.trimEnd (Str.collapse_from b s) = "".
Proof.
  revert b. induction s as [|c s IH]; intros b; [done |].
  rewrite trimEnd_cons. destruct (Str.trimEnd s) eqn:Hs; [| discriminate].
  destruct (Str.is_space c) eqn:Hc; [| discriminate]. intros _.
  cbn [Str.collapse_from]. rewrite Hc. destruct b; [by apply IH |].
  rewrite trimEnd_cons, IH; done.
Qed.

Lemma collapse_from_cons (b : bool) (c : ascii) (t : string) :
  Str.collapse_from b (String c t) =
  if Str.is_space c
  then (if b then Str.collapse_from true t else String " " (Str.collapse_from true t))
  else String c (Str.collapse_from false t).
Proof. reflexivity. Qed.

Lemma trimEnd_collapse_empty (b : bool) (s : string) :
  Str.trimEnd (Str.collapse_from b s) = "" -> Str.trimEnd s = "".
Proof.
  revert b. induction s as [|c s IH]; intros b; [done |].
  rewrite collapse_from_cons, (trimEnd_cons c s).
  destruct (Str.is_space c) eqn:Hc.
  - destruct b.
    + intros Ht. by rewrite (IH _ Ht).
    + rewrite trimEnd_cons.
      destruct (Str.trimEnd (Str.collapse_from true s)) eqn:Ht; [| discriminate].
      intros _. by rewrite (IH _ Ht).
  - rewrite trimEnd_cons, Hc. by destruct (Str.trimEnd (Str.collapse_from false s)).
Qed.

Lemma collapse_trimEnd (b : bool) (s : string) :
  Str.collapse_from b (Str.trimEnd s) = Str.trimEnd (Str.collapse_from b s).
Proof.
  revert b. induction s as [|c s IH]; intros b; [done |].
  rewrite trimEnd_cons. destruct (Str.trimEnd s) as [|c' r] eqn:Hs.
  - destruct (Str.is_space c) eqn:Hc.
    + symmetry. apply trimEnd_empty_collapse. by rewrite trimEnd_cons, Hs, Hc.
    + rewrite !collapse_from_cons, Hc, trimEnd_cons.
      by rewrite (trimEnd_empty_collapse false s Hs), Hc.
  - rewrite (collapse_from_cons b c (String c' r)), (collapse_from_cons b c s).
    destruct (Str.is_space c) eqn:Hc.
    + destruct b; [apply IH |].
      rewrite IH, trimEnd_cons.
      destruct (Str.trimEnd (Str.collapse_from true s)) eqn:Ht; [| done].
      apply trimEnd_collapse_empty in Ht. congruence.
    + rewrite IH, trimEnd_cons, Hc.
      by destruct (Str.trimEnd (Str.collapse_from false s)).
Qed.

Lemma collapse_trim (s : string) :
  Str.collapse (Str.trim s) = Str.trim (Str.collapse s).
Proof.
  unfold Str.collapse, Str.trim.
  by rewrite collapse_trimEnd, collapse_trimStart, trimStart_collapse.
Qed.

Lemma toLowerCase_trim (s : string) :
  Str.toLowerCase (Str.trim s) = Str.trim (Str.toLowerCase s).
Proof. unfold Str.trim. by rewrite toLowerCase_trimEnd, toLowerCase_trimStart. Qed.

(** X1.  Normalisation is idempotent, and a normalised text is in lower
    case, trimmed, and has single spaces only: applying any of the three
    steps to it again changes nothing. *)
Theorem norm_idempotent (v : value) :
  norm (VStr (norm v)) = norm v /\
  Str.trim (norm v) = norm v /\
  Str.collapse (norm v) = norm v /\
  Str.toLowerCase (norm v) = norm v.
Proof.
  assert (Ht : Str.trim (norm v) = norm v) by apply trim_idem.
  assert (Hc : Str.collapse (norm v) = norm v).
  { unfold norm. rewrite collapse_trim. f_equal. apply collapse_from_idem. done. }
  assert (Hl : Str.toLowerCase (norm v) = norm v).
  { unfold norm. unfold Str.collapse.
    by rewrite toLowerCase_trim, toLowerCase_collapse, toLowerCase_idem. }
  split; [| done].
  unfold norm at 1. cbn [safe]. by rewrite Ht, Hl, Hc, Ht.
Qed.

(** ** The run over the sources *)

Section Run.

Context `{Platform}.

Lemma collect_items_cons (cfg : config) (inp : fetched) (b : list (config * fetched)) :
  collect_items ((cfg, inp) :: b)
  = match scrape (applyDefaults cfg) inp with Ok part => part | Throw _ => [] end
    ++ collect_items b.
Proof. reflexivity. Qed.

End Run.

(** X2.  The feed holds at most 500 records: the first 500 of the
    de-duplicated list, all of it when it is not longer, exactly 500 when it
    is.  No two records of the feed share a key, and the feed keeps the
    order in which the records were collected. *)
Theorem feed_items_capped (P : Platform) (sites : list (config * fetched)) :
  length (feed_items sites) <= 500 /\
  (length (dedup (collect_items sites)) <= 500 ->
   feed_items sites = dedup (collect_items sites)) /\
  (500 <= length (dedup (collect_items sites)) -> length (feed_items sites) = 500) /\
  (exists dropped, dedup (collect_items sites) = feed_items sites ++ dropped) /\
  NoDup (dedup_key <$> feed_items sites) /\
  sublist (feed_items sites) (collect_items sites).
Proof.
  unfold feed_items. set (items := dedup (collect_items sites)).
  split; [rewrite length_take; lia |].
  split; [intros Hle; by apply firstn_all2 |].
  split; [intros Hge; rewrite length_take; lia |].
  split; [exists (skipn 500 items); by rewrite firstn_skipn |].
  split.
  - rewrite fmap_take. apply (sublist_NoDup _ (dedup_key <$> items)).
    + apply dedup_from_NoDup.
    + apply sublist_take.
  - etrans; [apply sublist_take | apply dedup_from_sublist].
Qed.

(** ** More on the selector resolver *)

Lemma firstExistingSelector_returns (b : browser) (candidates : string) (timeoutMs t0 : Z) :
  exists res tf, firstExistingSelector b candidates timeoutMs t0 = Some (res, tf).
Proof.
  unfold firstExistingSelector. destruct (Str.nonempty candidates); cbn [negb]; [| eauto].
  destruct (poll_total b (selector_list candidates) timeoutMs t0
              (S (Z.to_nat (timeoutMs / 250))) t0) as [[res tf] Hres]; [| eauto].
  pose proof (poll_fuel_enough timeoutMs). lia.
Qed.

Lemma poll_round_static (b : browser) (list : list string) (t t0 : Z) :
  static b -> fst (poll_round b list t) = List.find (matches b t0) list.
Proof.
  intros Hstatic. revert t. induction list as [|sel r IH]; intros t; [done |].
  rewrite poll_round_cons. cbn [List.find]. rewrite (Hstatic t0 t sel).
  destruct (matches b t sel); [done | apply IH].
Qed.

Lemma poll_static (b : browser) (list : list string) (timeoutMs start t0 : Z)
    (fuel : nat) (t tf : Z) (res : option string) :
  static b ->
  poll b list timeoutMs start fuel t = Some (res, tf) ->
  res = List.find (matches b t0) list /\
  (res = None -> (timeoutMs < tf - start)%Z).
Proof.
  intros Hstatic. revert t. induction fuel as [|fuel IH]; intros t; [discriminate |].
  cbn [poll]. pose proof (poll_round_static b list t t0 Hstatic) as Hround.
  destruct (poll_round b list t) as [[sel|] t'].
  - intros [= <- <-]. split; [exact Hround | discriminate].
  - destruct (timeoutMs <? t' - start)%Z eqn:Hout.
    + intros [= <- <-]. split; [exact Hround | intros _; by apply Z.ltb_lt].
    + apply IH.
Qed.

(** X4.  On a page that does not change while the resolver runs, the
    resolver answers the first candidate of the list that matches, and null
    when none does; null is answered only after more than the timeout has
    passed. *)
Theorem firstExistingSelector_static (b : browser) (candidates : string)
    (timeoutMs t0 : Z) :
  static b -> candidates <> "" ->
  exists tf,
    firstExistingSelector b candidates timeoutMs t0
    = Some (List.find (matches b t0) (selector_list candidates), tf) /\
    (List.find (matches b t0) (selector_list candidates) = None ->
     (timeoutMs < tf - t0)%Z).
Proof.
  intros Hstatic Hne.
  destruct (firstExistingSelector_returns b candidates timeoutMs t0) as (res & tf & Hres).
  exists tf. unfold firstExistingSelector in *.
  destruct candidates as [|c cs]; [done |]. cbn [Str.nonempty negb] in *.
  destruct (poll_static _ _ _ _ t0 _ _ _ _ Hstatic Hres) as [-> Hnull].
  by split.
Qed.

Lemma barren_static : static barren.
Proof. by intros t t' sel. Defined.

Lemma firstExistingSelector_static_witness :
  exists tf,
    firstExistingSelector barren ".event, article" 1000 0 = Some (None, tf) /\
    (1000 < tf - 0)%Z.
Proof.
  destruct (firstExistingSelector_static barren ".event, article" 1000 0 barren_static
              ltac:(discriminate)) as (tf & Hres & Hnull).
  exists tf. split; [exact Hres | by apply Hnull].
Defined.

Lemma poll_round_v1_agrees (b : browser) (list : list string) (t : Z) :
  well_formed_selectors b -> poll_round_v1 b list t = Ok (poll_round b list t).
Proof.
  intros Hwf. revert t. induction list as [|sel r IH]; intros t; [done |].
  rewrite poll_round_cons. cbn [poll_round_v1]. unfold matches.
  destruct (count b t sel) as [c|e] eqn:Hc; [| by destruct (Hwf t sel e)].
  cbn [bind]. destruct (0 <? c)%Z; [done | apply IH].
Qed.

Lemma poll_v1_agrees (b : browser) (list : list string) (timeoutMs start : Z)
    (fuel : nat) (t : Z) :
  well_formed_selectors b ->
  poll_v1 b list timeoutMs start fuel t = Ok <$> poll b list timeoutMs start fuel t.
Proof.
  intros Hwf. revert t. induction fuel as [|fuel IH]; intros t; [done |].
  cbn [poll poll_v1]. rewrite (poll_round_v1_agrees b list t Hwf).
  destruct (poll_round b list t) as [[sel|] t']; [done |].
  destruct (timeoutMs <? t' - start)%Z; [done | apply IH].
Qed.

(** X5.  The two revisions of the resolver agree as long as no count
    throws: for a non-empty candidate string the earlier revision returns
    what the later one returns.  They part where a count throws: the earlier
    revision ends with the exception of the first candidate asked. *)
Theorem firstExistingSelector_v1_agrees (b : browser) (candidates : string)
    (timeoutMs t0 : Z) :
  candidates <> "" ->
  (well_formed_selectors b ->
   firstExistingSelector_v1 b candidates timeoutMs t0
   = Ok <$> firstExistingSelector b candidates timeoutMs t0) /\
  (forall sel rest e,
      selector_list candidates = sel :: rest -> count b t0 sel = Throw e ->
      firstExistingSelector_v1 b candidates timeoutMs t0 = Some (Throw e)).
Proof.
  intros Hne. split.
  - intros Hwf. unfold firstExistingSelector_v1, firstExistingSelector.
    destruct candidates as [|c cs]; [done |]. cbn [Str.nonempty negb].
    by apply poll_v1_agrees.
  - intros sel rest e Hlist Hthrow. unfold firstExistingSelector_v1, poll_fuel.
    rewrite Hlist. cbn [poll_v1 poll_round_v1]. by rewrite Hthrow.
Qed.

Lemma firstExistingSelector_v1_agrees_witness :
  firstExistingSelector_v1 barren ".event, article" 1000 0
  = Ok <$> firstExistingSelector barren ".event, article" 1000 0 /\
  firstExistingSelector_v1 flaky "li:has(, .event" 1000 0 = Some (Throw PageError).
Proof.
  split.
  - apply (firstExistingSelector_v1_agrees barren ".event, article" 1000 0); [discriminate |].
    intros t sel e. discriminate.
  - apply (proj2 (firstExistingSelector_v1_agrees flaky "li:has(, .event" 1000 0
                    ltac:(discriminate)) "li:has(" [".event"] PageError); reflexivity.
Defined.

(** X6.  When no candidate of the item selector ever matches (its count
    is zero or throws), the DOM extractor returns the empty list, without an
    exception, whatever elements the page holds; the same holds on a page
    that shows the anti-bot text. *)
Theorem scrapeDOM_no_selector_match (P : Platform) (pg : page) (cfg : config) :
  cfg_jsonldFirst cfg = false ->
  blocked pg = true \/ (forall t sel, matches (live pg) t sel = false) ->
  scrapeDOM pg cfg = Ok [].
Proof.
  intros Hld Hcase. unfold scrapeDOM. rewrite Hld.
  destruct (blocked pg) eqn:Hb; [done |]. destruct Hcase as [Hcase|Hmiss]; [done |].
  cbn [bind].
  destruct (firstExistingSelector_returns (live pg) (cfg_item cfg) 8000 (arrival pg))
    as (res & tf & Hres).
  rewrite Hres. destruct res as [sel|]; [| done].
  exfalso. unfold firstExistingSelector in Hres.
  destruct (Str.nonempty (cfg_item cfg)); cbn [negb] in Hres; [| discriminate].
  assert (Hstatic : static (live pg)) by (intros t t' s; by rewrite !Hmiss).
  destruct (poll_static _ _ _ _ 0%Z _ _ _ _ Hstatic Hres) as [Hfind _].
  symmetry in Hfind. apply find_some in Hfind as [_ Hm]. by rewrite Hmiss in Hm.
Qed.

Lemma scrapeDOM_no_selector_match_witness :
  @scrapeDOM nodejs (barren_page [jazz_card]) (list_source 0) = Ok [].
Proof.
  apply scrapeDOM_no_selector_match; [reflexivity |].
  right. intros t sel. reflexivity.
Defined.

(** ** More on the structured-data extractor *)



Lemma prop_Ok (v : value) (k : string) (x : value) :
  prop v k = Ok x -> x = prop_opt v k /\ forall k', prop v k' = Ok (prop_opt v k').
Proof. destruct v; try discriminate; cbn; by intros [= <-]. Qed.




Lemma collect_total {A B : Type} (f : A -> result (option B)) (l : list A) :
  Forall (fun x => exists o, f x = Ok o) l -> exists out, collect f l = Ok out.
Proof.
  induction 1 as [|x l [o Hx] _ [out IH]]; [by exists [] |].
  cbn [collect]. rewrite Hx, IH. cbn. eauto.
Qed.

Lemma collect_throws {A B : Type} (f : A -> result (option B)) (l : list A) (x : A) (e : exn) :
  x ∈ l -> f x = Throw e -> exists e', collect f l = Throw e'.
Proof.
  intros Hx Hthrow. induction l as [|y l IH]; [by apply elem_of_nil in Hx |].
  cbn [collect]. apply elem_of_cons in Hx as [<-|Hx].
  - rewrite Hthrow. by exists e.
  - destruct (f y) as [o|e1]; [| by exists e1]. cbn [bind].
    destruct (IH Hx) as [e' ->]. by exists e'.
Qed.

Section JsonLd.

Context `{Platform}.


End JsonLd.

(** ** Values that convert to text *)






Lemma array_first (x : value) (rest : list value) : prop_opt (VArr (x :: rest)) "0" = x.
Proof.
  unfold prop_opt, own. replace (index_of_key "0") with (Some 0) by (by vm_compute). done.
Qed.

Lemma array_no_url (l : list value) : prop_opt (VArr l) "url" = VUndef.
Proof.
  unfold prop_opt, own. replace (index_of_key "url") with (@None nat) by (by vm_compute). done.
Qed.

Lemma array_length_truthy (x : value) (rest : list value) :
  truthy (prop_opt (VArr (x :: rest)) "length") = true.
Proof. done. Qed.

(** X8.  The image of a structured-data node may be a string, an object
    with a [url], or an array whose first element is either: for a non-empty
    URL all four shapes give the same image. *)
Theorem ld_image_polymorphic (u : string) (fs : list (string * value)) (rest : list value) :
  u <> "" -> assoc "url" fs = Some (VStr u) ->
  ld_image (VStr u) = VStr u /\
  ld_image (VObj fs) = VStr u /\
  ld_image (VArr (VStr u :: rest)) = VStr u /\
  ld_image (VArr (VObj fs :: rest)) = VStr u.
Proof.
  intros Hu Hurl.
  assert (Ht : truthy (VStr u) = true) by (by destruct u).
  assert (Hobj : prop_opt (VObj fs) "url" = VStr u) by (cbn; by rewrite Hurl).
  unfold ld_image. split; [done |]. split.
  - cbn [is_str truthy is_object andb]. by rewrite Hobj, Ht.
  - rewrite !array_no_url, !array_first, !array_length_truthy.
    cbn [is_str truthy is_object isArray andb]. split; [done |].
    unfold js_or. by rewrite Hobj, Ht.
Qed.

Lemma ld_image_polymorphic_witness :
  ld_image (VObj [("@type", VStr "ImageObject"); ("url", VStr "https://x.example/a.jpg")])
  = VStr "https://x.example/a.jpg" /\
  ld_image (VArr [VStr "https://x.example/a.jpg"; VStr "https://x.example/b.jpg"])
  = VStr "https://x.example/a.jpg".
Proof.
  destruct (ld_image_polymorphic "https://x.example/a.jpg"
              [("@type", VStr "ImageObject"); ("url", VStr "https://x.example/a.jpg")]
              [VStr "https://x.example/b.jpg"] ltac:(discriminate) eq_refl)
    as (_ & Hobj & Harr & _).
  split; [exact Hobj | exact Harr].
Defined.

(** ** More on the JSON API extractor *)

Section JsonEdge.

Context `{Platform}.

Lemma json_fields_null (cfg : config) :
  m_title (cfg_map cfg) = "" -> json_fields cfg VNull = Throw TypeError.
Proof. intros Ht. unfold json_fields. by rewrite Ht. Qed.

Lemma json_image_absent (cfg : config) (e : value) (d : draft) :
  json_fields cfg e = Ok d ->
  m_image (cfg_map cfg) = "" ->
  truthy (prop_opt e "image") = false ->
  truthy (prop_opt e "featured_image") = false ->
  isArray (prop_opt e "images") = false ->
  toAbs (VStr "") (d_link d) = Ok (d_image d).
Proof.
  intros Hd Hmap Himage Hfeat Himages. unfold json_fields in Hd.
  apply bind_Ok in Hd as (t & _ & Hd).
  apply bind_Ok in Hd as (l & _ & Hd).
  apply bind_Ok in Hd as (link & _ & Hd).
  apply bind_Ok in Hd as (dt & _ & Hd).
  apply bind_Ok in Hd as (v & _ & Hd).
  apply bind_Ok in Hd as (i & Hi & Hd).
  apply bind_Ok in Hd as (img & Himg & [= <-]). cbn [d_link d_image].
  rewrite Hmap in Hi. cbn [Str.nonempty] in Hi. unfold or_else in Hi.
  assert (Hall : forall k, prop e k = Ok (prop_opt e k)) by (by destruct e).
  rewrite !Hall in Hi. cbn [bind] in Hi.
  rewrite Himage, Hfeat, Himages in Hi. injection Hi as <-. exact Himg.
Qed.

Lemma jsonld_image_absent (cfg : config) (e : value) (d : draft) :
  jsonld_fields cfg e = Ok d ->
  prop_opt e "image" = VUndef ->
  toAbs (VStr "") (VStr (cfg_url cfg)) = Ok (d_image d).
Proof.
  intros Hd Himage. unfold jsonld_fields in Hd.
  apply bind_Ok in Hd as (n & _ & Hd).
  apply bind_Ok in Hd as (u & _ & Hd).
  apply bind_Ok in Hd as (url & _ & Hd).
  apply bind_Ok in Hd as (s & _ & Hd).
  apply bind_Ok in Hd as (ri & Hri & Hd).
  apply bind_Ok in Hd as (img & Himg & [= <-]). cbn [d_image].
  apply prop_Ok in Hri as [-> _]. by rewrite Himage in Himg.
Qed.

End JsonEdge.

(** X9.  One null entry in the list of events makes the JSON API
    extractor throw (when the title is read from the default members): the
    source yields no record at all, not even for the entries before the null
    one. *)
Theorem scrapeJSON_null_entry_aborts (P : Platform) (cfg : config)
    (res : response value) (l : list value) :
  ok res = true ->
  json_list cfg (body res) = Ok l ->
  m_title (cfg_map cfg) = "" ->
  VNull ∈ l ->
  exists e, scrapeJSON cfg res = Throw e.
Proof.
  intros Hok Hl Ht Hnull.
  unfold scrapeJSON. rewrite Hok, Hl. cbn [negb bind].
  apply (collect_throws _ _ VNull TypeError Hnull).
  unfold json_event. by rewrite (json_fields_null cfg Ht).
Qed.

Lemma scrapeJSON_null_entry_aborts_witness :
  exists e, @scrapeJSON nodejs plain_json_source (fetched_ok (VArr [jazz_event; VNull]))
            = Throw e.
Proof.
  apply (scrapeJSON_null_entry_aborts nodejs plain_json_source
           (fetched_ok (VArr [jazz_event; VNull])) [jazz_event; VNull]).
  - reflexivity.
  - vm_compute. reflexivity.
  - reflexivity.
  - apply elem_of_cons. right. apply elem_of_cons. by left.
Defined.

(** X10.  An event without image data does not get an empty image: the
    JSON API extractor resolves the empty reference against the link of the
    event, and the structured-data extractor against the page URL, so the
    image is whatever the URL constructor answers for the empty reference
    (the link or the page itself). *)
Theorem image_defaults_to_link (P : Platform) (cfg : config) (e : value) (d : draft) :
  (json_fields cfg e = Ok d ->
   m_image (cfg_map cfg) = "" ->
   truthy (prop_opt e "image") = false ->
   truthy (prop_opt e "featured_image") = false ->
   isArray (prop_opt e "images") = false ->
   toAbs (VStr "") (d_link d) = Ok (d_image d) /\
   Item.image (json_record cfg d) = d_image d /\
   forall u, new_URL "" (base_arg (d_link d)) = Ok u -> d_image d = VStr u) /\
  (jsonld_fields cfg e = Ok d ->
   prop_opt e "image" = VUndef ->
   toAbs (VStr "") (VStr (cfg_url cfg)) = Ok (d_image d) /\
   Item.image (json_record cfg d) = d_image d /\
   forall u, new_URL "" (Some (cfg_url cfg)) = Ok u -> d_image d = VStr u).
Proof.
  split.
  - intros Hd Hmap H1 H2 H3.
    pose proof (json_image_absent cfg e d Hd Hmap H1 H2 H3) as Himg.
    split; [exact Himg |]. split; [done |].
    intros u Hu. rewrite toAbs_cases in Himg. cbn [ToString] in Himg.
    rewrite Hu in Himg. by injection Himg.
  - intros Hd H1. pose proof (jsonld_image_absent cfg e d Hd H1) as Himg.
    split; [exact Himg |]. split; [done |].
    intros u Hu. rewrite toAbs_cases in Himg. cbn [ToString base_arg] in Himg.
    rewrite Hu in Himg. by injection Himg.
Qed.

Lemma image_defaults_to_link_witness :
  exists d,
    @json_fields nodejs jazz_source_path jazz_event = Ok d /\
    d_image d = VStr "https://api.example/e/1" /\
    d_link d = VStr "https://api.example/e/1".
Proof.
  eexists. split; [vm_compute; reflexivity |]. split; [| reflexivity].
  refine (proj2 (proj2 (proj1 (image_defaults_to_link nodejs jazz_source_path jazz_event _)
                          _ _ _ _ _)) _ _); reflexivity.
Defined.

(** ** More on the DOM extractor *)

Section DomLoops.

(** The three loops over the selector lists are instances of one scheme. *)
Lemma first_nonempty_loop (rd : string -> result string)
    (loop : list string -> result string) :
  loop [] = Ok "" ->
  (forall sel r, loop (sel :: r)
                 = (let! t := rd sel in if Str.nonempty t then Ok t else loop r)) ->
  forall sels t,
    (loop sels = Ok t /\ t <> "" <-> first_nonempty rd sels t) /\
    (loop sels = Ok "" <-> Forall (fun s => rd s = Ok "") sels) /\
    ((exists e, loop sels = Throw e) <->
     exists pre sel post e, sels = pre ++ sel :: post /\
                            Forall (fun s => rd s = Ok "") pre /\ rd sel = Throw e).
Proof.
  intros Hnil Hcons sels. induction sels as [|sel r IH]; intros t.
  - rewrite Hnil. split; [| split].
    + split; [by intros [[= <-] ?] |]. intros (pre & s & post & Heq & _). by destruct pre.
    + split; [constructor | done].
    + split; [by intros [e ?] |]. intros (pre & s & post & e & Heq & _). by destruct pre.
  - rewrite Hcons. destruct (rd sel) as [x|e] eqn:Hx; cbn [bind].
    + destruct x as [|c x]; cbn [Str.nonempty].
      * destruct (IH t) as (IH1 & IH2 & IH3). split; [| split].
        -- rewrite IH1. split.
           ++ intros (pre & s & post & -> & Hpre & Hs & Ht).
              exists (sel :: pre), s, post. repeat split; try done. by constructor.
           ++ intros ([|s' pre] & s & post & Heq & Hpre & Hs & Ht).
              ** injection Heq as <- _. rewrite Hx in Hs. injection Hs as <-. done.
              ** injection Heq as <- ->. apply Forall_cons in Hpre as [_ Hpre].
                 by exists pre, s, post.
        -- rewrite IH2. split; [by constructor | by intros [_ ?]%Forall_cons].
        -- rewrite IH3. split.
           ++ intros (pre & s & post & e & -> & Hpre & Hs).
              exists (sel :: pre), s, post, e. repeat split; try done. by constructor.
           ++ intros ([|s' pre] & s & post & e & Heq & Hpre & Hs).
              ** injection Heq as <- _. congruence.
              ** injection Heq as <- ->. apply Forall_cons in Hpre as [_ Hpre].
                 by exists pre, s, post, e.
      * split; [| split].
        -- split.
           ++ intros [[= <-] _]. exists [], sel, r. repeat split; try done.
           ++ intros ([|s' pre] & s & post & Heq & Hpre & Hs & Ht).
              ** injection Heq as <- _. rewrite Hx in Hs. injection Hs as <-. done.
              ** injection Heq as <- _. apply Forall_cons in Hpre as [Hsel _]. congruence.
        -- split; [discriminate |]. intros [Hsel _]%Forall_cons. congruence.
        -- split; [by intros [e ?] |].
           intros ([|s' pre] & s & post & e & Heq & Hpre & Hs).
           ++ injection Heq as <- _. congruence.
           ++ injection Heq as <- _. apply Forall_cons in Hpre as [Hsel _]. congruence.
    + split; [| split].
      * split; [by intros [? _] |].
        intros ([|s' pre] & s & post & Heq & Hpre & Hs & Ht).
        -- injection Heq as <- _. congruence.
        -- injection Heq as <- _. apply Forall_cons in Hpre as [Hsel _]. congruence.
      * split; [discriminate |]. intros [Hsel _]%Forall_cons. congruence.
      * split; [| by eauto]. intros _. exists [], sel, r, e. by repeat split.
Qed.

Lemma dom_title_cons (el : element) (sel : string) (r : list string) :
  dom_title el (sel :: r)
  = (let! t := title_at el sel in if Str.nonempty t then Ok t else dom_title el r).
Proof. cbn [dom_title]. unfold title_at. by destruct (el_query el sel). Qed.

Lemma dom_href_cons (el : element) (sel : string) (r : list string) :
  dom_href el (sel :: r)
  = (let! t := href_at el sel in if Str.nonempty t then Ok t else dom_href el r).
Proof. cbn [dom_href]. unfold href_at. by destruct (el_query el sel) as [[h|]|]. Qed.

Lemma dom_date_cons (el : element) (sel : string) (r : list string) :
  dom_date el (sel :: r)
  = (let! t := date_at el sel in if Str.nonempty t then Ok t else dom_date el r).
Proof. cbn [dom_date]. unfold date_at. by destruct (el_query el sel) as [[h|]|]. Qed.

End DomLoops.

(** X11.  For the title, the link and the date of a card the candidates are
    tried in list order and the first one that yields a non-empty text wins;
    the result is empty exactly when every candidate yields nothing; the
    loop throws exactly when a query throws before any candidate has yielded
    a text. *)
Theorem dom_first_nonempty_wins (el : element) (sels : list string) (t : string) :
  ((dom_title el sels = Ok t /\ t <> "" <-> first_nonempty (title_at el) sels t) /\
   (dom_title el sels = Ok "" <-> Forall (fun s => title_at el s = Ok "") sels) /\
   ((exists e, dom_title el sels = Throw e) <->
    exists pre sel post e, sels = pre ++ sel :: post /\
       Forall (fun s => title_at el s = Ok "") pre /\ title_at el sel = Throw e)) /\
  ((dom_href el sels = Ok t /\ t <> "" <-> first_nonempty (href_at el) sels t) /\
   (dom_href el sels = Ok "" <-> Forall (fun s => href_at el s = Ok "") sels) /\
   ((exists e, dom_href el sels = Throw e) <->
    exists pre sel post e, sels = pre ++ sel :: post /\
       Forall (fun s => href_at el s = Ok "") pre /\ href_at el sel = Throw e)) /\
  ((dom_date el sels = Ok t /\ t <> "" <-> first_nonempty (date_at el) sels t) /\
   (dom_date el sels = Ok "" <-> Forall (fun s => date_at el s = Ok "") sels) /\
   ((exists e, dom_date el sels = Throw e) <->
    exists pre sel post e, sels = pre ++ sel :: post /\
       Forall (fun s => date_at el s = Ok "") pre /\ date_at el sel = Throw e)).
Proof.
  split; [| split].
  - apply (first_nonempty_loop (title_at el) (dom_title el)); [done | apply dom_title_cons].
  - apply (first_nonempty_loop (href_at el) (dom_href el)); [done | apply dom_href_cons].
  - apply (first_nonempty_loop (date_at el) (dom_date el)); [done | apply dom_date_cons].
Qed.

Section DomImage.

Context `{Platform}.

Lemma dom_image_of_bare (cfg : config) (h : handle) :
  (forall name, safe (getAttribute h name) = "") ->
  dom_image_of cfg h = toAbs (VStr "") (VStr (cfg_url cfg)).
Proof. intros Hbare. unfold dom_image_of. by rewrite !Hbare. Qed.

Lemma dom_image_of_src (cfg : config) (h : handle) (src : string) :
  safe (getAttribute h "src") = src -> src <> "" ->
  dom_image_of cfg h = toAbs (VStr src) (VStr (cfg_url cfg)).
Proof.
  intros Hsrc Hne. unfold dom_image_of. rewrite Hsrc.
  destruct src as [|c src]; [done |]. reflexivity.
Qed.

Lemma dom_image_of_srcset (cfg : config) (h : handle) (srcset : string) :
  safe (getAttribute h "src") = "" ->
  safe (getAttribute h "srcset") = srcset ->
  pickFirstFromSrcset srcset <> "" ->
  dom_image_of cfg h = toAbs (VStr (pickFirstFromSrcset srcset)) (VStr (cfg_url cfg)).
Proof.
  intros Hsrc Hset Hne. unfold dom_image_of. rewrite Hsrc, Hset.
  assert (Hs : Str.nonempty srcset = true) by (destruct srcset; [by vm_compute in Hne | done]).
  rewrite Hs. cbn [Str.nonempty negb andb].
  destruct (pickFirstFromSrcset srcset) as [|c first] eqn:Hfirst; [done |].
  reflexivity.
Qed.

End DomImage.

(** X12.  The image of a card is read from the first element that an image
    selector matches and that gives a truthy URL.  [src] comes first; when
    it is empty the first URL of [srcset] is taken, ahead of the
    lazy-loading attributes.  An element without any usable attribute still
    ends the search when the URL constructor accepts the empty reference:
    the image is then the source URL itself, the later selectors are not
    tried and the detail page is not fetched. *)
Theorem dom_image_priority (P : Platform) (cfg : config) (el : element)
    (iSel : string) (rest : list string) (h : handle) :
  el_query el iSel = Ok (Some h) ->
  (forall src u,
      safe (getAttribute h "src") = src -> src <> "" ->
      new_URL src (Some (cfg_url cfg)) = Ok u -> u <> "" ->
      dom_image cfg el (iSel :: rest) = Ok (VStr u)) /\
  (forall srcset u,
      safe (getAttribute h "src") = "" ->
      safe (getAttribute h "srcset") = srcset ->
      pickFirstFromSrcset srcset <> "" ->
      new_URL (pickFirstFromSrcset srcset) (Some (cfg_url cfg)) = Ok u -> u <> "" ->
      dom_image cfg el (iSel :: rest) = Ok (VStr u)) /\
  (forall u,
      (forall name, safe (getAttribute h name) = "") ->
      new_URL "" (Some (cfg_url cfg)) = Ok u -> u <> "" ->
      dom_image cfg el (iSel :: rest) = Ok (VStr u) /\
      forall detail d,
        d_image d = VStr u ->
        Item.image (dom_record cfg detail d) = VStr u).
Proof.
  intros Hq.
  assert (Hstep : forall x u, dom_image_of cfg h = toAbs (VStr x) (VStr (cfg_url cfg)) ->
            new_URL x (Some (cfg_url cfg)) = Ok u -> u <> "" ->
            dom_image cfg el (iSel :: rest) = Ok (VStr u)).
  { intros x u Himg Hu Hne. cbn [dom_image]. rewrite Hq. cbn [bind].
    rewrite Himg, toAbs_cases. cbn [ToString base_arg]. rewrite Hu. cbn [bind].
    by destruct u. }
  split; [| split].
  - intros src u Hsrc Hne Hu Hu'. by apply (Hstep src u); [apply dom_image_of_src | |].
  - intros srcset u Hsrc Hset Hne Hu Hu'.
    by apply (Hstep (pickFirstFromSrcset srcset) u); [apply (dom_image_of_srcset cfg h srcset) | |].
  - intros u Hbare Hu Hne. split.
    + by apply (Hstep "" u); [apply dom_image_of_bare | |].
    + intros detail d Hd. unfold dom_record. cbn [Item.image]. rewrite Hd.
      by destruct u.
Qed.

Lemma dom_image_priority_witness :
  @dom_image nodejs (list_source 0) bare_image_card ["img"; ".thumb"] = Ok (VStr list_url) /\
  @dom_items nodejs (list_source 0) (fun _ => "https://x.example/detail.png") [bare_image_card]
  = Ok [{| Item.title := "Jazz Night";
           Item.link := VStr "https://x.example/events/42";
           Item.guid := "https://x.example/events/42#jazz night#";
           Item.pubDate := "Wed, 01 May 2024 12:00:00 GMT";
           Item.description := "";
           Item.image := VStr list_url;
           Item.town := "";
           Item.venue := "" |}].
Proof.
  split; [| vm_compute; reflexivity].
  refine (proj1 (proj2 (proj2 (dom_image_priority nodejs (list_source 0) bare_image_card
            "img" [".thumb"] (text_node "") _)) list_url _ _ _)).
  - reflexivity.
  - intros name. reflexivity.
  - vm_compute. reflexivity.
  - discriminate.
Defined.

(** ** What every record carries *)

Section Tags.

Context `{Platform}.

Lemma json_record_tagged (cfg : config) (d : draft) :
  source_tags cfg (json_record cfg d).
Proof.
  split; [done |]. split; [by exists (d_title d) |].
  intros Hv. cbn [json_record Item.venue]. by destruct (cfg_venue cfg).
Qed.

Lemma map_filter_tagged {D : Type} (P : Item.t -> Prop) (pass : D -> bool) (mk : D -> Item.t)
    (ds : list D) (it : Item.t) :
  (forall d, P (mk d)) -> it ∈ List.map mk (List.filter pass ds) -> P it.
Proof.
  intros HP Hit. apply list_elem_of_In, in_map_iff in Hit as (d & <- & _). apply HP.
Qed.

Lemma scrapeJSONLD_tagged (cfg : config) (scripts : list (result value))
    (out : list Item.t) (it : Item.t) :
  scrapeJSONLD cfg scripts = Ok out -> it ∈ out -> source_tags cfg it.
Proof.
  intros (ds & _ & ->)%scrapeJSONLD_emits Hit.
  revert Hit. apply (map_filter_tagged (source_tags cfg)). apply json_record_tagged.
Qed.

Lemma scrape_tagged (cfg : config) (inp : fetched) (out : list Item.t) (it : Item.t) :
  scrape cfg inp = Ok out -> it ∈ out -> tagged cfg it.
Proof.
  unfold scrape. intros Hs Hit.
  destruct (cfg_mode cfg) eqn:Hmode, inp;
    try (injection Hs as <-; by apply not_elem_of_nil in Hit).
  - (* dom *)
    unfold scrapeDOM in Hs. destruct (blocked pg).
    { injection Hs as <-. by apply not_elem_of_nil in Hit. }
    apply bind_Ok in Hs as (early & Hearly & Hs).
    destruct early as [|e0 early].
    + destruct (firstExistingSelector _ _ _ _) as [[[itemSel|] tf]|];
        try (injection Hs as <-; by apply not_elem_of_nil in Hit).
      apply dom_items_emits in Hs as (ds & _ & ->).
      revert Hit. apply (map_filter_tagged (tagged cfg)). intros d.
      split; [| intros Hv _ _ _; exact Hv].
      split; [done |]. split; [by exists (d_title d) | done].
    + injection Hs as <-. destruct (cfg_jsonldFirst cfg) eqn:Hfirst; [| discriminate].
      split; [exact (scrapeJSONLD_tagged _ _ _ _ Hearly Hit) |].
      intros _ _ _ Hf. congruence.
  - (* jsonld *)
    split; [exact (scrapeJSONLD_tagged _ _ _ _ Hs Hit) | by intros _ _ Hm].
  - (* json *)
    apply scrapeJSON_emits in Hs as (_ & l & ds & _ & _ & ->).
    split; [| by intros _ Hm].
    revert Hit. apply (map_filter_tagged (source_tags cfg)). apply json_record_tagged.
  - (* ics *)
    apply scrapeICS_emits in Hs as (_ & ds & _ & ->).
    revert Hit. apply (map_filter_tagged (tagged cfg)). intros d.
    split; [| intros Hv _ _ _; exact Hv].
    split; [done |]. split; [by exists (d_title d) | done].
  - (* rss *)
    apply scrapeRSS_emits in Hs as (_ & l & ds & _ & _ & ->).
    revert Hit. apply (map_filter_tagged (tagged cfg)). intros d.
    split; [| intros Hv _ _ _; exact Hv].
    split; [done |]. split; [by exists (d_title d) | done].
Qed.

Lemma tagged_applyDefaults (cfg : config) (it : Item.t) :
  tagged (applyDefaults cfg) it -> tagged cfg it.
Proof. done. Qed.

Lemma collect_items_source (sites : list (config * fetched)) (it : Item.t) :
  it ∈ collect_items sites ->
  exists rawCfg inp out,
    (rawCfg, inp) ∈ sites /\ scrape (applyDefaults rawCfg) inp = Ok out /\ it ∈ out.
Proof.
  induction sites as [|[cfg inp] sites IH]; intros Hit.
  - by apply not_elem_of_nil in Hit.
  - rewrite collect_items_cons in Hit. apply elem_of_app in Hit as [Hit | Hit].
    + destruct (scrape (applyDefaults cfg) inp) as [out|e] eqn:Hs.
      * exists cfg, inp, out. split; [left | done].
      * by apply not_elem_of_nil in Hit.
    + destruct (IH Hit) as (c & i & out & Hin & Hs & Hout).
      exists c, i, out. split; [by right | done].
Qed.

End Tags.

(** X13.  Every record of the feed comes from one of the configured
    sources and carries that source's tags, whatever the mode: its town is
    the configured town, its title is the extracted title behind the town
    prefix, and its venue is the configured venue when there is one.  With
    no configured venue the DOM, ICS and RSS extractors leave the venue
    empty; only the JSON ones may fill it from the event. *)
Theorem feed_items_tagged (P : Platform) (sites : list (config * fetched)) (it : Item.t) :
  it ∈ feed_items sites ->
  exists rawCfg inp,
    (rawCfg, inp) ∈ sites /\ tagged rawCfg it /\
    (cfg_town rawCfg <> "" ->
     Str.startsWith (Item.title it) ("[" +:+ cfg_town rawCfg +:+ "] ") = true).
Proof.
  intros Hit.
  assert (Hsub : sublist (feed_items sites) (collect_items sites)).
  { unfold feed_items, dedup. etrans; [apply sublist_take | apply dedup_from_sublist]. }
  apply (fun h => elem_of_sublist _ _ _ h Hsub) in Hit.
  destruct (collect_items_source sites it Hit) as (cfg & inp & out & Hin & Hs & Hout).
  exists cfg, inp. split; [done |].
  pose proof (tagged_applyDefaults cfg it (scrape_tagged _ _ _ _ Hs Hout)) as Htag.
  split; [done |]. intros Htown.
  destruct Htag as ((_ & (t & ->) & _) & _). unfold town_prefix.
  destruct (cfg_town cfg) as [|c town] eqn:Ht; [done |].
  cbn [Str.nonempty]. apply startsWith_spec. by exists t.
Qed.

Lemma feed_items_tagged_witness :
  exists rawCfg inp,
    (rawCfg, inp) ∈ [(jazz_source_path, FJson (fetched_ok jazz_body))] /\
    @tagged jazz_source_path jazz_record /\
    (cfg_town rawCfg <> "" ->
     Str.startsWith (Item.title jazz_record) ("[" +:+ cfg_town rawCfg +:+ "] ") = true).
Proof.
  destruct (feed_items_tagged nodejs [(jazz_source_path, FJson (fetched_ok jazz_body))]
              jazz_record) as (cfg & inp & Hin & Htag & Hpre).
  - vm_compute. left.
  - apply list_elem_of_singleton in Hin. injection Hin as -> ->.
    exists jazz_source_path, (FJson (fetched_ok jazz_body)).
    split; [apply list_elem_of_singleton; reflexivity |]. split; [exact Htag | exact Hpre].
Defined.

(** ** The calendar extractor returns *)

Lemma split_cons (s sep : string) :
  sep <> "" -> exists pre blocks, Str.split s sep = pre :: blocks.
Proof.
  intros Hsep. unfold Str.split. destruct sep as [|a sep']; [done |].
  destruct (Str.split_go (String a sep') 0 s) as [p ps]. eauto.
Qed.

Lemma split_go_absent (s sep : string) :
  Str.includes s sep = false -> Str.split_go sep 0 s = (s, []).
Proof.
  induction s as [|c s IH]; intros Hno; [done |].
  cbn [Str.includes] in Hno. apply orb_false_iff in Hno as [Hhere Hrest].
  cbn [Str.split_go]. rewrite Hhere. by rewrite (IH Hrest).
Qed.

Lemma filter_all {D : Type} (pass : D -> bool) (ds : list D) :
  (forall d, pass d = true) -> List.filter pass ds = ds.
Proof.
  intros Hall. induction ds as [|d ds IH]; [done |]. cbn. by rewrite Hall, IH.
Qed.

Section IcsTotal.

Context `{Platform}.

Lemma ics_fields_total (cfg : config) (ev : vevent) : exists d, ics_fields cfg ev = Ok d.
Proof.
  unfold ics_fields.
  destruct (toAbs_Ok (VStr (or_default (ev_url ev) (cfg_ics cfg))) (VStr (cfg_ics cfg)))
    as [link ->].
  cbn [bind]. eauto.
Qed.

Lemma ics_event_total (cfg : config) (ev : vevent) : exists o, ics_event cfg ev = Ok o.
Proof.
  unfold ics_event. destruct (ics_fields_total cfg ev) as [d ->]. cbn [bind]. eauto.
Qed.

End IcsTotal.

(** X14.  On a successful response the calendar extractor never fails.
    The body is cut at every [BEGIN:VEVENT] marker, what precedes the first
    marker is dropped, and each block gives at most one record: exactly one
    when the source has no filters, even for a block without summary or
    URL.  A body without marker gives no record, and no record has an
    image. *)
Theorem scrapeICS_one_record_per_block (P : Platform) (cfg : config) (res : response string) :
  ok res = true ->
  exists out,
    scrapeICS cfg res = Ok out /\
    length out <= length (ics_blocks (body res)) /\
    (cfg_filters cfg = None -> length out = length (ics_blocks (body res))) /\
    (exists pre, body res = Str.join "BEGIN:VEVENT" (pre :: ics_blocks (body res))) /\
    (Str.includes (body res) "BEGIN:VEVENT" = false -> out = []) /\
    Forall (fun it => Item.image it = VStr "") out.
Proof.
  intros Hok.
  assert (Hout : exists out, scrapeICS cfg res = Ok out).
  { unfold scrapeICS. rewrite Hok. cbn [negb]. apply collect_total.
    apply Forall_forall. intros ev _. apply ics_event_total. }
  destruct Hout as [out Hout]. exists out. split; [exact Hout |].
  pose proof Hout as Hshape. apply scrapeICS_emits in Hshape as (_ & ds & Hds & Heq).
  assert (Hlen : length ds = length (ics_blocks (body res))).
  { rewrite <- (Forall2_length _ _ _ Hds). apply length_map. }
  split; [| split; [| split; [| split]]].
  - rewrite Heq, length_map, <- Hlen. apply List.filter_length_le.
  - intros Hnone. rewrite Heq, length_map, <- Hlen. f_equal. apply filter_all.
    intros d. unfold _filter. by rewrite Hnone.
  - assert (Hsep : "BEGIN:VEVENT" <> "") by discriminate.
    destruct (split_cons (body res) "BEGIN:VEVENT" Hsep) as (pre & blocks & Hsplit).
    exists pre. unfold ics_blocks. rewrite Hsplit. cbn [tail]. rewrite <- Hsplit.
    symmetry. by apply join_split.
  - intros Hno. assert (Hnil : ics_blocks (body res) = []).
    { unfold ics_blocks, Str.split. by rewrite (split_go_absent _ _ Hno). }
    rewrite Hnil in Hlen. destruct ds; [| discriminate Hlen]. by rewrite Heq.
  - rewrite Heq. apply Forall_forall. intros it Hit.
    by apply list_elem_of_In, in_map_iff in Hit as (d & <- & _).
Qed.

Lemma scrapeICS_one_record_per_block_witness :
  exists out,
    @scrapeICS nodejs ics_source (fetched_ok trivia_body) = Ok out /\
    length out <= length (ics_blocks trivia_body) /\
    (cfg_filters ics_source = None -> length out = length (ics_blocks trivia_body)) /\
    (exists pre, trivia_body = Str.join "BEGIN:VEVENT" (pre :: ics_blocks trivia_body)) /\
    (Str.includes trivia_body "BEGIN:VEVENT" = false -> out = []) /\
    Forall (fun it => Item.image it = VStr "") out.
Proof.
  apply (scrapeICS_one_record_per_block nodejs ics_source (fetched_ok trivia_body)).
  reflexivity.
Defined.

(** ** The first candidate of a [srcset] *)

Lemma split_comma_head (s : string) :
  fst (Str.split_go "," 0 s)
  = Str.take_while (fun c => negb (Ascii.eqb c ","%char)) s.
Proof.
  induction s as [|c s IH]; [done |].
  cbn [Str.split_go Str.startsWith Str.take_while String.length Nat.sub].
  rewrite (Ascii.eqb_sym ","%char c).
  destruct (Ascii.eqb c ","%char); cbn [negb].
  - replace (Str.startsWith s "") with true by (by destruct s).
    by destruct (Str.split_go "," 0 s).
  - destruct (Str.split_go "," 0 s) as [p ps]. cbn [fst] in *. by rewrite IH.
Qed.

Lemma space_not_comma (c : ascii) :
  Str.is_space c = true -> Ascii.eqb c ","%char = false.
Proof.
  intros Hc. destruct (Ascii.eqb c ","%char) eqn:Heq; [| done].
  apply Ascii.eqb_eq in Heq. subst c. discriminate Hc.
Qed.

Lemma trimStart_take_while_comma (s : string) :
  Str.trimStart (Str.take_while (fun c => negb (Ascii.eqb c ","%char)) s)
  = Str.take_while (fun c => negb (Ascii.eqb c ","%char)) (Str.trimStart s).
Proof.
  induction s as [|c s IH]; [done |].
  cbn [Str.trimStart Str.take_while]. destruct (Str.is_space c) eqn:Hc.
  - rewrite (space_not_comma c Hc). cbn [negb Str.trimStart]. by rewrite Hc.
  - cbn [Str.take_while]. destruct (Ascii.eqb c ","%char); cbn [negb Str.trimStart]; [done |].
    by rewrite Hc.
Qed.

Lemma take_while_trimEnd (s : string) :
  Str.take_while (fun c => negb (Str.is_space c)) (Str.trimEnd s)
  = Str.take_while (fun c => negb (Str.is_space c)) s.
Proof.
  induction s as [|c s IH]; [done |].
  rewrite trimEnd_cons. destruct (Str.trimEnd s) as [|c' r'] eqn:Hs.
  - cbn [Str.take_while] in *. destruct (Str.is_space c) eqn:Hc; cbn [negb Str.take_while].
    + reflexivity.
    + rewrite Hc. cbn [negb]. by rewrite <- IH.
  - cbn [Str.take_while] in *. by rewrite IH.
Qed.

Lemma take_while_twice (f g : ascii -> bool) (s : string) :
  Str.take_while f (Str.take_while g s) = Str.take_while (fun c => f c && g c) s.
Proof.
  induction s as [|c s IH]; [done |].
  cbn [Str.take_while]. destruct (g c); [| by rewrite andb_false_r].
  cbn [Str.take_while]. rewrite andb_true_r. destruct (f c); [by rewrite IH | done].
Qed.

Lemma append_nil_r (s : string) : s +:+ "" = s.
Proof. induction s as [|c s IH]; [done |]. by rewrite append_cons, IH. Qed.

Lemma take_while_token (u rest : string) :
  srcset_token u ->
  match rest with "" => True | String c _ => srcset_char c = false end ->
  Str.take_while srcset_char (u +:+ rest) = u.
Proof.
  intros Hu Hrest. induction u as [|c u IH].
  - rewrite append_nil. destruct rest as [|c r]; [done |]. cbn [Str.take_while]. by rewrite Hrest.
  - destruct Hu as [Hc Hu]. rewrite append_cons. cbn [Str.take_while]. rewrite Hc.
    by rewrite (IH Hu).
Qed.

Lemma trimStart_token (u rest : string) :
  srcset_token u -> u <> "" -> Str.trimStart (u +:+ rest) = u +:+ rest.
Proof.
  intros Hu Hne. destruct u as [|c u]; [done |]. destruct Hu as [Hc _].
  rewrite append_cons. cbn [Str.trimStart].
  unfold srcset_char in Hc. apply andb_true_iff in Hc as [Hc _].
  apply negb_true_iff in Hc. by rewrite Hc.
Qed.

Lemma take_while_is_token (s : string) : srcset_token (Str.take_while srcset_char s).
Proof.
  induction s as [|c s IH]; [done |].
  cbn [Str.take_while]. destruct (srcset_char c) eqn:Hc; [| done]. by split.
Qed.

(** X15.  The URL taken from a [srcset] attribute is the longest run of
    characters, after the leading white space, that holds neither white
    space nor a comma.  So the width or density descriptor and the later
    candidates are dropped, a URL that itself contains a comma is cut at
    the comma, and an attribute that starts with a comma gives nothing. *)
Theorem pickFirstFromSrcset_first_token (srcset : string) :
  pickFirstFromSrcset srcset = Str.take_while srcset_char (Str.trimStart srcset) /\
  srcset_token (pickFirstFromSrcset srcset) /\
  (forall u rest, srcset_token u -> u <> "" ->
     pickFirstFromSrcset u = u /\
     pickFirstFromSrcset (u +:+ " " +:+ rest) = u /\
     pickFirstFromSrcset (u +:+ "," +:+ rest) = u /\
     pickFirstFromSrcset (" " +:+ u +:+ " " +:+ rest) = u) /\
  (forall rest, pickFirstFromSrcset ("," +:+ rest) = "").
Proof.
  assert (Hchar : forall s, pickFirstFromSrcset s = Str.take_while srcset_char (Str.trimStart s)).
  { intros s. unfold pickFirstFromSrcset. destruct s as [|c s]; [done |].
    cbn [Str.nonempty negb]. unfold Str.split.
    pose proof (split_comma_head (String c s)) as Hhead.
    destruct (Str.split_go "," 0 (String c s)) as [p ps]. cbn [fst head default] in *.
    rewrite Hhead. unfold Str.trim.
    unfold id. rewrite take_while_trimEnd, trimStart_take_while_comma, take_while_twice.
    reflexivity. }
  split; [apply Hchar |]. split; [rewrite Hchar; apply take_while_is_token |].
  split.
  - intros u rest Hu Hne. rewrite !Hchar.
    split; [| split; [| split]].
    + pose proof (trimStart_token u "" Hu Hne) as Ht.
      pose proof (take_while_token u "" Hu I) as Hw.
      rewrite append_nil_r in Ht, Hw. by rewrite Ht.
    + rewrite (trimStart_token u _ Hu Hne). by apply take_while_token.
    + rewrite (trimStart_token u _ Hu Hne). by apply take_while_token.
    + rewrite append_cons, append_nil. cbn [Str.trimStart].
      replace (Str.is_space " ") with true by reflexivity.
      rewrite (trimStart_token u _ Hu Hne). by apply take_while_token.
  - intros rest. rewrite Hchar. reflexivity.
Qed.

(** ** Paths into a JSON value *)

(** X16.  A mapped path is walked member by member, so a path made of two
    parts joined by a dot reads the second part inside what the first part
    leads to.  The walk ends with [undefined], without error, as soon as a
    member is missing or falsy; it throws when it has to look inside a
    truthy string, number or boolean. *)
Theorem pick_path_composes (obj : value) (p q : string) :
  p <> "" -> q <> "" ->
  pick obj (p +:+ "." +:+ q) = (let! o := pick obj p in pick o q) /\
  (forall v, pick obj p = Ok v -> truthy v = false ->
     pick obj (p +:+ "." +:+ q) = Ok VUndef) /\
  (forall v, pick obj p = Ok v -> truthy v = true ->
     match v with VObj _ | VArr _ => False | _ => True end ->
     pick obj (p +:+ "." +:+ q) = Throw TypeError).
Proof.
  intros Hp Hq.
  assert (Hpq : p +:+ "." +:+ q <> "") by (destruct p; [done | by rewrite append_cons]).
  assert (Hcomp : pick obj (p +:+ "." +:+ q) = (let! o := pick obj p in pick o q)).
  { rewrite (pick_walk obj _ Hpq), split_dot_app, fold_left_app, <- (pick_walk obj p Hp).
    destruct (pick obj p) as [o|e]; cbn [bind].
    - by rewrite (pick_walk o q Hq).
    - apply pick_step_throw. }
  split; [exact Hcomp |]. split.
  - intros v Hv Hfalsy. rewrite Hcomp, Hv. cbn [bind].
    rewrite (pick_walk v q Hq), (pick_step_falsy v _ Hfalsy).
    destruct (split_nonempty q ".") as [Hs | Hs]; [| done].
    by destruct (Str.split q ".").
  - intros v Hv Htruthy Hprim. rewrite Hcomp, Hv. cbn [bind].
    rewrite (pick_walk v q Hq).
    destruct (split_nonempty q ".") as [Hs | Hs]; [| done].
    destruct (Str.split q ".") as [|k keys]; [done |].
    cbn [fold_left]. unfold pick_step at 2. cbn [bind]. rewrite Htruthy.
    destruct v; try done; cbn [has_in bind]; apply pick_step_throw.
Qed.

Lemma pick_path_composes_witness :
  let obj := VObj [("a", VObj [("b", VArr [VNum 1; VNum 2])]); ("s", VStr "x"); ("n", VNull)] in
  pick obj ("a.b" +:+ "." +:+ "1") = Ok (VNum 2) /\
  pick obj ("n" +:+ "." +:+ "x.y") = Ok VUndef /\
  pick obj ("s" +:+ "." +:+ "length") = Throw TypeError.
Proof.
  intros obj.
  split; [| split].
  - rewrite (proj1 (pick_path_composes obj "a.b" "1" ltac:(discriminate) ltac:(discriminate))).
    vm_compute. reflexivity.
  - refine (proj1 (proj2 (pick_path_composes obj "n" "x.y" _ _)) VNull _ _);
      [discriminate | discriminate | reflexivity | reflexivity].
  - refine (proj2 (proj2 (pick_path_composes obj "s" "length" _ _)) (VStr "x") _ _ _);
      [discriminate | discriminate | reflexivity | reflexivity | exact I].
Defined.

(** ** The feed extractor returns *)

Lemma prop_some (v : value) (k : string) :
  nullish v = false -> prop v k = Ok (prop_opt v k).
Proof. by destruct v. Qed.

Lemma truthy_not_nullish (v : value) : truthy v = true -> nullish v = false.
Proof. by destruct v. Qed.

Lemma or_else_Ok (v : value) (b : result value) :
  (exists x, b = Ok x) -> exists x, Ok v <||> b = Ok x.
Proof. intros [x ->]. unfold or_else. cbn [bind]. destruct (truthy v); eauto. Qed.

Lemma find_href_total (ls : list value) :
  Forall (fun l => nullish l = false) ls -> exists f, find_href ls = Ok f.
Proof.
  induction 1 as [|l ls Hl _ [f IH]]; [by exists VUndef |].
  cbn [find_href]. rewrite (prop_some l _ Hl). cbn [bind].
  destruct (truthy _); eauto.
Qed.

Section RssTotal.

Context `{Platform}.

Lemma rss_entries_total (parsed : value) :
  nullish parsed = false -> exists l, rss_entries parsed = Ok l.
Proof.
  intros Hp. unfold rss_entries. rewrite (prop_some parsed "rss" Hp). cbn [bind].
  assert (Hch : exists channel,
            Ok (prop_opt (prop_opt parsed "rss") "channel") <||> prop parsed "feed" <||> Ok (VObj [])
            = Ok channel /\ nullish channel = false).
  { unfold or_else at 1. cbn [bind].
    destruct (truthy (prop_opt (prop_opt parsed "rss") "channel")) eqn:Hc.
    - eexists. split; [done | by apply truthy_not_nullish].
    - rewrite (prop_some parsed "feed" Hp). unfold or_else. cbn [bind].
      destruct (truthy (prop_opt parsed "feed")) eqn:Hf.
      + eexists. split; [done | by apply truthy_not_nullish].
      + by exists (VObj []). }
  destruct Hch as (channel & -> & Hch). cbn [bind].
  rewrite (prop_some channel "item" Hch), (prop_some channel "entry" Hch).
  unfold or_else. cbn [bind].
  destruct (truthy (prop_opt channel "item")); cbn [bind]; [eauto |].
  destruct (truthy (prop_opt channel "entry")); cbn [bind]; eauto.
Qed.

Lemma rss_fields_total (cfg : config) (e : value) :
  rss_readable e -> exists d, rss_fields cfg e = Ok d.
Proof.
  intros (He & Hlinks & _). unfold rss_fields. rewrite (prop_some e "title" He). cbn [bind].
  assert (Hlink : exists link,
            Ok (prop_opt (prop_opt e "link") "@_href")
            <||> (if isArray (prop_opt e "link")
                  then (let! f := find_href (elements (prop_opt e "link")) in
                        Ok (js_or (prop_opt f "@_href") (prop_opt (prop_opt e "link") "0")))
                  else Ok (prop_opt e "link"))
            <||> Ok (prop_opt e "guid") <||> Ok (VStr (cfg_rss cfg)) = Ok link).
  { apply or_else_Ok.
    destruct (find_href_total _ Hlinks) as [f Hf]. rewrite Hf. cbn [bind].
    destruct (isArray (prop_opt e "link")); apply or_else_Ok, or_else_Ok; eauto. }
  destruct Hlink as [link ->]. cbn [bind].
  match goal with
  | |- context [if truthy ?img then toAbs ?img link else _] =>
      destruct (truthy img); [destruct (toAbs_Ok img link) as [abs ->] |]
  end; cbn [bind]; eauto.
Qed.

Lemma rss_fields_null (cfg : config) (e : value) :
  nullish e = true -> rss_fields cfg e = Throw TypeError.
Proof. by destruct e. Qed.

Lemma rss_entry_total (cfg : config) (e : value) :
  rss_readable e -> exists o, rss_entry cfg e = Ok o.
Proof.
  intros He. unfold rss_entry. destruct (rss_fields_total cfg e He) as [d ->].
  cbn [bind]. rewrite rss_emit_filter. eauto.
Qed.

End RssTotal.

(** X17.  On a successful response whose body has been parsed, the feed
    extractor finds the list of entries in any document.  As long as the
    entries are readable (no entry and no element of an entry's list of
    links is [null], and the entries are plain, so that what is converted
    to text is convertible), the extractor does not fail and every entry
    gives at most one record, exactly one when the source has no filters.
    A [null] entry makes the whole source fail. *)
Theorem scrapeRSS_returns (P : Platform) (cfg : config) (res : response value) :
  ok res = true -> nullish (body res) = false ->
  exists l,
    rss_entries (body res) = Ok l /\
    (Forall rss_readable l ->
     exists out, scrapeRSS cfg res = Ok out /\
                 length out <= length l /\
                 (cfg_filters cfg = None -> length out = length l)) /\
    (forall e, e ∈ l -> nullish e = true -> exists x, scrapeRSS cfg res = Throw x).
Proof.
  intros Hok Hbody. destruct (rss_entries_total (body res) Hbody) as [l Hl].
  exists l. split; [exact Hl |]. split.
  - intros Hread.
    assert (Hout : exists out, scrapeRSS cfg res = Ok out).
    { unfold scrapeRSS. rewrite Hok, Hl. cbn [negb bind]. apply collect_total.
      eapply Forall_impl; [exact Hread |]. intros e He. by apply rss_entry_total. }
    destruct Hout as [out Hout]. exists out. split; [exact Hout |].
    apply scrapeRSS_emits in Hout as (_ & l' & ds & Hl' & Hds & ->).
    rewrite Hl in Hl'. injection Hl' as <-.
    rewrite length_map, (Forall2_length _ _ _ Hds). split.
    + apply List.filter_length_le.
    + intros Hnone. f_equal. apply filter_all. intros d. unfold _filter. by rewrite Hnone.
  - intros e He Hnull. unfold scrapeRSS. rewrite Hok, Hl. cbn [negb bind].
    apply (collect_throws _ _ e TypeError He).
    unfold rss_entry. by rewrite (rss_fields_null cfg e Hnull).
Qed.

Lemma scrapeRSS_returns_witness :
  exists l,
    rss_entries (rss_feed dated_item) = Ok l /\
    (Forall rss_readable l ->
     exists out, @scrapeRSS nodejs rss_source (fetched_ok (rss_feed dated_item)) = Ok out /\
                 length out <= length l /\
                 (cfg_filters rss_source = None -> length out = length l)) /\
    (forall e, e ∈ l -> nullish e = true ->
     exists x, @scrapeRSS nodejs rss_source (fetched_ok (rss_feed dated_item)) = Throw x).
Proof.
  apply (scrapeRSS_returns nodejs rss_source (fetched_ok (rss_feed dated_item)));
    reflexivity.
Defined.

(** ** The feed builder *)

Lemma includes_cons (c : ascii) (s w : string) :
  Str.includes (String c s) w = false -> Str.includes s w = false.
Proof. cbn [Str.includes]. by intros [_ ?]%orb_false_iff. Qed.

Lemma includes_drop (n : nat) (s w : string) :
  Str.includes s w = false -> Str.includes (Str.drop n s) w = false.
Proof.
  revert s. induction n as [|n IH]; intros s Hno; [by destruct s |].
  destruct s as [|c s]; [done |]. cbn [Str.drop]. apply IH. by apply includes_cons in Hno.
Qed.

Lemma query_rest_empty (t : string) :
  Str.includes t "?" = false -> query_rest t = true -> t = "".
Proof.
  destruct t as [|c r]; [done |]. intros Hno Hq.
  cbn [query_rest] in Hq. apply andb_true_iff in Hq as [Hc _].
  apply Ascii.eqb_eq in Hc. subst c. cbn [Str.includes Str.startsWith] in Hno.
  replace (Str.startsWith r "") with true in Hno by (by destruct r). discriminate Hno.
Qed.

Lemma take_all (n : nat) (s : string) : Str.drop n s = "" -> Str.take n s = s.
Proof.
  revert s. induction n as [|n IH]; intros s Hd.
  - destruct s; [done | discriminate Hd].
  - destruct s as [|c s]; [done |]. cbn [Str.drop Str.take] in *. by rewrite (IH s Hd).
Qed.

(** A text without query that passes [isImg] ends with a dot and one of the
    extensions, in any letter case. *)
Lemma isImg_str_extension (u : string) :
  isImg_str u = true -> Str.includes u "?" = false ->
  exists pre r e, u = pre +:+ "." +:+ r /\ e ∈ img_exts /\ Str.toLowerCase r = e.
Proof.
  induction u as [|c u IH]; [done |].
  intros Himg Hno. cbn [isImg_str] in Himg. apply orb_true_iff in Himg as [Hat | Hrest].
  - cbn [isImg_at] in Hat. apply andb_true_iff in Hat as [Hc Hex].
    apply Ascii.eqb_eq in Hc. subst c.
    apply existsb_exists in Hex as (e & He & Hm). apply andb_true_iff in Hm as [Hci Hq].
    apply includes_cons in Hno.
    pose proof (query_rest_empty _ (includes_drop (String.length e) u "?" Hno) Hq) as Hend.
    unfold Str.startsWith_ci in Hci. rewrite (take_all _ _ Hend) in Hci.
    apply String.eqb_eq in Hci.
    exists "", u, e. split; [done |]. split; [by apply list_elem_of_In | done].
  - destruct (IH Hrest (includes_cons _ _ _ Hno)) as (pre & r & e & -> & He & Hr).
    exists (String c pre), r, e. by rewrite append_cons.
Qed.

Lemma lower_char_dot (c : ascii) :
  Ascii.eqb (Str.lower_char c) "."%char = Ascii.eqb c "."%char.
Proof. destruct c as [[] [] [] [] [] [] [] []]; reflexivity. Qed.

Lemma includes_dot_lower (s : string) :
  Str.includes (Str.toLowerCase s) "." = Str.includes s ".".
Proof.
  induction s as [|c s IH]; [done |].
  cbn [Str.toLowerCase Str.includes Str.startsWith]. rewrite IH.
  rewrite (Ascii.eqb_sym "."%char (Str.lower_char c)), lower_char_dot.
  rewrite (Ascii.eqb_sym c "."%char).
  replace (Str.startsWith (Str.toLowerCase s) "") with true by (by destruct (Str.toLowerCase s)).
  by replace (Str.startsWith s "") with true by (by destruct s).
Qed.

Lemma last_piece (pre r : string) :
  Str.includes r "." = false -> List.last (Str.split (pre +:+ "." +:+ r) ".") "" = r.
Proof.
  intros Hno. rewrite split_dot_app. unfold Str.split at 2.
  rewrite (split_go_absent r "." Hno). apply List.last_last.
Qed.

Lemma enclosure_type_extension (u : string) :
  isImg_str u = true -> Str.includes u "?" = false ->
  exists ty, enclosure_type (VStr u) = Ok ty /\ ty ∈ image_types.
Proof.
  intros Himg Hno.
  destruct (isImg_str_extension u Himg Hno) as (pre & r & e & Hu & He & Hr).
  assert (Hdot : Str.includes r "." = false).
  { rewrite <- includes_dot_lower, Hr.
    unfold img_exts in He. repeat (apply elem_of_cons in He as [-> | He]; [reflexivity |]).
    by apply elem_of_nil in He. }
  unfold enclosure_type, isImg.
  assert (Hne : u <> "") by (destruct u; [discriminate Himg | done]).
  assert (Hor : js_or (VStr u) (VStr "") = VStr u) by (by destruct u).
  rewrite Hor. cbn [ToString]. rewrite Himg, Hu, (last_piece pre r Hdot), Hr.
  eexists. split; [reflexivity |].
  unfold img_exts in He. unfold image_types.
  repeat (apply elem_of_cons in He as [-> | He];
          [vm_compute; repeat (first [by left | right]) |]).
  by apply elem_of_nil in He.
Qed.

Lemma assoc_app_miss {A : Type} (k : string) (l1 l2 : list (string * A)) :
  assoc k l1 = None -> assoc k (l1 ++ l2) = assoc k l2.
Proof.
  induction l1 as [|[k' a] l1 IH]; [done |].
  cbn [assoc app]. destruct (String.eqb k k'); [discriminate | exact IH].
Qed.

(** X18.  A record with an image gives the feed builder an object with a
    [media:content] and an [enclosure] that point at the image, and the
    image tag goes in front of the description.  The type of the enclosure
    always starts with [image/]; it is [image/jpeg] for a URL without a
    recognised extension, and for a URL without query that ends with
    [.png], [.jpg], [.jpeg], [.gif], [.webp] or [.avif], in any letter case,
    it is one of the five types of those formats ([jpg] becomes [jpeg]). *)
Theorem feed_node_enclosure (i : Item.t) (u : string) :
  Item.image i = VStr u -> u <> "" ->
  exists node ty,
    feed_node i = Ok node /\
    prop_opt node "enclosure" = VObj [("@_url", VStr u); ("@_type", VStr ty)] /\
    prop_opt node "media:content" = VObj [("@_url", VStr u); ("@_medium", VStr "image")] /\
    prop_opt (prop_opt node "description") "#text"
    = VStr (cdata (("<p><img src=" +:+ dquote +:+ u +:+ dquote +:+ " alt=" +:+ dquote +:+ dquote
                    +:+ "/></p>") +:+ Item.description i)) /\
    Str.startsWith ty "image/" = true /\
    (isImg_str u = false -> ty = "image/jpeg") /\
    (isImg_str u = true -> Str.includes u "?" = false -> ty ∈ image_types).
Proof.
  intros Himage Hne.
  assert (Hty : exists ty, enclosure_type (VStr u) = Ok ty /\
                  Str.startsWith ty "image/" = true /\
                  (isImg_str u = false -> ty = "image/jpeg") /\
                  (isImg_str u = true -> Str.includes u "?" = false -> ty ∈ image_types)).
  { destruct (isImg_str u) eqn:Himg.
    - assert (Hor : js_or (VStr u) (VStr "") = VStr u) by (by destruct u).
      unfold enclosure_type, isImg. rewrite Hor. cbn [ToString]. rewrite Himg.
      eexists. split; [reflexivity |].
      split; [apply startsWith_spec; eexists; reflexivity |]. split; [discriminate |].
      intros _ Hno. destruct (enclosure_type_extension u Himg Hno) as (ty & Hty & Hin).
      unfold enclosure_type, isImg in Hty. rewrite Hor in Hty. cbn [ToString] in Hty.
      rewrite Himg in Hty. injection Hty as Heq. rewrite <- Heq in Hin. exact Hin.
    - assert (Hor : js_or (VStr u) (VStr "") = VStr u) by (by destruct u).
      unfold enclosure_type, isImg. rewrite Hor. cbn [ToString]. rewrite Himg.
      exists "image/jpeg". split; [reflexivity |]. split; [reflexivity |].
      split; [done | discriminate]. }
  destruct Hty as (ty & Hty & Hpre & Hdefault & Hknown).
  assert (Htruthy : truthy (VStr u) = true) by (by destruct u).
  unfold feed_node. rewrite Himage, Htruthy, Hty. cbn [bind].
  eexists. exists ty. split; [reflexivity |].
  split; [| split; [| split; [| done]]].
  - unfold prop_opt, own. cbn [default]. unfold categories.
    by destruct (Str.nonempty (Item.town i)), (Str.nonempty (Item.venue i)).
  - unfold prop_opt, own. cbn [default]. unfold categories.
    by destruct (Str.nonempty (Item.town i)), (Str.nonempty (Item.venue i)).
  - cbn [ToString]. unfold categories.
    by destruct (Str.nonempty (Item.town i)), (Str.nonempty (Item.venue i)).
Qed.

Lemma feed_node_enclosure_witness :
  exists node ty,
    feed_node poster_record = Ok node /\
    prop_opt node "enclosure" = VObj [("@_url", VStr poster_url); ("@_type", VStr ty)] /\
    ty = "image/jpeg".
Proof.
  destruct (feed_node_enclosure poster_record poster_url) as (node & ty & Hnode & Henc & _);
    [reflexivity | discriminate |].
  exists node, ty. split; [exact Hnode |]. split; [exact Henc |].
  vm_compute in Hnode. injection Hnode as <-. vm_compute in Henc. by injection Henc as <-.
Defined.

(** ** Comments in the configuration file *)

Example stripJsonComments_ex :
  stripJsonComments ("[ /* all */ 1, // one" +:+ nl +:+ "// two" +:+ nl +:+ "2 ] /* open")
  = "[  1," +:+ nl +:+ "2 ] /* open".
Proof. vm_compute. reflexivity. Qed.

Lemma startsWith_nil (s : string) : Str.startsWith s "" = true.
Proof. by destruct s. Qed.

Lemma strip_blocks_plain (s : string) :
  Str.includes s "/*" = false -> strip_blocks false 0 s = s.
Proof.
  induction s as [|c s IH]; [done |]. intros Hno.
  cbn [Str.includes] in Hno. apply orb_false_iff in Hno as [Hhere Hrest].
  cbn [strip_blocks]. rewrite Hhere. cbn [andb]. by rewrite (IH Hrest).
Qed.

Lemma eol_space (c : ascii) : Str.is_eol c = true -> Str.is_space c = true.
Proof. destruct c as [[] [] [] [] [] [] [] []]; by intros H. Qed.

Lemma strip_slashes_guarded (bol after : bool) (s : string) :
  (bol = true -> after = true) ->
  slashes_guarded after s = true -> strip_slashes false bol s = s.
Proof.
  revert bol after. induction s as [|c s IH]; intros bol after Hbol Hs; [done |].
  cbn [slashes_guarded] in Hs. apply andb_true_iff in Hs as [Hhere Hrest].
  apply negb_true_iff in Hhere.
  cbn [strip_slashes andb].
  assert (H1 : bol && Str.startsWith (String c s) "//" = false).
  { destruct bol; [| done]. by rewrite (Hbol eq_refl) in Hhere. }
  rewrite H1.
  assert (H2 : Str.is_space c && Str.startsWith s "//" = false).
  { destruct (Str.is_space c) eqn:Hc; [| done]. cbn [andb].
    destruct s as [|c' s']; [done |].
    cbn [slashes_guarded] in Hrest. apply andb_true_iff in Hrest as [Hr _].
    by apply negb_true_iff in Hr. }
  rewrite H2. f_equal. apply (IH _ (Str.is_space c)); [apply eol_space | exact Hrest].
Qed.

Lemma includes_app_l (a b w : string) :
  Str.includes (a +:+ b) w = false -> Str.includes a w = false.
Proof.
  intros Hno. destruct (Str.includes a w) eqn:Ha; [| done].
  apply includes_spec in Ha as (pre & post & ->).
  assert (Hyes : Str.includes ((pre +:+ w +:+ post) +:+ b) w = true).
  { apply includes_spec. exists pre, (post +:+ b).
    clear. induction pre as [|c pre IH].
    - rewrite !append_nil. induction w as [|c w IH]; [by rewrite !append_nil |].
      by rewrite !append_cons, IH.
    - by rewrite !append_cons, IH. }
  by rewrite Hyes in Hno.
Qed.

Lemma includes_app_r (a b w : string) :
  Str.includes (a +:+ b) w = false -> Str.includes b w = false.
Proof.
  induction a as [|c a IH]; [by rewrite append_nil |].
  rewrite append_cons. intros Hno. apply IH. by apply includes_cons in Hno.
Qed.

Lemma startsWith_slashes_app (c : ascii) (a x : string) :
  Str.startsWith (String c a +:+ " " +:+ x) "//" = Str.startsWith (String c a +:+ " ") "//".
Proof.
  rewrite !append_cons. cbn [Str.startsWith]. destruct (Ascii.eqb "/" c); [| done].
  destruct a as [|c2 a].
  - by rewrite !append_nil.
  - rewrite !append_cons. cbn [Str.startsWith]. by rewrite !startsWith_nil.
Qed.

Lemma slashes_guarded_space (after : bool) (s : string) :
  slashes_guarded after (s +:+ " ") = slashes_guarded after s.
Proof.
  revert after. induction s as [|c s IH]; intros after.
  - rewrite append_nil. cbn. by rewrite andb_false_r.
  - rewrite append_cons. cbn [slashes_guarded]. rewrite IH. f_equal. f_equal. f_equal.
    cbn [Str.startsWith]. destruct (Ascii.eqb "/" c); [| done].
    destruct s as [|c2 s]; [done |].
    rewrite append_cons. cbn [Str.startsWith]. by rewrite !startsWith_nil.
Qed.

Lemma strip_slashes_skip (cm t : string) :
  no_eol cm = true -> strip_slashes true false (cm +:+ t) = strip_slashes true false t.
Proof.
  induction cm as [|c cm IH]; intros Hcm; [by rewrite append_nil |].
  cbn [no_eol] in Hcm. apply andb_true_iff in Hcm as [Hc Hcm].
  rewrite append_cons. cbn [strip_slashes]. rewrite Hc. cbn [andb]. by apply IH.
Qed.

Lemma strip_slashes_line_end (t : string) :
  slashes_guarded true t = true ->
  strip_slashes true false (nl +:+ t) = nl +:+ t.
Proof.
  intros Ht. unfold nl. rewrite append_cons, append_nil. cbn [strip_slashes].
  replace (Str.is_eol "010") with true by reflexivity.
  replace (Str.is_space "010") with true by reflexivity.
  cbn [negb andb].
  assert (Hstart : Str.startsWith t "//" = false).
  { destruct t as [|c t]; [done |]. cbn [slashes_guarded] in Ht.
    apply andb_true_iff in Ht as [Ht _]. by apply negb_true_iff in Ht. }
  rewrite Hstart. f_equal. by apply (strip_slashes_guarded true true).
Qed.

Lemma strip_slashes_comment (x : string) :
  strip_slashes true false ("//" +:+ x) = strip_slashes true false x.
Proof. apply (strip_slashes_skip "//" x). reflexivity. Qed.

Lemma strip_slashes_trailing (bol after : bool) (a x : string) :
  (bol = true -> after = true) ->
  slashes_guarded after (a +:+ " ") = true ->
  strip_slashes false bol (a +:+ " " +:+ "//" +:+ x) = a +:+ strip_slashes true false x.
Proof.
  revert bol after. induction a as [|c a IH]; intros bol after Hbol Ha.
  - rewrite !append_nil, append_cons, append_nil. cbn [strip_slashes andb].
    replace (Str.startsWith (String " " ("//" +:+ x)) "//") with false by reflexivity.
    rewrite andb_false_r.
    replace (Str.is_space " ") with true by reflexivity.
    replace (Str.startsWith ("//" +:+ x) "//") with true
      by (symmetry; apply startsWith_spec; by exists x).
    cbn [andb]. apply strip_slashes_comment.
  - pose proof Ha as Hg. rewrite append_cons in Hg. cbn [slashes_guarded] in Hg.
    apply andb_true_iff in Hg as [Hhere Hrest]. apply negb_true_iff in Hhere.
    rewrite <- append_cons in Hhere.
    assert (H1 : bol && Str.startsWith (String c a +:+ " " +:+ "//" +:+ x) "//" = false).
    { rewrite startsWith_slashes_app. destruct bol; [| done]. by rewrite (Hbol eq_refl) in Hhere. }
    assert (H2 : Str.is_space c && Str.startsWith (a +:+ " " +:+ "//" +:+ x) "//" = false).
    { destruct (Str.is_space c) eqn:Hc; [| done]. cbn [andb].
      destruct a as [|c2 a]; [by rewrite append_nil, append_cons |].
      rewrite startsWith_slashes_app. cbn [slashes_guarded] in Hrest.
      rewrite append_cons in Hrest. cbn [slashes_guarded] in Hrest.
      apply andb_true_iff in Hrest as [Hr _]. apply negb_true_iff in Hr.
      by rewrite <- append_cons in Hr. }
    rewrite (append_cons c a (" " +:+ "//" +:+ x)) in H1 |- *.
    rewrite (append_cons c a (strip_slashes true false x)).
    cbn [strip_slashes andb]. rewrite H1, H2. f_equal.
    apply (IH _ (Str.is_space c)); [apply eol_space | exact Hrest].
Qed.

(** X19.  Removing the comments of the configuration text leaves alone a
    text with no block comment and no two slashes at its start or after a
    white-space character: the two slashes of a URL, which follow a colon,
    are safe.  A comment that follows such a text on its line is removed
    together with the white-space character before it, and a comment at the
    start of the text is removed; the line break after the comment stays. *)
Theorem stripJsonComments_spec (s cm t : string) :
  slashes_guarded true s = true -> slashes_guarded true t = true -> no_eol cm = true ->
  Str.includes (s +:+ " " +:+ "//" +:+ cm +:+ nl +:+ t) "/*" = false ->
  stripJsonComments s = s /\
  stripJsonComments (s +:+ " " +:+ "//" +:+ cm +:+ nl +:+ t) = s +:+ nl +:+ t /\
  stripJsonComments ("//" +:+ cm +:+ nl +:+ t) = nl +:+ t.
Proof.
  intros Hs Ht Hcm Hno. unfold stripJsonComments.
  split; [| split].
  - rewrite (strip_blocks_plain s (includes_app_l _ _ _ Hno)).
    by apply (strip_slashes_guarded true true).
  - rewrite (strip_blocks_plain _ Hno).
    rewrite (strip_slashes_trailing true true); [| done | by rewrite slashes_guarded_space].
    by rewrite (strip_slashes_skip cm _ Hcm), (strip_slashes_line_end t Ht).
  - apply includes_app_r, includes_app_r in Hno.
    rewrite (strip_blocks_plain _ Hno).
    assert (Hstart : strip_slashes false true ("//" +:+ cm +:+ nl +:+ t)
                     = strip_slashes true false (cm +:+ nl +:+ t)).
    { change ("//" +:+ cm +:+ nl +:+ t) with (String "/" (String "/" (cm +:+ nl +:+ t))).
      cbn [strip_slashes andb].
      replace (Str.startsWith (String "/" (String "/" (cm +:+ nl +:+ t))) "//") with true
        by (symmetry; apply startsWith_spec; by exists (cm +:+ nl +:+ t)).
      reflexivity. }
    by rewrite Hstart, (strip_slashes_skip cm _ Hcm), (strip_slashes_line_end t Ht).
Qed.

Lemma stripJsonComments_spec_witness :
  stripJsonComments sites_line = sites_line /\
  stripJsonComments (sites_line +:+ " " +:+ "//" +:+ " the list" +:+ nl +:+ sites_line)
  = sites_line +:+ nl +:+ sites_line /\
  stripJsonComments ("//" +:+ " the list" +:+ nl +:+ sites_line) = nl +:+ sites_line.
Proof.
  apply (stripJsonComments_spec sites_line " the list" sites_line); reflexivity.
Defined.
